(** * wechat-channel: the message poller, token resolver, API client,
    inbound dispatcher and outbound chunker, embedded and verified.

  Each module follows one TypeScript source file.  Asynchronous functions
  are modelled by their sequential effect: every [await] in the sources
  is on a single logical thread, so a call is a function from the state
  before and the answers of the environment (backend responses, callback
  outcomes, host functions) to the state after and the calls made. *)

From Stdlib Require Import ZArith String Ascii List Lia Sorted.
From Stdlib Require Import DecimalString DecimalPos DecimalZ.
From stdpp Require Import gmap strings list fin_maps.

Local Open Scope string_scope.
Local Open Scope list_scope.
Local Open Scope Z_scope.

(** ** JavaScript built-ins used by the sources *)

Module JS.

(** *** Numbers *)

(** The decimal digits of an integer. *)
Definition decimal (n : Z) : string := NilZero.string_of_int (Z.to_int n).

(** A number of the program is an IEEE 754 double.  The numbers the
    sources print are integers the backend or the configuration wrote as
    JSON: the parser gives the double nearest to the integer written, with
    ties to the even significand.  [toDouble a] is that double, for
    [0 <= a] below the overflow threshold. *)
Definition toDouble (a : Z) : Z :=
  let e := Z.log2 a in
  if e <=? 52 then a
  else
    let ulp := 2 ^ (e - 52) in
    let q := a / ulp in
    let r := a mod ulp in
    let half := ulp / 2 in
    (if (half <? r) || (r =? half) && Z.odd q then q + 1 else q) * ulp.

Definition digitCount (v : Z) : Z := Z.of_nat (String.length (decimal v)).

(** [Number::toString] prints the shortest decimal that reads back as the
    double, the nearest one to it when there are several, the even one
    when two are as near.  [shortestAt v k] is that decimal among those of
    [k] significant digits, if there is one. *)
Definition shortestAt (v k : Z) : option Z :=
  let scale := 10 ^ (digitCount v - k) in
  let lo := v / scale * scale in
  let hi := lo + scale in
  match toDouble lo =? v, toDouble hi =? v with
  | true, true =>
      Some (if v - lo <? hi - v then lo
            else if hi - v <? v - lo then hi
            else if Z.even (v / scale) then lo else hi)
  | true, false => Some lo
  | false, true => Some hi
  | false, false => None
  end.

Fixpoint shortestFrom (fuel : nat) (v k : Z) : Z :=
  match fuel with
  | O => v
  | S fuel' =>
      match shortestAt v k with
      | Some c => c
      | None => shortestFrom fuel' v (k + 1)
      end
  end.

(** Seventeen significant digits tell any two doubles apart. *)
Definition shortest (v : Z) : Z := shortestFrom 17 v 1.

(** The digits of a decimal without its trailing zeros. *)
Fixpoint significand (s : string) : string :=
  match s with
  | EmptyString => EmptyString
  | String c s' =>
      match significand s' with
      | EmptyString =>
          if Ascii.eqb c "0" then EmptyString else String c EmptyString
      | t => String c t
      end
  end.

(** The exponent form, used from [1e21] on. *)
Definition exponential (c : Z) : string :=
  match significand (decimal c) with
  | EmptyString => EmptyString
  | String d EmptyString => String d "e+" +:+ decimal (digitCount c - 1)
  | String d rest =>
      String d ("." +:+ rest) +:+ "e+" +:+ decimal (digitCount c - 1)
  end.

(** [String(n)] for the number read from the integer [n]: its decimal
    digits up to [2^53]; beyond, the digits of the nearest double
    ([9223372036854776000] for [2^63]), in exponent form from [1e21] on,
    and [Infinity] where the double overflows. *)
Definition String_of_number (n : Z) : string :=
  let a := Z.abs n in
  if a <? 2 ^ 53 then decimal n
  else
    (if n <? 0 then "-" else "") +:+
    (if 2 ^ 1024 - 2 ^ 970 <=? a then "Infinity"
     else
       let c := shortest (toDouble a) in
       if c <? 10 ^ 21 then decimal c else exponential c).

(** *** Strings *)

(** A string is kept as the bytes of its UTF-8 encoding. *)

(** Truthiness of a string: only the empty string is falsy. *)
Definition truthy (s : string) : bool :=
  match s with EmptyString => false | String _ _ => true end.

(** Truthiness of an optional string ([undefined], [null] and [""] are
    falsy). *)
Definition truthy_opt (o : option string) : bool :=
  match o with Some s => truthy s | None => false end.

(** [a || b] on strings. *)
Definition or_else (a b : string) : string := if truthy a then a else b.

(** [s.includes(sub)] *)
Definition includes (s sub : string) : bool :=
  match String.index 0 sub s with Some _ => true | None => false end.

(** [s.endsWith(suffix)] *)
Definition endsWith (s suffix : string) : bool :=
  let n := String.length s in
  let k := String.length suffix in
  (k <=? n)%nat && String.eqb (String.substring (n - k) k s) suffix.

(** [s.startsWith(p)], and the rest of [s] after the prefix. *)
Fixpoint strip_prefix (p s : string) : option string :=
  match p, s with
  | EmptyString, _ => Some s
  | String a p', String b s' =>
      if Ascii.eqb a b then strip_prefix p' s' else None
  | String _ _, EmptyString => None
  end.

(** The case-insensitive patterns of the sources hold ASCII letters
    only, and such a pattern matches no other character than those
    letters in either case. *)
Definition lower_ascii (c : ascii) : ascii :=
  let n := nat_of_ascii c in
  if ((65 <=? n) && (n <=? 90))%nat then ascii_of_nat (n + 32) else c.

(** Whether a byte continues a character. *)
Definition continuation (y : N) : bool := ((128 <=? y) && (y <? 192))%N.

(** The character a string starts with: its code point and the number of
    bytes it takes; [None] for the empty string and for bytes that start
    no well-formed character. *)
Definition codePointAt0 (s : string) : option (N * nat) :=
  match s with
  | EmptyString => None
  | String a r1 =>
      let x := N_of_ascii a in
      if (x <? 128)%N then Some (x, 1%nat)
      else
        match r1 with
        | EmptyString => None
        | String b r2 =>
            let y := N_of_ascii b in
            if negb (continuation y) then None
            else if ((194 <=? x) && (x <? 224))%N then
              Some (((x - 192) * 64 + (y - 128))%N, 2%nat)
            else
              match r2 with
              | EmptyString => None
              | String c r3 =>
                  let z := N_of_ascii c in
                  if negb (continuation z) then None
                  else if ((224 <=? x) && (x <? 240))%N then
                    let cp :=
                      ((x - 224) * 4096 + (y - 128) * 64 + (z - 128))%N in
                    if (2048 <=? cp)%N then Some (cp, 3%nat) else None
                  else
                    match r3 with
                    | EmptyString => None
                    | String d _ =>
                        let w := N_of_ascii d in
                        let cp :=
                          ((x - 240) * 262144 + (y - 128) * 4096
                           + (z - 128) * 64 + (w - 128))%N in
                        if continuation w && (240 <=? x)%N
                           && (65536 <=? cp)%N && (cp <? 1114112)%N
                        then Some (cp, 4%nat) else None
                    end
              end
        end
  end.

(** The characters [trim], [trimStart] and [trimEnd] remove: the white
    space and the line terminators of ECMAScript, by code point (TAB, LF,
    VT, FF, CR, SPACE, NO-BREAK SPACE, the space separators of Unicode,
    LINE and PARAGRAPH SEPARATOR, ZERO WIDTH NO-BREAK SPACE). *)
Definition isWhiteSpace (c : N) : bool :=
  ((9 <=? c) && (c <=? 13) || (c =? 32) || (c =? 160) || (c =? 5760)
   || (8192 <=? c) && (c <=? 8202) || (c =? 8232) || (c =? 8233)
   || (c =? 8239) || (c =? 8287) || (c =? 12288) || (c =? 65279))%N.

(** The number of bytes of the white space character a string starts
    with, 0 when it starts with none. *)
Definition whiteSpaceWidth (s : string) : nat :=
  match codePointAt0 s with
  | Some (c, n) => if isWhiteSpace c then n else 0%nat
  | None => 0%nat
  end.

Fixpoint trimStart (s : string) : string :=
  match s with
  | EmptyString => EmptyString
  | String _ r1 =>
      match whiteSpaceWidth s with
      | 0%nat => s
      | 1%nat => trimStart r1
      | 2%nat =>
          match r1 with
          | String _ r2 => trimStart r2
          | EmptyString => s
          end
      | _ =>
          match r1 with
          | String _ (String _ r3) => trimStart r3
          | _ => s
          end
      end
  end.

(** [trimEnd]: the string is cut where nothing but white space follows. *)
Fixpoint trimEnd (s : string) : string :=
  match s with
  | EmptyString => EmptyString
  | String c s' =>
      if truthy (trimStart s) then String c (trimEnd s') else EmptyString
  end.

Definition trim (s : string) : string := trimEnd (trimStart s).

(** *** [Set<string>]: elements in insertion order, oldest first *)

Definition Set_has (s : list string) (k : string) : bool :=
  existsb (String.eqb k) s.

Definition Set_add (s : list string) (k : string) : list string :=
  if Set_has s k then s else s ++ [k].

Definition Set_delete (s : list string) (k : string) : list string :=
  List.filter (fun x => negb (String.eqb k x)) s.

(** *** Notions used in the statements *)

(** The string of the given bytes. *)
Definition utf8 (bytes : list nat) : string :=
  string_of_list_ascii (ascii_of_nat <$> bytes).

(** The white space characters and line terminators of ECMAScript, each
    by the bytes of its encoding: TAB, LF, VT, FF, CR, SPACE; U+00A0;
    U+1680; U+2000 to U+200A; U+2028, U+2029; U+202F; U+205F; U+3000;
    U+FEFF. *)
Definition whiteSpaceCharacters : list string :=
  utf8 <$>
    [[9]; [10]; [11]; [12]; [13]; [32]; [194; 160]; [225; 154; 128];
     [226; 128; 128]; [226; 128; 129]; [226; 128; 130]; [226; 128; 131];
     [226; 128; 132]; [226; 128; 133]; [226; 128; 134]; [226; 128; 135];
     [226; 128; 136]; [226; 128; 137]; [226; 128; 138];
     [226; 128; 168]; [226; 128; 169]; [226; 128; 175]; [226; 129; 159];
     [227; 128; 128]; [239; 187; 191]]%nat.

(** A text of white space only; the empty text is one. *)
Inductive blank : string -> Prop :=
| blank_empty : blank ""
| blank_more w s : w ∈ whiteSpaceCharacters -> blank s -> blank (w +:+ s).

(** A text with no white space at its start and none at its end. *)
Definition bare (t : string) : Prop :=
  forall w r, w ∈ whiteSpaceCharacters -> t <> w +:+ r /\ t <> r +:+ w.

(** [t] is [s] without the white space around it. *)
Definition stripped (s t : string) : Prop :=
  bare t /\ exists l r, blank l /\ blank r /\ s = l +:+ t +:+ r.

(** [t] is [s] without the white space at its end. *)
Definition endStripped (s t : string) : Prop :=
  (exists r, blank r /\ s = t +:+ r) /\
  forall w x, w ∈ whiteSpaceCharacters -> t <> x +:+ w.

(** A source of text that holds some: [t] is what it holds, without the
    white space around it, and is not empty. *)
Definition provides (source : option string) (t : string) : Prop :=
  t <> "" /\ exists s, source = Some s /\ stripped s t.

(** A source of text that is absent or holds white space only. *)
Definition vacant (source : option string) : Prop :=
  forall s, source = Some s -> blank s.

(** An integer that a double holds exactly, with its neighbours. *)
Definition isSafeInteger (n : Z) : Prop := Z.abs n < 2 ^ 53.

(** [t] is the greatest of the numbers [l]. *)
Definition greatest (t : Z) (l : list Z) : Prop :=
  t ∈ l /\ Forall (fun x => x <= t) l.

End JS.

(** ** types.ts *)

Module Types.

(** Chat history item, with the fields the poller reads.  A number is kept
    as the integer the backend wrote.  The program reads it as the nearest
    double, which is that integer up to [2^53]: creation timestamps
    (seconds) and type codes are far below, and are compared and
    multiplied as integers; message ids need not be, and are only
    printed, by [String_of_number]. *)
Record WeChatChatHistoryItem : Type := {
  msg_id : Z;
  is_chat_room : bool;
  is_atme : bool;
  is_recalled : bool;
  type : Z;
  content : string;
  display_full_content : option string;
  message_source : option string;
  sender_wxid : string;
  to_wxid : string;
  attachment_url : option string;
  created_at : Z;
  sender_nickname : option string
}.

Record WeChatPollingConfig : Type := {
  pollingIntervalMs : option Z;
  pollContactIds : option (list string);
  pollAllContacts : option bool;
  maxPollContacts : option Z
}.

End Types.

(** ** polling.ts *)

Module Polling.
Import JS Types.

Inductive ChatType : Type := direct | group.

(** Inbound message handed to the callback. *)
Record WeChatInboundMessage : Type := {
  id : string;
  msgId : Z;
  from : string;
  senderWxid : string;
  senderNickname : option string;
  toWxid : string;
  body : string;
  timestamp : Z;
  chatType : ChatType;
  chatId : string;
  isAtMe : bool;
  isRecalled : bool;
  messageType : Z;
  attachmentUrl : option string
}.

Definition DEFAULT_POLLING_INTERVAL_MS : Z := 3000.
Definition DEFAULT_MAX_POLL_CONTACTS : Z := 50.

(** The poller object: its options' polling configuration and its
    private fields.  [seenMessageIds] is the [Set<string>] of identity
    keys, [lastPollTimestamps] the [Map<string, number>] of cursors. *)
Record WeChatMessagePoller : Type := {
  pollingConfig : option WeChatPollingConfig;
  seenMessageIds : list string;
  isRunning : bool;
  lastPollTimestamps : gmap string Z;
  robotWxid : option string;
  robotNickname : option string
}.

Definition createWeChatPoller (cfg : option WeChatPollingConfig)
  : WeChatMessagePoller :=
  {| pollingConfig := cfg; seenMessageIds := []; isRunning := false;
     lastPollTimestamps := ∅; robotWxid := None; robotNickname := None |}.

Definition set_seen (p : WeChatMessagePoller) (s : list string) :=
  {| pollingConfig := pollingConfig p; seenMessageIds := s;
     isRunning := isRunning p; lastPollTimestamps := lastPollTimestamps p;
     robotWxid := robotWxid p; robotNickname := robotNickname p |}.

Definition set_running (p : WeChatMessagePoller) (b : bool) :=
  {| pollingConfig := pollingConfig p; seenMessageIds := seenMessageIds p;
     isRunning := b; lastPollTimestamps := lastPollTimestamps p;
     robotWxid := robotWxid p; robotNickname := robotNickname p |}.

Definition set_cursor (p : WeChatMessagePoller) (contactId : string) (t : Z) :=
  {| pollingConfig := pollingConfig p; seenMessageIds := seenMessageIds p;
     isRunning := isRunning p;
     lastPollTimestamps := <[contactId := t]> (lastPollTimestamps p);
     robotWxid := robotWxid p; robotNickname := robotNickname p |}.

Definition set_robot (p : WeChatMessagePoller) (w n : option string) :=
  {| pollingConfig := pollingConfig p; seenMessageIds := seenMessageIds p;
     isRunning := isRunning p; lastPollTimestamps := lastPollTimestamps p;
     robotWxid := w; robotNickname := n |}.

(** Answers of the backend directory: [None] when the call throws,
    otherwise the [wechat_id]s of [response.data ?? []]. *)
Record Directory : Type := {
  friends : option (list string);
  rooms : option (list string)
}.

(** What the environment answers during one polling cycle.  The loop
    visits the contacts by position: [stopRequested i] tells whether
    [stop()] was called or the abort signal fired by the time the loop
    reaches position [i]; [getChatHistory i c] is the page returned for
    contact [c] there ([None] when the call throws, otherwise
    [response.data?.items ?? []]); [onMessage m] tells whether the
    promise of the callback resolves ([true]) or rejects ([false]). *)
Record CycleEnv : Type := {
  directory : Directory;
  stopRequested : nat -> bool;
  getChatHistory : nat -> string -> option (list WeChatChatHistoryItem);
  onMessage : WeChatInboundMessage -> bool
}.

Definition stop (p : WeChatMessagePoller) : WeChatMessagePoller :=
  set_running p false.

(** [for (const c of list) { if (contactIds.length >= maxContacts) break;
    contactIds.push(c.wechat_id); }] *)
Definition push_upto (maxContacts : Z) (contactIds l : list string)
  : list string :=
  fold_left
    (fun (acc : list string) (w : string) =>
       if Z.of_nat (length acc) >=? maxContacts then acc
       else (acc ++ [w])%list)
    l contactIds.

Definition resolveContactIds (config : option WeChatPollingConfig)
    (dir : Directory) : list string :=
  match config with
  | None => []
  | Some c =>
      match pollContactIds c with
      | Some (x :: l) => x :: l
      | _ =>
          if default false (pollAllContacts c) then
            let maxContacts :=
              default DEFAULT_MAX_POLL_CONTACTS (maxPollContacts c) in
            match friends dir with
            | None => []
            | Some fs =>
                let contactIds := push_upto maxContacts [] fs in
                if Z.of_nat (length contactIds) <? maxContacts then
                  match rooms dir with
                  | None => contactIds
                  | Some rs => push_upto maxContacts contactIds rs
                  end
                else contactIds
            end
          else []
      end
  end.

(** The marker of the backend's rendered "mentioned you" hint: the
    characters U+0040 U+4E86 U+4F60, as UTF-8 bytes. *)
Definition AT_YOU_MARKER : string :=
  String.string_of_list_ascii
    (ascii_of_nat <$> [64; 228; 186; 134; 228; 189; 160]%nat).

Definition messageKey (contactId : string) (item : WeChatChatHistoryItem)
  : string :=
  contactId +:+ ":" +:+ String_of_number (msg_id item).

(** [convertToInboundMessage]; of the poller it reads
    [this.robotNickname] only. *)
Definition convertToInboundMessage (robotNickname : option string)
    (item : WeChatChatHistoryItem) (contactId : string)
  : WeChatInboundMessage :=
  let isChatRoom := is_chat_room item || endsWith contactId "@chatroom" in
  let content := or_else (content item) "" in
  let displayContent := default "" (display_full_content item) in
  let isAtMe0 := is_atme item in
  let isAtMe1 :=
    if negb isAtMe0 && includes displayContent AT_YOU_MARKER
    then true else isAtMe0 in
  let isAtMe2 :=
    match robotNickname with
    | Some nick =>
        if negb isAtMe1 && truthy nick && truthy content
        then includes content ("@" +:+ nick) else isAtMe1
    | None => isAtMe1
    end in
  {| id := messageKey contactId item;
     msgId := msg_id item;
     from := if isChatRoom then contactId else sender_wxid item;
     senderWxid := sender_wxid item;
     senderNickname := sender_nickname item;
     toWxid := to_wxid item;
     body := or_else content displayContent;
     timestamp := created_at item * 1000;
     chatType := if isChatRoom then group else direct;
     chatId := contactId;
     isAtMe := isAtMe2;
     isRecalled := is_recalled item;
     messageType := type item;
     attachmentUrl := attachment_url item |}.

(** The [filter] callback of [poll], run over the page in index order;
    it mutates the seen-set, which is threaded through. *)
Fixpoint filterNew (contactId : string) (lastPollTimestamp : Z)
    (seen : list string) (items : list WeChatChatHistoryItem)
  : list string * list WeChatChatHistoryItem :=
  match items with
  | [] => (seen, [])
  | item :: rest =>
      let key := messageKey contactId item in
      if Set_has seen key then
        filterNew contactId lastPollTimestamp seen rest
      else
        let seen' := Set_add seen key in
        if created_at item <=? lastPollTimestamp then
          filterNew contactId lastPollTimestamp seen' rest
        else
          let '(s, kept) := filterNew contactId lastPollTimestamp seen' rest in
          (s, item :: kept)
  end.

(** The four [continue] tests of the delivery loop; of the poller they
    read [this.robotWxid] only. *)
Definition skipped (robotWxid : option string)
    (item : WeChatChatHistoryItem) : bool :=
  match message_source item with
  | Some src => String.eqb src "robot"
  | None => false
  end
  || match robotWxid with
     | Some w => truthy w && String.eqb (sender_wxid item) w
     | None => false
     end
  || is_recalled item
  || negb (type item =? 1).

(** The delivery loop: the messages handed to the callback, in order,
    and whether the loop ran to its end ([false]: the callback
    rejected, which throws out of the loop). *)
Fixpoint deliver (onMessage : WeChatInboundMessage -> bool)
    (p : WeChatMessagePoller) (contactId : string)
    (newMessages : list WeChatChatHistoryItem)
  : list WeChatInboundMessage * bool :=
  match newMessages with
  | [] => ([], true)
  | item :: rest =>
      if skipped (robotWxid p) item then deliver onMessage p contactId rest
      else
        let inboundMessage :=
          convertToInboundMessage (robotNickname p) item contactId in
        if onMessage inboundMessage then
          let '(ds, ok) := deliver onMessage p contactId rest in
          (inboundMessage :: ds, ok)
        else ([inboundMessage], false)
  end.

(** [Math.max(...items.map((item) => item.created_at))] for a page
    [item :: rest]. *)
Definition maxTimestamp (item : WeChatChatHistoryItem)
    (rest : list WeChatChatHistoryItem) : Z :=
  fold_left Z.max (created_at <$> rest) (created_at item).

(** The body of the [try] block of [poll] for one contact, with its
    [catch]: the poller after it and the messages delivered. *)
Definition pollContact (onMessage : WeChatInboundMessage -> bool)
    (p : WeChatMessagePoller) (contactId : string)
    (response : option (list WeChatChatHistoryItem))
  : WeChatMessagePoller * list WeChatInboundMessage :=
  match response with
  | None => (p, [])
  | Some items =>
      let lastPollTimestamp :=
        default 0 (lastPollTimestamps p !! contactId) in
      let '(seen', kept) :=
        filterNew contactId lastPollTimestamp (seenMessageIds p) items in
      let newMessages := rev kept in
      let p1 := set_seen p seen' in
      let '(delivered, ok) := deliver onMessage p1 contactId newMessages in
      if ok then
        match items with
        | [] => (p1, delivered)
        | item :: rest =>
            (set_cursor p1 contactId (maxTimestamp item rest), delivered)
        end
      else (p1, delivered)
  end.

(** The [for (const contactId of contactIds)] loop, from position [i]. *)
Fixpoint pollContacts (env : CycleEnv) (i : nat) (p : WeChatMessagePoller)
    (contactIds : list string)
  : WeChatMessagePoller * list WeChatInboundMessage :=
  match contactIds with
  | [] => (p, [])
  | contactId :: rest =>
      if negb (isRunning p) then (p, [])
      else if stopRequested env i then (stop p, [])
      else
        let '(p1, d1) :=
          pollContact (onMessage env) p contactId
            (getChatHistory env i contactId) in
        let '(p2, d2) := pollContacts env (S i) p1 rest in
        (p2, (d1 ++ d2)%list)
  end.

Definition SEEN_HIGH_WATER : Z := 10000.
Definition SEEN_EVICT : Z := 5000.

(** The clean-up at the end of [poll]. *)
Definition cleanupSeen (seen : list string) : list string :=
  if Z.of_nat (length seen) >? SEEN_HIGH_WATER then
    let idsArray := seen in
    let toRemove := take (Z.to_nat SEEN_EVICT) idsArray in
    fold_left Set_delete toRemove seen
  else seen.

Definition poll (p : WeChatMessagePoller) (env : CycleEnv)
  : WeChatMessagePoller * list WeChatInboundMessage :=
  match resolveContactIds (pollingConfig p) (directory env) with
  | [] => (p, [])
  | contactIds =>
      let '(p1, ds) := pollContacts env 0 p contactIds in
      (set_seen p1 (cleanupSeen (seenMessageIds p1)), ds)
  end.

(** [start()]: [aborted] tells whether the abort signal had fired,
    [robotInfo] is the answer of [getRobotInfo] ([None] when it throws,
    otherwise [data?.wechat_id] and [data?.nickname]), [now] is
    [Math.floor(Date.now() / 1000)]. *)
Definition start (p : WeChatMessagePoller) (aborted : bool)
    (robotInfo : option (option string * option string)) (now : Z)
    (dir : Directory) : WeChatMessagePoller :=
  if isRunning p then p
  else
    let p := set_running p true in
    if aborted then stop p
    else
      let p :=
        match robotInfo with
        | Some (w, n) => set_robot p w n
        | None => p
        end in
      fold_left (fun q contactId => set_cursor q contactId now)
        (resolveContactIds (pollingConfig p) dir) p.

(** The timer loop: one environment per cycle; a cycle runs only while
    the poller is running. *)
Fixpoint run (p : WeChatMessagePoller) (envs : list CycleEnv)
  : WeChatMessagePoller * list WeChatInboundMessage :=
  match envs with
  | [] => (p, [])
  | env :: rest =>
      if isRunning p then
        let '(p1, d1) := poll p env in
        let '(p2, d2) := run p1 rest in
        (p2, (d1 ++ d2)%list)
      else (p, [])
  end.

(** *** Notions used in the statements *)

(** An item the delivery loop does not skip: a text message that is
    neither robot-originated nor recalled. *)
Definition plainText (robotWxid : option string)
    (item : WeChatChatHistoryItem) : Prop :=
  type item = 1 /\ is_recalled item = false /\
  message_source item <> Some "robot" /\
  (forall w, robotWxid = Some w -> truthy w = true -> sender_wxid item <> w).

(** The contacts a cycle polls, and the poller when the loop over them
    ends, before the clean-up. *)
Definition contactsOf (p : WeChatMessagePoller) (env : CycleEnv)
  : list string :=
  resolveContactIds (pollingConfig p) (directory env).

Definition afterLoop (p : WeChatMessagePoller) (env : CycleEnv)
  : WeChatMessagePoller :=
  fst (pollContacts env 0 p (contactsOf p env)).



(** The keys of the pages a loop over [contactIds] fetches, in order,
    when nobody stops it. *)
Fixpoint loopKeys (env : CycleEnv) (i : nat) (contactIds : list string)
  : list string :=
  match contactIds with
  | [] => []
  | contactId :: rest =>
      match getChatHistory env i contactId with
      | Some items => messageKey contactId <$> items
      | None => []
      end ++ loopKeys env (S i) rest
  end.

(** A contact id without a colon. *)
Fixpoint noColon (s : string) : bool :=
  match s with
  | EmptyString => true
  | String c s' => negb (Ascii.eqb c ":") && noColon s'
  end.

End Polling.

(** ** token.ts *)

Module Token.
Import JS.

(** Account configuration, with the fields the resolver reads. *)
Record WeChatAccountConfig : Type := {
  apiToken : option string;
  tokenFile : option string
}.

(** [WeChatConfig = { accounts?, defaultAccount? } & WeChatAccountConfig]:
    [base] holds the fields of the intersection, [accounts] the named
    sub-map (empty when absent). *)
Record WeChatConfig : Type := {
  base : WeChatAccountConfig;
  accounts : gmap string WeChatAccountConfig
}.

Inductive WeChatTokenSource : Type := env | config | configFile | none.

Record WeChatTokenResolution : Type := {
  token : string;
  source : WeChatTokenSource
}.

Section Resolve.

(** [DEFAULT_ACCOUNT_ID] is imported from the host SDK;
    [readFileSync path] is [None] when the read throws;
    [WECHAT_API_TOKEN] is [process.env.WECHAT_API_TOKEN]. *)
Variable DEFAULT_ACCOUNT_ID : string.
Variable readFileSync : string -> option string.
Variable WECHAT_API_TOKEN : option string.

Definition resolveWeChatToken (cfg : option WeChatConfig)
    (accountId : option string) : WeChatTokenResolution :=
  let resolvedAccountId := default DEFAULT_ACCOUNT_ID accountId in
  let isDefaultAccount := String.eqb resolvedAccountId DEFAULT_ACCOUNT_ID in
  let baseConfig := cfg in
  let accountConfig :=
    if negb (String.eqb resolvedAccountId DEFAULT_ACCOUNT_ID)
    then baseConfig ≫= (fun c => accounts c !! resolvedAccountId)
    else None in
  let fromAccount :=
    match accountConfig with
    | Some ac =>
        let token := trim <$> apiToken ac in
        if truthy_opt token
        then Some {| token := default "" token; source := config |}
        else
          let tokenFile := trim <$> tokenFile ac in
          if truthy_opt tokenFile then
            match readFileSync (default "" tokenFile) with
            | Some text =>
                let fileToken := trim text in
                if truthy fileToken
                then Some {| token := fileToken; source := configFile |}
                else None
            | None => None
            end
          else None
    | None => None
    end in
  match fromAccount with
  | Some r => r
  | None =>
      let fromBase :=
        if isDefaultAccount then
          let token := baseConfig ≫= (fun c => trim <$> apiToken (base c)) in
          if truthy_opt token
          then Some {| token := default "" token; source := config |}
          else
            let tokenFile :=
              baseConfig ≫= (fun c => trim <$> tokenFile (base c)) in
            let fromFile :=
              if truthy_opt tokenFile then
                match readFileSync (default "" tokenFile) with
                | Some text =>
                    let fileToken := trim text in
                    if truthy fileToken
                    then Some {| token := fileToken; source := configFile |}
                    else None
                | None => None
                end
              else None in
            match fromFile with
            | Some r => Some r
            | None =>
                let envToken := trim <$> WECHAT_API_TOKEN in
                if truthy_opt envToken
                then Some {| token := default "" envToken; source := env |}
                else None
            end
        else None in
      match fromBase with
      | Some r => r
      | None => {| token := ""; source := none |}
      end
  end.

(** *** Notions used in the statements *)

(** The three kinds of source: an inline token, a token file, the
    environment variable. *)
Definition fromInline (apiToken : option string)
  : option WeChatTokenResolution :=
  let token := trim <$> apiToken in
  if truthy_opt token
  then Some {| token := default "" token; source := config |} else None.

Definition fromFile (tokenFile : option string)
  : option WeChatTokenResolution :=
  let tokenFile := trim <$> tokenFile in
  if truthy_opt tokenFile then
    match readFileSync (default "" tokenFile) with
    | Some text =>
        if truthy (trim text)
        then Some {| token := trim text; source := configFile |} else None
    | None => None
    end
  else None.

Definition fromEnv : option WeChatTokenResolution :=
  let envToken := trim <$> WECHAT_API_TOKEN in
  if truthy_opt envToken
  then Some {| token := default "" envToken; source := env |} else None.

(** The first source of a priority list that yields a token. *)
Fixpoint firstOf (sources : list (option WeChatTokenResolution))
  : WeChatTokenResolution :=
  match sources with
  | [] => {| token := ""; source := none |}
  | Some r :: _ => r
  | None :: rest => firstOf rest
  end.

(** The order as the specification words it: the selected account's own
    token and token file first, whichever account is selected, then, for
    the default account, the base-level sources and the environment. *)
Definition specifiedOrder (cfg : option WeChatConfig)
    (accountId : option string) : WeChatTokenResolution :=
  let resolvedAccountId := default DEFAULT_ACCOUNT_ID accountId in
  let account := cfg ≫= (fun c => accounts c !! resolvedAccountId) in
  firstOf
    ([fromInline (account ≫= apiToken); fromFile (account ≫= tokenFile)]
     ++ if String.eqb resolvedAccountId DEFAULT_ACCOUNT_ID
        then [fromInline (cfg ≫= (fun c => apiToken (base c)));
              fromFile (cfg ≫= (fun c => tokenFile (base c)));
              fromEnv]
        else []).

End Resolve.

End Token.

(** ** api.ts *)

Module Api.

(** [WeChatApiResponse<T>]: the backend's envelope. *)
Record WeChatApiResponse (T : Type) : Type := {
  code : Z;
  message : option string;
  data : option T
}.
Arguments code {T} _.
Arguments message {T} _.
Arguments data {T} _.

(** What [callApi] can throw: its own [WeChatApiError], or whatever
    [fetch] or [response.json()] rejected with. *)
Inductive Thrown : Type :=
| WeChatApiError (message : string) (code : option Z) (response : option string)
| Rejected (reason : string).

(** The answer of the transport: [fetch] rejects (network failure, or the
    abort of the time-out), or resolves with a transport status and a body
    that [response.json()] parses ([Some]) or not ([None], with the
    parser's error). *)
Inductive FetchResult (T : Type) : Type :=
| FetchRejected (reason : string)
| FetchResolved (status : Z) (json : string + WeChatApiResponse T).
Arguments FetchRejected {T} _.
Arguments FetchResolved {T} _ _.

(** The [type] of [getContactList]. *)
Inductive ContactType : Type := friend | chat_room.

Section CallApi.

Context {T : Type}.

(** [JSON.stringify] on an envelope. *)
Variable JSON_stringify : WeChatApiResponse T -> string.

Definition callApi (endpoint : string) (answer : FetchResult T)
  : Thrown + WeChatApiResponse T :=
  match answer with
  | FetchRejected reason => inl (Rejected reason)
  | FetchResolved _ (inl reason) => inl (Rejected reason)
  | FetchResolved _ (inr data) =>
      if negb (code data =? 200) then
        inl (WeChatApiError
               (default ("API error: " +:+ endpoint) (message data))
               (Some (code data))
               (Some (JSON_stringify data)))
      else inr data
  end.

(** [getRobotState], [getRobotInfo], [sendTextMessage] and
    [sendImageMessage] are [callApi] on their endpoint. *)
Definition getRobotState := callApi "/api/v1/robot/state".
Definition getRobotInfo := callApi "/api/v1/robot/view".
Definition sendTextMessage := callApi "/api/v1/message/send/text".
Definition sendImageMessage := callApi "/api/v1/message/send/image".

(** The other functions make their request themselves and repeat the
    check of the envelope, each with a message of its own for an envelope
    that has none. *)
Definition sendVoiceMessage (answer : FetchResult T)
  : Thrown + WeChatApiResponse T :=
  match answer with
  | FetchRejected reason => inl (Rejected reason)
  | FetchResolved _ (inl reason) => inl (Rejected reason)
  | FetchResolved _ (inr data) =>
      if negb (code data =? 200) then
        inl (WeChatApiError
               (default "Failed to send voice message" (message data))
               (Some (code data))
               (Some (JSON_stringify data)))
      else inr data
  end.

Definition getContactList (type : ContactType) (answer : FetchResult T)
  : Thrown + WeChatApiResponse T :=
  match answer with
  | FetchRejected reason => inl (Rejected reason)
  | FetchResolved _ (inl reason) => inl (Rejected reason)
  | FetchResolved _ (inr data) =>
      if negb (code data =? 200) then
        inl (WeChatApiError
               (default "Failed to get contact list" (message data))
               (Some (code data))
               (Some (JSON_stringify data)))
      else inr data
  end.

Definition getChatRoomList (answer : FetchResult T)
  : Thrown + WeChatApiResponse T :=
  getContactList chat_room answer.

Definition getChatRoomMembers (chatRoomId : string) (answer : FetchResult T)
  : Thrown + WeChatApiResponse T :=
  match answer with
  | FetchRejected reason => inl (Rejected reason)
  | FetchResolved _ (inl reason) => inl (Rejected reason)
  | FetchResolved _ (inr data) =>
      if negb (code data =? 200) then
        inl (WeChatApiError
               (default "Failed to get chat room members" (message data))
               (Some (code data))
               (Some (JSON_stringify data)))
      else inr data
  end.

Definition getChatHistory (contactId : string) (answer : FetchResult T)
  : Thrown + WeChatApiResponse T :=
  match answer with
  | FetchRejected reason => inl (Rejected reason)
  | FetchResolved _ (inl reason) => inl (Rejected reason)
  | FetchResolved _ (inr data) =>
      if negb (code data =? 200) then
        inl (WeChatApiError
               (default "Failed to get chat history" (message data))
               (Some (code data))
               (Some (JSON_stringify data)))
      else inr data
  end.

(** *** Notions used in the statements *)

(** The functions of the client that call the backend, each with the
    message its error carries when the envelope has none. *)
Definition backendCalls (type : ContactType) (chatRoomId contactId : string)
  : list (string * (FetchResult T -> Thrown + WeChatApiResponse T)) :=
  [("API error: /api/v1/robot/state", getRobotState);
   ("API error: /api/v1/robot/view", getRobotInfo);
   ("API error: /api/v1/message/send/text", sendTextMessage);
   ("API error: /api/v1/message/send/image", sendImageMessage);
   ("Failed to send voice message", sendVoiceMessage);
   ("Failed to get contact list", getContactList type);
   ("Failed to get contact list", getChatRoomList);
   ("Failed to get chat room members", getChatRoomMembers chatRoomId);
   ("Failed to get chat history", getChatHistory contactId)].

End CallApi.

End Api.

(** ** inbound.ts *)

(** The handler's calls into the host runtime, the console and
    [sendMessageWeChat], shared by the two versions of [inbound.ts]. *)
Module Host.
Import JS.

Inductive Policy : Type := pairing | allowlist | open | disabled.

Definition Policy_eqb (a b : Policy) : bool :=
  match a, b with
  | pairing, pairing | allowlist, allowlist
  | open, open | disabled, disabled => true
  | _, _ => false
  end.

Inductive PeerKind : Type := peer_group | peer_dm.
Inductive TrustLevel : Type := trusted | guest.
Inductive Capability : Type := chat | tools | files | commands.

(** The result of [resolveAgentRoute], with the fields the handler reads. *)
Record Route : Type := {
  sessionKey : string;
  routeAccountId : string
}.

(** Argument of [formatInboundEnvelope] ([channel] is always ["WeChat"]). *)
Record EnvelopeArgs (E : Type) : Type := {
  envFrom : string;
  envTimestamp : Z;
  envBody : string;
  envChatType : Polling.ChatType;
  envSenderName : string;
  envSenderId : string;
  envelope : E
}.
Arguments Build_EnvelopeArgs {E}.
Arguments envFrom {E} _.
Arguments envTimestamp {E} _.
Arguments envBody {E} _.
Arguments envChatType {E} _.
Arguments envSenderName {E} _.
Arguments envSenderId {E} _.
Arguments envelope {E} _.

(** Argument of [finalizeInboundContext] ([Provider], [Surface] and
    [OriginatingChannel] are always ["wechat"]).  The two trust fields are
    absent in the earlier version of the handler. *)
Record InboundContext : Type := {
  Body : string;
  RawBody : string;
  CommandBody : string;
  From : string;
  To : string;
  SessionKey : string;
  AccountId : string;
  ChatType : Polling.ChatType;
  ConversationLabel : string;
  GroupSubject : option string;
  SenderName : string;
  SenderId : string;
  MessageSid : string;
  Timestamp : Z;
  WasMentioned : bool;
  CommandAuthorized : bool;
  OriginatingTo : string;
  UserTrustLevel : option TrustLevel;
  AllowedCapabilities : option (list Capability)
}.

(** The host functions whose results the handler uses. *)
Record PluginRuntime (Cfg E Ctx : Type) : Type := {
  buildPairingReply : Cfg -> string -> string -> option string;
  resolveAgentRoute : Cfg -> string -> PeerKind -> string -> Route;
  resolveEnvelopeFormatOptions : Cfg -> E;
  formatInboundEnvelope : EnvelopeArgs E -> string;
  finalizeInboundContext : InboundContext -> option Ctx
}.
Arguments buildPairingReply {Cfg E Ctx} _.
Arguments resolveAgentRoute {Cfg E Ctx} _.
Arguments resolveEnvelopeFormatOptions {Cfg E Ctx} _.
Arguments formatInboundEnvelope {Cfg E Ctx} _.
Arguments finalizeInboundContext {Cfg E Ctx} _.

(** The lines written with [console.log]. *)
Inductive LogLine : Type :=
| GroupCheck (requireMention isAtMe : bool)
| AccessCheck (checkId : string) (chatType : Polling.ChatType)
    (policy : Policy) (isAllowed isTrusted isCommandAuthorized : bool)
| AllowlistCheck (sender : string) (isAllowed : bool) (dmPolicy : Policy).

(** One call made by the handler, in the order of the calls. *)
Inductive HostCall (E Ctx : Type) : Type :=
| ConsoleLog (line : LogLine)
| BuildPairingReply (senderId senderName : string)
| UpsertPairingRequest (accountId senderId : string)
    (senderName : option string) (timestamp : Z)
| SendMessageWeChat (toWxid text baseUrl apiToken : string) (robotId : Z)
| ActivityRecord (accountId : string)
| ResolveAgentRoute (accountId : string) (kind : PeerKind) (peerId : string)
| ResolveEnvelopeFormatOptions
| FormatInboundEnvelope (args : EnvelopeArgs E)
| FinalizeInboundContext (ctx : InboundContext)
| CreateReplyDispatcherWithTyping (replyTo : string)
| DispatchReplyFromConfig (ctx : Ctx)
| MarkDispatchIdle.
Arguments ConsoleLog {E Ctx}.
Arguments BuildPairingReply {E Ctx}.
Arguments UpsertPairingRequest {E Ctx}.
Arguments SendMessageWeChat {E Ctx}.
Arguments ActivityRecord {E Ctx}.
Arguments ResolveAgentRoute {E Ctx}.
Arguments ResolveEnvelopeFormatOptions {E Ctx}.
Arguments FormatInboundEnvelope {E Ctx}.
Arguments FinalizeInboundContext {E Ctx}.
Arguments CreateReplyDispatcherWithTyping {E Ctx}.
Arguments DispatchReplyFromConfig {E Ctx}.
Arguments MarkDispatchIdle {E Ctx}.

(** [s.replace(/^(wechat|wx):/i, "")]: the pattern matches ASCII letters
    only, in either case. *)
Fixpoint strip_prefix_ci (p s : string) : option string :=
  match p, s with
  | EmptyString, _ => Some s
  | String a p', String b s' =>
      if Ascii.eqb a (lower_ascii b) then strip_prefix_ci p' s' else None
  | String _ _, EmptyString => None
  end.

Definition stripChannelPrefix (entry : string) : string :=
  match strip_prefix_ci "wechat:" entry with
  | Some rest => rest
  | None =>
      match strip_prefix_ci "wx:" entry with
      | Some rest => rest
      | None => entry
      end
  end.

(** [(entry) => entry.replace(/^(wechat|wx):/i, "").toLowerCase()];
    [toLowerCase] is [String.prototype.toLowerCase], the case mapping of
    Unicode the engine provides. *)
Definition normalizeEntry (toLowerCase : string -> string) (entry : string)
  : string :=
  toLowerCase (stripChannelPrefix entry).

(** [Array.prototype.includes] on strings. *)
Definition Array_includes (l : list string) (x : string) : bool :=
  existsb (String.eqb x) l.

Definition isGroup (t : Polling.ChatType) : bool :=
  match t with Polling.group => true | Polling.direct => false end.

(** Which calls register a pairing request, send a message, or belong to
    routing and reply dispatch. *)
Definition isUpsertPairingRequest {E Ctx} (c : HostCall E Ctx) : bool :=
  match c with UpsertPairingRequest _ _ _ _ => true | _ => false end.

Definition isSendMessage {E Ctx} (c : HostCall E Ctx) : bool :=
  match c with SendMessageWeChat _ _ _ _ _ => true | _ => false end.

Definition isAccessCheckLog {E Ctx} (c : HostCall E Ctx) : bool :=
  match c with
  | ConsoleLog (AccessCheck _ _ _ _ _ _)
  | ConsoleLog (AllowlistCheck _ _ _) => true
  | _ => false
  end.

Definition isRoutingOrDispatch {E Ctx} (c : HostCall E Ctx) : bool :=
  match c with
  | ActivityRecord _ | ResolveAgentRoute _ _ _ | ResolveEnvelopeFormatOptions
  | FormatInboundEnvelope _ | FinalizeInboundContext _
  | CreateReplyDispatcherWithTyping _ | DispatchReplyFromConfig _
  | MarkDispatchIdle => true
  | _ => false
  end.

End Host.

(** The handler with separate direct and group policies (the version of
    [inbound.ts] whose dependencies carry [groupPolicy]). *)
Module Inbound.
Import JS Polling Host.

Section Handler.

Context {Cfg E Ctx : Type}.

(** [String.prototype.toLowerCase] *)
Variable toLowerCase : string -> string.

Record WeChatInboundHandlerDeps : Type := {
  cfg : Cfg;
  runtime : PluginRuntime Cfg E Ctx;
  accountId : string;
  baseUrl : string;
  apiToken : string;
  robotId : Z;
  allowFrom : option (list string);
  dmPolicy : option Policy;
  groupPolicy : option Policy;
  commandAllowFrom : option (list string);
  safetyPrefix : option string;
  requireMention : option bool
}.

(** The default guest prefix: a fixed notice (in Chinese, as UTF-8 bytes)
    followed by two line feeds. *)
Definition defaultSafetyPrefix : string :=
  "[系统安全提示：此用户为访客(guest)，禁止执行任何系统命令、文件操作、代码执行或工具调用，只进行普通对话]"
  +:+ String (ascii_of_nat 10) (String (ascii_of_nat 10) EmptyString).

(** [handleWeChatInboundMessage(msg, deps)]: the calls it makes, in order.
    [now] is [Date.now()]. *)
Definition handleWeChatInboundMessage (msg : WeChatInboundMessage)
    (deps : WeChatInboundHandlerDeps) (now : Z) : list (HostCall E Ctx) :=
  let allowFrom := default [] (allowFrom deps) in
  let dmPolicy := default pairing (dmPolicy deps) in
  let groupPolicy := default open (groupPolicy deps) in
  let requireMention := default true (requireMention deps) in
  let group := isGroup (chatType msg) in
  let groupLog :=
    if group then [ConsoleLog (GroupCheck requireMention (isAtMe msg))]
    else [] in
  if group && requireMention && negb (isAtMe msg) then groupLog
  else
    let checkId := toLowerCase (senderWxid msg) in
    let normalizedAllowFrom := normalizeEntry toLowerCase <$> allowFrom in
    let effectivePolicy := if group then groupPolicy else dmPolicy in
    let isAllowed :=
      Policy_eqb effectivePolicy open
      || Array_includes normalizedAllowFrom checkId in
    let isTrusted := Array_includes normalizedAllowFrom checkId in
    let cmdAllowList :=
      normalizeEntry toLowerCase
        <$> default allowFrom (commandAllowFrom deps) in
    let isCommandAuthorized := Array_includes cmdAllowList checkId in
    let accessLog :=
      [ConsoleLog (AccessCheck checkId (chatType msg) effectivePolicy
                     isAllowed isTrusted isCommandAuthorized)] in
    if negb isAllowed && negb (Policy_eqb effectivePolicy pairing) then
      groupLog ++ accessLog
    else if Policy_eqb effectivePolicy pairing
            && negb (Array_includes normalizedAllowFrom checkId) then
      let senderId := if group then chatId msg else senderWxid msg in
      let pairingReply :=
        buildPairingReply (runtime deps) (cfg deps) senderId
          (if group then "Group " +:+ chatId msg
           else default (senderWxid msg) (senderNickname msg)) in
      groupLog ++ accessLog ++
      [BuildPairingReply senderId
         (if group then "Group " +:+ chatId msg
          else default (senderWxid msg) (senderNickname msg))] ++
      (if truthy_opt pairingReply then
         [UpsertPairingRequest (accountId deps) senderId
            (if group then Some ("Group " +:+ chatId msg)
             else senderNickname msg) now;
          SendMessageWeChat senderId (default "" pairingReply)
            (baseUrl deps) (apiToken deps) (robotId deps)]
       else [])
    else
      let peerKind := if group then peer_group else peer_dm in
      let peerId := if group then chatId msg else senderWxid msg in
      let route :=
        resolveAgentRoute (runtime deps) (cfg deps) (accountId deps)
          peerKind peerId in
      let fromLabel := default (senderWxid msg) (senderNickname msg) in
      let envelopeOptions :=
        resolveEnvelopeFormatOptions (runtime deps) (cfg deps) in
      let effectiveSafetyPrefix :=
        if isTrusted then ""
        else default defaultSafetyPrefix (safetyPrefix deps) in
      let messageBody := effectiveSafetyPrefix +:+ body msg in
      let envelopeArgs :=
        Build_EnvelopeArgs fromLabel (timestamp msg) messageBody
          (if group then Polling.group else Polling.direct)
          (default (senderWxid msg) (senderNickname msg)) (senderWxid msg)
          envelopeOptions in
      let formatted := formatInboundEnvelope (runtime deps) envelopeArgs in
      let replyTo := if group then chatId msg else senderWxid msg in
      let wechatTo :=
        if group then "group:" +:+ chatId msg
        else "wechat:" +:+ senderWxid msg in
      let ctxArgs :=
        {| Body := formatted;
           RawBody := body msg;
           CommandBody := body msg;
           From := wechatTo;
           To := wechatTo;
           SessionKey := sessionKey route;
           AccountId := routeAccountId route;
           ChatType := if group then Polling.group else Polling.direct;
           ConversationLabel := fromLabel;
           GroupSubject := if group then Some (chatId msg) else None;
           SenderName := default (senderWxid msg) (senderNickname msg);
           SenderId := senderWxid msg;
           MessageSid := id msg;
           Timestamp := timestamp msg;
           WasMentioned := isAtMe msg;
           CommandAuthorized := isCommandAuthorized;
           OriginatingTo := wechatTo;
           UserTrustLevel := Some (if isTrusted then trusted else guest);
           AllowedCapabilities :=
             Some (if isTrusted then [chat; tools; files; commands]
                   else [chat]) |} in
      groupLog ++ accessLog ++
      [ActivityRecord (accountId deps);
       ResolveAgentRoute (accountId deps) peerKind peerId;
       ResolveEnvelopeFormatOptions;
       FormatInboundEnvelope envelopeArgs;
       FinalizeInboundContext ctxArgs] ++
      match finalizeInboundContext (runtime deps) ctxArgs with
      | None => []
      | Some ctxPayload =>
          [CreateReplyDispatcherWithTyping replyTo;
           DispatchReplyFromConfig ctxPayload;
           MarkDispatchIdle]
      end.

End Handler.

Arguments WeChatInboundHandlerDeps : clear implicits.

End Inbound.

(** The handler of [src/inbound.ts]: one policy, [dmPolicy], for direct
    and group chats alike. *)
Module InboundSrc.
Import JS Polling Host.

Section Handler.

Context {Cfg E Ctx : Type}.

(** [String.prototype.toLowerCase] *)
Variable toLowerCase : string -> string.

Record WeChatInboundHandlerDeps : Type := {
  cfg : Cfg;
  runtime : PluginRuntime Cfg E Ctx;
  accountId : string;
  baseUrl : string;
  apiToken : string;
  robotId : Z;
  allowFrom : option (list string);
  dmPolicy : option Policy;
  requireMention : option bool
}.

Definition handleWeChatInboundMessage (msg : WeChatInboundMessage)
    (deps : WeChatInboundHandlerDeps) (now : Z) : list (HostCall E Ctx) :=
  let allowFrom := default [] (allowFrom deps) in
  let dmPolicy := default pairing (dmPolicy deps) in
  let requireMention := default true (requireMention deps) in
  let group := isGroup (chatType msg) in
  let groupLog :=
    if group then [ConsoleLog (GroupCheck requireMention (isAtMe msg))]
    else [] in
  if group && requireMention && negb (isAtMe msg) then groupLog
  else
    let checkId := toLowerCase (senderWxid msg) in
    let normalizedAllowFrom := normalizeEntry toLowerCase <$> allowFrom in
    let isAllowed :=
      Policy_eqb dmPolicy open || Array_includes normalizedAllowFrom checkId in
    let accessLog := [ConsoleLog (AllowlistCheck checkId isAllowed dmPolicy)] in
    if negb isAllowed && negb (Policy_eqb dmPolicy pairing) then
      groupLog ++ accessLog
    else if Policy_eqb dmPolicy pairing
            && negb (Array_includes normalizedAllowFrom checkId) then
      let senderId := if group then chatId msg else senderWxid msg in
      let pairingReply :=
        buildPairingReply (runtime deps) (cfg deps) senderId
          (if group then "Group " +:+ chatId msg
           else default (senderWxid msg) (senderNickname msg)) in
      groupLog ++ accessLog ++
      [BuildPairingReply senderId
         (if group then "Group " +:+ chatId msg
          else default (senderWxid msg) (senderNickname msg))] ++
      (if truthy_opt pairingReply then
         [UpsertPairingRequest (accountId deps) senderId
            (if group then Some ("Group " +:+ chatId msg)
             else senderNickname msg) now;
          SendMessageWeChat senderId (default "" pairingReply)
            (baseUrl deps) (apiToken deps) (robotId deps)]
       else [])
    else
      let peerKind := if group then peer_group else peer_dm in
      let peerId := if group then chatId msg else senderWxid msg in
      let route :=
        resolveAgentRoute (runtime deps) (cfg deps) (accountId deps)
          peerKind peerId in
      let fromLabel := default (senderWxid msg) (senderNickname msg) in
      let envelopeOptions :=
        resolveEnvelopeFormatOptions (runtime deps) (cfg deps) in
      let envelopeArgs :=
        Build_EnvelopeArgs fromLabel (timestamp msg) (body msg)
          (if group then Polling.group else Polling.direct)
          (default (senderWxid msg) (senderNickname msg)) (senderWxid msg)
          envelopeOptions in
      let formatted := formatInboundEnvelope (runtime deps) envelopeArgs in
      let replyTo := if group then chatId msg else senderWxid msg in
      let wechatTo :=
        if group then "group:" +:+ chatId msg
        else "wechat:" +:+ senderWxid msg in
      let ctxArgs :=
        {| Body := formatted;
           RawBody := body msg;
           CommandBody := body msg;
           From := wechatTo;
           To := wechatTo;
           SessionKey := sessionKey route;
           AccountId := routeAccountId route;
           ChatType := if group then Polling.group else Polling.direct;
           ConversationLabel := fromLabel;
           GroupSubject := if group then Some (chatId msg) else None;
           SenderName := default (senderWxid msg) (senderNickname msg);
           SenderId := senderWxid msg;
           MessageSid := id msg;
           Timestamp := timestamp msg;
           WasMentioned := isAtMe msg;
           CommandAuthorized := true;
           OriginatingTo := wechatTo;
           UserTrustLevel := None;
           AllowedCapabilities := None |} in
      groupLog ++ accessLog ++
      [ActivityRecord (accountId deps);
       ResolveAgentRoute (accountId deps) peerKind peerId;
       ResolveEnvelopeFormatOptions;
       FormatInboundEnvelope envelopeArgs;
       FinalizeInboundContext ctxArgs] ++
      match finalizeInboundContext (runtime deps) ctxArgs with
      | None => []
      | Some ctxPayload =>
          [CreateReplyDispatcherWithTyping replyTo;
           DispatchReplyFromConfig ctxPayload;
           MarkDispatchIdle]
      end.

End Handler.

Arguments WeChatInboundHandlerDeps : clear implicits.

End InboundSrc.

(** ** channel.ts: the outbound chunker *)

(** The chunker measures and cuts its text by UTF-16 code units, so a text
    is the list of its code units here. *)
Module Channel.

Abbreviation text := (list N) (only parsing).

Definition LF : N := 10%N.
Definition SPACE : N := 32%N.

(** The class [\s] of the pattern and of [trimStart]/[trimEnd]: the white
    space and line terminator code units of ECMAScript. *)
Definition isWhiteSpace (c : N) : bool :=
  ((9 <=? c) && (c <=? 13) || (c =? 32) || (c =? 160) || (c =? 5760)
   || (8192 <=? c) && (c <=? 8202) || (c =? 8232) || (c =? 8233)
   || (c =? 8239) || (c =? 8287) || (c =? 12288) || (c =? 65279))%N.

Fixpoint trimStart (s : text) : text :=
  match s with
  | [] => []
  | c :: s' => if isWhiteSpace c then trimStart s' else s
  end.

Fixpoint trimEnd (s : text) : text :=
  match s with
  | [] => []
  | c :: s' =>
      match trimEnd s' with
      | [] => if isWhiteSpace c then [] else [c]
      | t => c :: t
      end
  end.

(** [s.lastIndexOf(c)] for a one-unit [c]: scanning from index [i], with
    [found] the last index seen so far. *)
Fixpoint lastIndexOf_from (i : Z) (s : text) (c : N) (found : Z) : Z :=
  match s with
  | [] => found
  | x :: s' => lastIndexOf_from (i + 1) s' c (if (x =? c)%N then i else found)
  end.

Definition lastIndexOf (s : text) (c : N) : Z := lastIndexOf_from 0 s c (-1).

(** [s.slice(0, n)] and [s.slice(n)] for [0 <= n]. *)
Definition slice_to (s : text) (n : Z) : text := take (Z.to_nat n) s.
Definition slice_from (s : text) (n : Z) : text := drop (Z.to_nat n) s.

Definition len (s : text) : Z := Z.of_nat (length s).

(** One turn of the [while] loop: the chunk pushed, if any, and the new
    value of [remaining]. *)
Definition chunkStep (limit : Z) (remaining : text) : option text * text :=
  let window := slice_to remaining limit in
  let lastNewline := lastIndexOf window LF in
  let lastSpace := lastIndexOf window SPACE in
  let breakIdx0 := if lastNewline >? 0 then lastNewline else lastSpace in
  let breakIdx := if breakIdx0 <=? 0 then limit else breakIdx0 in
  let rawChunk := slice_to remaining breakIdx in
  let chunk := trimEnd rawChunk in
  let brokeOnSeparator :=
    (breakIdx <? len remaining)
    && match remaining !! Z.to_nat breakIdx with
       | Some c => isWhiteSpace c
       | None => false
       end in
  let nextStart :=
    Z.min (len remaining) (breakIdx + (if brokeOnSeparator then 1 else 0)) in
  (if 0 <? len chunk then Some chunk else None,
   trimStart (slice_from remaining nextStart)).

(** The [while (remaining.length > limit)] loop and the push after it;
    [fuel] bounds the number of turns ([None] when it runs out). *)
Fixpoint chunkLoop (fuel : nat) (limit : Z) (remaining : text)
    (chunks : list text) : option (list text) :=
  if len remaining >? limit then
    match fuel with
    | O => None
    | S fuel' =>
        let '(chunk, remaining') := chunkStep limit remaining in
        chunkLoop fuel' limit remaining'
          (match chunk with Some c => chunks ++ [c] | None => chunks end)
    end
  else
    Some (match remaining with [] => chunks | _ => chunks ++ [remaining] end).

(** [outbound.chunker(text, limit)]; every turn of the loop shortens
    [remaining], so the length of the text is fuel enough. *)
Definition chunker (t : text) (limit : Z) : option (list text) :=
  match t with
  | [] => Some []
  | _ =>
      if (limit <=? 0) || (len t <=? limit) then Some [t]
      else chunkLoop (length t) limit t []
  end.

(** *** Notions used in the statements *)

(** A text without white space. *)
Definition noWhiteSpace (t : text) : Prop :=
  Forall (fun c => isWhiteSpace c = false) t.

End Channel.

(** ** types.ts: the configuration *)

Module Config.

(** Account configuration, with the fields the sources read.  A field is
    [None] when the object has no such property. *)
Record WeChatAccountConfig : Type := {
  name : option string;
  enabled : option bool;
  baseUrl : option string;
  apiToken : option string;
  tokenFile : option string;
  robotId : option Z;
  dmPolicy : option Host.Policy;
  allowFrom : option (list string);
  requireMention : option bool;
  polling : option Types.WeChatPollingConfig
}.

(** The object [{}]. *)
Definition empty : WeChatAccountConfig :=
  {| name := None; enabled := None; baseUrl := None; apiToken := None;
     tokenFile := None; robotId := None; dmPolicy := None; allowFrom := None;
     requireMention := None; polling := None |}.

(** [WeChatConfig]: [base] holds the fields of the intersection with
    [WeChatAccountConfig]; [accounts] is the named sub-object, as the list
    of its properties in the order [Object.keys] enumerates them ([None]
    when it is absent). *)
Record WeChatConfig : Type := {
  base : WeChatAccountConfig;
  accounts : option (list (string * WeChatAccountConfig));
  defaultAccount : option string
}.

End Config.

(** ** accounts.ts *)

Module Accounts.
Import JS.

Definition DEFAULT_BASE_URL : string := "http://localhost:9000".
Definition DEFAULT_ROBOT_ID : Z := 1.

Record ResolvedWeChatAccount : Type := {
  accountId : string;
  name : option string;
  enabled : bool;
  baseUrl : string;
  apiToken : string;
  tokenSource : Token.WeChatTokenSource;
  robotId : Z;
  config : Config.WeChatAccountConfig;
  polling : option Types.WeChatPollingConfig
}.

(** [x !== false] *)
Definition notFalse (x : option bool) : bool :=
  match x with Some false => false | _ => true end.

(** [accounts[key]] *)
Definition property (accounts : list (string * Config.WeChatAccountConfig))
    (key : string) : option Config.WeChatAccountConfig :=
  snd <$> List.find (fun kv => String.eqb (fst kv) key) accounts.

(** A property of [{ ...base, ...account }]: the account's when it has
    one, the base's otherwise. *)
Definition over {A : Type} (account base : option A) : option A :=
  match account with Some v => Some v | None => base end.

Definition spread (base account : Config.WeChatAccountConfig)
  : Config.WeChatAccountConfig :=
  {| Config.name := over (Config.name account) (Config.name base);
     Config.enabled := over (Config.enabled account) (Config.enabled base);
     Config.baseUrl := over (Config.baseUrl account) (Config.baseUrl base);
     Config.apiToken := over (Config.apiToken account) (Config.apiToken base);
     Config.tokenFile :=
       over (Config.tokenFile account) (Config.tokenFile base);
     Config.robotId := over (Config.robotId account) (Config.robotId base);
     Config.dmPolicy := over (Config.dmPolicy account) (Config.dmPolicy base);
     Config.allowFrom :=
       over (Config.allowFrom account) (Config.allowFrom base);
     Config.requireMention :=
       over (Config.requireMention account) (Config.requireMention base);
     Config.polling := over (Config.polling account) (Config.polling base) |}.

(** The configuration as [resolveWeChatToken] reads it. *)
Definition tokenFields (a : Config.WeChatAccountConfig)
  : Token.WeChatAccountConfig :=
  {| Token.apiToken := Config.apiToken a;
     Token.tokenFile := Config.tokenFile a |}.

Definition tokenConfig (c : Config.WeChatConfig) : Token.WeChatConfig :=
  {| Token.base := tokenFields (Config.base c);
     Token.accounts :=
       list_to_map
         ((fun kv => (fst kv, tokenFields (snd kv)))
            <$> default [] (Config.accounts c)) |}.

Section Resolve.

(** [DEFAULT_ACCOUNT_ID] and [normalizeAccountId] are imported from the
    host SDK; [readFileSync] and [WECHAT_API_TOKEN] are those of
    [token.ts]; [localeCompare a b] is [a.localeCompare(b)].  A function
    that takes [cfg] in the source takes [cfg.channels?.wechat] here. *)
Variable DEFAULT_ACCOUNT_ID : string.
Variable normalizeAccountId : option string -> string.
Variable readFileSync : string -> option string.
Variable WECHAT_API_TOKEN : option string.
Variable localeCompare : string -> string -> Z.

(** [ids.sort((a, b) => a.localeCompare(b))]: the sort is stable; each
    element goes before the first one it compares below. *)
Fixpoint insertSorted (x : string) (sorted : list string) : list string :=
  match sorted with
  | [] => [x]
  | y :: rest =>
      if localeCompare x y <? 0 then x :: y :: rest
      else y :: insertSorted x rest
  end.

Definition Array_sort (ids : list string) : list string :=
  fold_left (fun sorted x => insertSorted x sorted) ids [].

Definition listConfiguredAccountIds (wechat : option Config.WeChatConfig)
  : list string :=
  match wechat ≫= Config.accounts with
  | None => []
  | Some accounts => List.filter truthy (fst <$> accounts)
  end.

Definition listWeChatAccountIds (wechat : option Config.WeChatConfig)
  : list string :=
  match listConfiguredAccountIds wechat with
  | [] => [DEFAULT_ACCOUNT_ID]
  | ids => Array_sort ids
  end.

Definition resolveDefaultWeChatAccountId (wechat : option Config.WeChatConfig)
  : string :=
  let defaultAccount := trim <$> (wechat ≫= Config.defaultAccount) in
  if truthy_opt defaultAccount then default "" defaultAccount
  else
    let ids := listWeChatAccountIds wechat in
    if Host.Array_includes ids DEFAULT_ACCOUNT_ID then DEFAULT_ACCOUNT_ID
    else default DEFAULT_ACCOUNT_ID (head ids).

Definition resolveAccountConfig (wechat : option Config.WeChatConfig)
    (accountId : string) : option Config.WeChatAccountConfig :=
  match wechat ≫= Config.accounts with
  | None => None
  | Some accounts => property accounts accountId
  end.

Definition mergeWeChatAccountConfig (wechat : option Config.WeChatConfig)
    (accountId : string) : Config.WeChatAccountConfig :=
  let base := default Config.empty (Config.base <$> wechat) in
  let account := default Config.empty (resolveAccountConfig wechat accountId) in
  spread base account.

Definition resolveWeChatAccount (wechat : option Config.WeChatConfig)
    (accountId : option string) : ResolvedWeChatAccount :=
  let accountId := normalizeAccountId accountId in
  let baseEnabled :=
    notFalse (wechat ≫= (fun c => Config.enabled (Config.base c))) in
  let merged := mergeWeChatAccountConfig wechat accountId in
  let accountEnabled := notFalse (Config.enabled merged) in
  let enabled := baseEnabled && accountEnabled in
  let tokenResolution :=
    Token.resolveWeChatToken DEFAULT_ACCOUNT_ID readFileSync WECHAT_API_TOKEN
      (tokenConfig <$> wechat) (Some accountId) in
  let name := trim <$> Config.name merged in
  let baseUrl := trim <$> Config.baseUrl merged in
  {| accountId := accountId;
     name := if truthy_opt name then name else None;
     enabled := enabled;
     baseUrl := if truthy_opt baseUrl then default "" baseUrl
                else DEFAULT_BASE_URL;
     apiToken := Token.token tokenResolution;
     tokenSource := Token.source tokenResolution;
     robotId := default DEFAULT_ROBOT_ID (Config.robotId merged);
     config := merged;
     polling := Config.polling merged |}.

Definition listEnabledWeChatAccounts (wechat : option Config.WeChatConfig)
  : list ResolvedWeChatAccount :=
  List.filter enabled
    ((fun accountId => resolveWeChatAccount wechat (Some accountId))
       <$> listWeChatAccountIds wechat).

End Resolve.

(** *** Notions used in the statements *)

(** [b] is not before [a] in the order of the comparison [compare]. *)
Definition inOrder (compare : string -> string -> Z) (a b : string) : Prop :=
  0 <= compare b a.

End Accounts.

(** ** actions.ts: the accounts that can send *)

Module Actions.
Import JS Accounts.

Definition hasToken (s : Token.WeChatTokenSource) : bool :=
  match s with Token.none => false | _ => true end.

Section Actions.

Variable DEFAULT_ACCOUNT_ID : string.
Variable normalizeAccountId : option string -> string.
Variable readFileSync : string -> option string.
Variable WECHAT_API_TOKEN : option string.
Variable localeCompare : string -> string -> Z.

Definition listEnabledAccounts (wechat : option Config.WeChatConfig)
  : list ResolvedWeChatAccount :=
  List.filter (fun account => enabled account && hasToken (tokenSource account))
    (listEnabledWeChatAccounts DEFAULT_ACCOUNT_ID normalizeAccountId
       readFileSync WECHAT_API_TOKEN localeCompare wechat).

(** [listActions({ cfg })]: the names of the actions on offer. *)
Definition listActions (wechat : option Config.WeChatConfig) : list string :=
  match listEnabledAccounts wechat with
  | [] => []
  | _ => ["send"]
  end.

End Actions.

End Actions.

(** ** send.ts *)

Module Send.
Import JS Api.

Record WeChatSendMessageResult : Type := {
  message_id : option string
}.

(** [cfg] is [None] when no configuration object is passed, and
    otherwise holds its [channels?.wechat]. *)
Record WeChatSendOptions : Type := {
  apiToken : option string;
  baseUrl : option string;
  robotId : option Z;
  accountId : option string;
  cfg : option (option Config.WeChatConfig);
  mediaUrl : option string;
  voiceFilePath : option string;
  at_ : option (list string)
}.

Record WeChatSendResult : Type := {
  ok : bool;
  messageId : option string;
  error : option string
}.

(** What [resolveSendContext] returns, and every API call receives. *)
Record SendContext : Type := {
  ctxBaseUrl : string;
  ctxApiToken : string;
  ctxRobotId : Z
}.

(** The calls [sendMessageWeChat] makes, in order. *)
Inductive SendCall : Type :=
| ReadFile (path : string)
| SendVoiceMessage (ctx : SendContext) (to_wxid voiceData filename : string)
| SendImageMessage (ctx : SendContext) (to_wxid image_url : string)
| SendTextMessage (ctx : SendContext) (to_wxid content : string)
    (at_ : option (list string)).

(** The answers of the environment: [readFile path] is the content of the
    file, or the text of the error when the read rejects; an API call
    answers an envelope, or throws. *)
Record SendEnv : Type := {
  readFile : string -> string + string;
  sendVoiceMessage :
    SendContext -> string -> string -> string ->
    Thrown + WeChatApiResponse WeChatSendMessageResult;
  sendImageMessage :
    SendContext -> string -> string ->
    Thrown + WeChatApiResponse WeChatSendMessageResult;
  sendTextMessage :
    SendContext -> string -> string -> option (list string) ->
    Thrown + WeChatApiResponse WeChatSendMessageResult
}.

(** [err instanceof Error ? err.message : String(err)] *)
Definition errorText (err : Thrown) : string :=
  match err with
  | WeChatApiError message _ _ => message
  | Rejected reason => reason
  end.

(** [path.split("/").pop()]: what follows the last slash. *)
Fixpoint lastSegment_from (segment path : string) : string :=
  match path with
  | EmptyString => segment
  | String c rest =>
      if Ascii.eqb c "/" then lastSegment_from "" rest
      else lastSegment_from (segment +:+ String c "") rest
  end.

Definition lastSegment (path : string) : string := lastSegment_from "" path.

Definition failed (message : string) : WeChatSendResult :=
  {| ok := false; messageId := None; error := Some message |}.

Definition sent (response : WeChatApiResponse WeChatSendMessageResult)
  : WeChatSendResult :=
  {| ok := true; messageId := data response ≫= message_id; error := None |}.

Section Send.

Variable DEFAULT_ACCOUNT_ID : string.
Variable normalizeAccountId : option string -> string.
Variable readFileSync : string -> option string.
Variable WECHAT_API_TOKEN : option string.

Definition resolveSendContext (options : WeChatSendOptions) : SendContext :=
  match cfg options with
  | Some wechat =>
      let account :=
        Accounts.resolveWeChatAccount DEFAULT_ACCOUNT_ID normalizeAccountId
          readFileSync WECHAT_API_TOKEN wechat (accountId options) in
      {| ctxBaseUrl := default (Accounts.baseUrl account) (baseUrl options);
         ctxApiToken := default (Accounts.apiToken account) (apiToken options);
         ctxRobotId := default (Accounts.robotId account) (robotId options) |}
  | None =>
      {| ctxBaseUrl := default "http://localhost:9000" (baseUrl options);
         ctxApiToken := default "" (apiToken options);
         ctxRobotId := default 1 (robotId options) |}
  end.

(** The text sent after a voice or image message, when there is one: the
    calls made and the result, given the response to the message sent
    first. *)
Definition thenText (env : SendEnv) (ctx : SendContext)
    (toWxid text : string) (options : WeChatSendOptions)
    (response : WeChatApiResponse WeChatSendMessageResult)
  : list SendCall * WeChatSendResult :=
  if truthy (trim text) then
    match sendTextMessage env ctx (trim toWxid) text (at_ options) with
    | inr _ =>
        ([SendTextMessage ctx (trim toWxid) text (at_ options)], sent response)
    | inl err =>
        ([SendTextMessage ctx (trim toWxid) text (at_ options)],
         failed (errorText err))
    end
  else ([], sent response).

(** [sendMessageWeChat(toWxid, text, options)]: the calls it makes, in
    order, and the result it resolves with. *)
Definition sendMessageWeChat (env : SendEnv) (toWxid text : string)
    (options : WeChatSendOptions) : list SendCall * WeChatSendResult :=
  let ctx := resolveSendContext options in
  if negb (truthy (ctxApiToken ctx)) then
    ([], failed "No WeChat API token configured")
  else if negb (truthy (trim toWxid)) then
    ([], failed "No to_wxid provided")
  else if truthy_opt (voiceFilePath options) then
    let path := default "" (voiceFilePath options) in
    match readFile env path with
    | inl message => ([ReadFile path], failed message)
    | inr voiceData =>
        let filename := lastSegment path in
        match sendVoiceMessage env ctx (trim toWxid) voiceData filename with
        | inl err =>
            ([ReadFile path;
              SendVoiceMessage ctx (trim toWxid) voiceData filename],
             failed (errorText err))
        | inr response =>
            let '(calls, result) :=
              thenText env ctx toWxid text options response in
            (ReadFile path
             :: SendVoiceMessage ctx (trim toWxid) voiceData filename
             :: calls, result)
        end
    end
  else if truthy_opt (mediaUrl options) then
    let image_url := default "" (mediaUrl options) in
    match sendImageMessage env ctx (trim toWxid) image_url with
    | inl err =>
        ([SendImageMessage ctx (trim toWxid) image_url],
         failed (errorText err))
    | inr response =>
        let '(calls, result) :=
          thenText env ctx toWxid text options response in
        (SendImageMessage ctx (trim toWxid) image_url :: calls, result)
    end
  else if negb (truthy (trim text)) then
    ([], failed "No message content provided")
  else
    match sendTextMessage env ctx (trim toWxid) text (at_ options) with
    | inl err =>
        ([SendTextMessage ctx (trim toWxid) text (at_ options)],
         failed (errorText err))
    | inr response =>
        ([SendTextMessage ctx (trim toWxid) text (at_ options)], sent response)
    end.

End Send.

(** *** Notions used in the statements *)

(** The calls to the backend among the calls made, and those that send a
    voice or an image message. *)
Definition isApiCall (c : SendCall) : bool :=
  match c with ReadFile _ => false | _ => true end.

Definition isVoice (c : SendCall) : bool :=
  match c with SendVoiceMessage _ _ _ _ => true | _ => false end.

Definition isImage (c : SendCall) : bool :=
  match c with SendImageMessage _ _ _ => true | _ => false end.

(** Whether the environment answers a call without throwing. *)
Definition answered (env : SendEnv) (c : SendCall) : bool :=
  match c with
  | ReadFile path =>
      match readFile env path with inr _ => true | inl _ => false end
  | SendVoiceMessage ctx to voiceData filename =>
      match sendVoiceMessage env ctx to voiceData filename with
      | inr _ => true | inl _ => false end
  | SendImageMessage ctx to image_url =>
      match sendImageMessage env ctx to image_url with
      | inr _ => true | inl _ => false end
  | SendTextMessage ctx to content at_ =>
      match sendTextMessage env ctx to content at_ with
      | inr _ => true | inl _ => false end
  end.

(** The recipient and the context of a call to the backend. *)
Definition recipient (c : SendCall) : option string :=
  match c with
  | ReadFile _ => None
  | SendVoiceMessage _ to _ _ | SendImageMessage _ to _
  | SendTextMessage _ to _ _ => Some to
  end.

Definition context (c : SendCall) : option SendContext :=
  match c with
  | ReadFile _ => None
  | SendVoiceMessage ctx _ _ _ | SendImageMessage ctx _ _
  | SendTextMessage ctx _ _ _ => Some ctx
  end.

(** The kind of a call. *)
Inductive CallKind : Type := File | Voice | Image | Text.

Definition callKind (c : SendCall) : CallKind :=
  match c with
  | ReadFile _ => File
  | SendVoiceMessage _ _ _ _ => Voice
  | SendImageMessage _ _ _ => Image
  | SendTextMessage _ _ _ _ => Text
  end.

End Send.

(** ** probe.ts *)

Module Probe.
Import JS Api.

Record WeChatRobotState : Type := {
  status : string
}.

Record WeChatProbeResult : Type := {
  ok : bool;
  robot : option WeChatRobotState;
  error : option string;
  elapsedMs : Z
}.

(** What the [catch] clause tells apart in a thrown value: a
    [WeChatApiError], another [Error] (with its name), anything else
    (with its [String(err)]). *)
Inductive Caught : Type :=
| CaughtApiError (message : string)
| CaughtError (name message : string)
| CaughtOther (text : string).

(** [probeWeChat(baseUrl, apiToken, robotId, timeoutMs)]: [startTime] and
    [endTime] are the two readings of [Date.now()], [answer] is what
    [getRobotState] resolves with or throws. *)
Definition probeWeChat (baseUrl apiToken : string) (robotId : Z)
    (timeoutMs : option Z) (startTime endTime : Z)
    (answer : Caught + WeChatApiResponse WeChatRobotState)
  : WeChatProbeResult :=
  let timeoutMs := default 5000 timeoutMs in
  if negb (truthy (trim apiToken)) then
    {| ok := false; robot := None; error := Some "No API token provided";
       elapsedMs := 0 |}
  else if negb (truthy (trim baseUrl)) then
    {| ok := false; robot := None; error := Some "No base URL provided";
       elapsedMs := 0 |}
  else
    let elapsedMs := endTime - startTime in
    match answer with
    | inr response =>
        match (if code response =? 200 then data response else None) with
        | Some robot =>
            if String.eqb (status robot) "online" then
              {| ok := true; robot := Some robot; error := None;
                 elapsedMs := elapsedMs |}
            else
              {| ok := false; robot := Some robot;
                 error := Some (if String.eqb (status robot) "offline"
                                then "Robot is offline"
                                else "Robot status unknown");
                 elapsedMs := elapsedMs |}
        | None =>
            {| ok := false; robot := None;
               error := Some "Invalid response from WeChat backend";
               elapsedMs := elapsedMs |}
        end
    | inl (CaughtApiError message) =>
        {| ok := false; robot := None; error := Some message;
           elapsedMs := elapsedMs |}
    | inl (CaughtError name message) =>
        {| ok := false; robot := None;
           error := Some (if String.eqb name "AbortError"
                          then "Request timed out after "
                               +:+ String_of_number timeoutMs +:+ "ms"
                          else message);
           elapsedMs := elapsedMs |}
    | inl (CaughtOther text) =>
        {| ok := false; robot := None; error := Some text;
           elapsedMs := elapsedMs |}
    end.

(** What the [catch] clause sees of a value thrown by [callApi], when a
    rejection of the transport is caught as [rejection]. *)
Definition caught (rejection : string -> Caught) (err : Thrown) : Caught :=
  match err with
  | WeChatApiError message _ _ => CaughtApiError message
  | Rejected reason => rejection reason
  end.

(** [getRobotState(options)] is [callApi("GET", "/api/v1/robot/state",
    options)]. *)
Definition getRobotState
    (JSON_stringify : WeChatApiResponse WeChatRobotState -> string)
    (rejection : string -> Caught) (answer : FetchResult WeChatRobotState)
  : Caught + WeChatApiResponse WeChatRobotState :=
  match callApi JSON_stringify "/api/v1/robot/state" answer with
  | inl err => inl (caught rejection err)
  | inr response => inr response
  end.

End Probe.

(** ** status-issues.ts *)

Module StatusIssues.
Import JS.

(** A value of type [unknown], as far as the collector tells values
    apart; a number is given by its [String(n)]. *)
Inductive JSValue : Type :=
| JSUndefined
| JSNull
| JSBoolean (b : bool)
| JSNumber (text : string)
| JSString (s : string)
| JSObject.

(** An entry of the snapshot list that is an object, with the properties
    the collector reads. *)
Record ChannelAccountSnapshot : Type := {
  accountId : JSValue;
  enabled : JSValue;
  configured : JSValue;
  dmPolicy : JSValue
}.

Record ChannelStatusIssue : Type := {
  channel : string;
  issueAccountId : string;
  kind : string;
  message : string;
  fix_ : string
}.

Definition asString (value : JSValue) : option string :=
  match value with
  | JSString s => Some s
  | JSNumber text => Some text
  | _ => None
  end.

Definition isFalse (value : JSValue) : bool :=
  match value with JSBoolean false => true | _ => false end.

Definition isTrue (value : JSValue) : bool :=
  match value with JSBoolean true => true | _ => false end.

Definition isOpen (value : JSValue) : bool :=
  match value with JSString s => String.eqb s "open" | _ => false end.

Definition openIssue (accountId : string) : ChannelStatusIssue :=
  {| channel := "wechat"; issueAccountId := accountId; kind := "config";
     message :=
       "WeChat dmPolicy is " +:+ String (ascii_of_nat 34) "open"
       +:+ String (ascii_of_nat 34)
             ", allowing any user to message the bot without pairing.";
     fix_ :=
       "Set channels.wechat.dmPolicy to " +:+ String (ascii_of_nat 34) "pairing"
       +:+ String (ascii_of_nat 34) " or "
       +:+ String (ascii_of_nat 34) "allowlist"
       +:+ String (ascii_of_nat 34) " to restrict access." |}.

(** [collectWeChatStatusIssues(accounts)]: an entry is [None] when it is
    not an object ([readWeChatAccountStatus] returns [null]). *)
Definition collectWeChatStatusIssues
    (accounts : list (option ChannelAccountSnapshot))
  : list ChannelStatusIssue :=
  fold_left
    (fun issues entry =>
       match entry with
       | None => issues
       | Some account =>
           let accountId := default "default" (asString (accountId account)) in
           let enabled := negb (isFalse (enabled account)) in
           let configured := isTrue (configured account) in
           if negb enabled || negb configured then issues
           else if isOpen (dmPolicy account)
                then issues ++ [openIssue accountId]
                else issues
       end)
    accounts [].

(** *** Notions used in the statements *)

(** Whether an entry of the snapshot list raises the issue. *)
Definition raises (entry : option ChannelAccountSnapshot) : bool :=
  match entry with
  | Some account =>
      negb (isFalse (enabled account)) && isTrue (configured account)
      && isOpen (dmPolicy account)
  | None => false
  end.

End StatusIssues.

(** ** channel.ts: targets, snapshots, directory, gateway *)

Module Plugin.
Import JS Host.

(** [raw.replace(/^(wechat|wx|group):/i, "")] *)
Definition stripTargetPrefix (raw : string) : string :=
  match strip_prefix_ci "wechat:" raw with
  | Some rest => rest
  | None =>
      match strip_prefix_ci "wx:" raw with
      | Some rest => rest
      | None =>
          match strip_prefix_ci "group:" raw with
          | Some rest => rest
          | None => raw
          end
      end
  end.

Definition normalizeWeChatMessagingTarget (raw : string) : option string :=
  let trimmed := trim raw in
  if negb (truthy trimmed) then None else Some (stripTargetPrefix trimmed).

(** [config.isConfigured(account)] *)
Definition isConfigured (account : Accounts.ResolvedWeChatAccount) : bool :=
  truthy (trim (Accounts.apiToken account))
  && truthy (trim (Accounts.baseUrl account)).

(** The runtime state of an account, as the host keeps it. *)
Record RuntimeStatus : Type := {
  running : option bool;
  lastStartAt : option string;
  lastStopAt : option string;
  lastError : option string;
  lastInboundAt : option string;
  lastOutboundAt : option string
}.

Record ChannelAccountSnapshot : Type := {
  snapAccountId : string;
  snapName : option string;
  snapEnabled : bool;
  snapConfigured : bool;
  snapTokenSource : Token.WeChatTokenSource;
  snapBaseUrl : string;
  snapRunning : bool;
  snapLastStartAt : option string;
  snapLastStopAt : option string;
  snapLastError : option string;
  snapLastInboundAt : option string;
  snapLastOutboundAt : option string;
  snapDmPolicy : Policy
}.

(** [status.buildAccountSnapshot({ account, runtime })] *)
Definition buildAccountSnapshot (account : Accounts.ResolvedWeChatAccount)
    (runtime : option RuntimeStatus) : ChannelAccountSnapshot :=
  let configured :=
    truthy (trim (Accounts.apiToken account))
    && truthy (trim (Accounts.baseUrl account)) in
  {| snapAccountId := Accounts.accountId account;
     snapName := Accounts.name account;
     snapEnabled := Accounts.enabled account;
     snapConfigured := configured;
     snapTokenSource := Accounts.tokenSource account;
     snapBaseUrl := Accounts.baseUrl account;
     snapRunning := default false (runtime ≫= running);
     snapLastStartAt := runtime ≫= lastStartAt;
     snapLastStopAt := runtime ≫= lastStopAt;
     snapLastError := runtime ≫= lastError;
     snapLastInboundAt := runtime ≫= lastInboundAt;
     snapLastOutboundAt := runtime ≫= lastOutboundAt;
     snapDmPolicy :=
       default pairing (Config.dmPolicy (Accounts.config account)) |}.

(** The [configured] of [config.describeAccount(account)]. *)
Definition describedConfigured (account : Accounts.ResolvedWeChatAccount)
  : bool :=
  truthy (trim (Accounts.apiToken account)).

(** *** The directory *)

Record WeChatContact : Type := {
  wechat_id : option string;
  nickname : option string
}.

Inductive PeerKind : Type := user | group.

Record DirectoryEntry : Type := {
  kind : PeerKind;
  entryId : option string;
  entryName : option string
}.

Section Directory.

(** [String.prototype.toLowerCase], on any text. *)
Variable toLowerCase : string -> string.

(** [query?.trim().toLowerCase() || ""] *)
Definition queryText (query : option string) : string :=
  match query with
  | Some q => toLowerCase (trim q)
  | None => ""
  end.

(** [field?.toLowerCase().includes(q)] *)
Definition fieldIncludes (field : option string) (q : string) : bool :=
  match field with
  | Some text => includes (toLowerCase text) q
  | None => false
  end.

(** [list.slice(0, limit && limit > 0 ? limit : undefined)] *)
Definition sliceLimit {A : Type} (limit : option Z) (l : list A) : list A :=
  match limit with
  | Some n => if 0 <? n then take (Z.to_nat n) l else l
  | None => l
  end.

(** [directory.listPeers]: [answer] is what [getContactList(..., "friend")]
    resolves with or throws. *)
Definition listPeers (account : Accounts.ResolvedWeChatAccount)
    (answer : Api.Thrown + Api.WeChatApiResponse (list WeChatContact))
    (query : option string) (limit : option Z) : list DirectoryEntry :=
  if negb (truthy (Accounts.apiToken account)) then []
  else
    match answer with
    | inl _ => []
    | inr response =>
        let contacts := default [] (Api.data response) in
        let q := queryText query in
        (fun c => {| kind := user; entryId := wechat_id c;
                     entryName := nickname c |})
          <$> sliceLimit limit
                (List.filter
                   (fun c => negb (truthy q) || fieldIncludes (nickname c) q
                             || fieldIncludes (wechat_id c) q)
                   contacts)
    end.

(** [directory.listGroups]: [answer] is that of [getChatRoomList]. *)
Definition listGroups (account : Accounts.ResolvedWeChatAccount)
    (answer : Api.Thrown + Api.WeChatApiResponse (list WeChatContact))
    (query : option string) (limit : option Z) : list DirectoryEntry :=
  if negb (truthy (Accounts.apiToken account)) then []
  else
    match answer with
    | inl _ => []
    | inr response =>
        let rooms := default [] (Api.data response) in
        let q := queryText query in
        (fun r => {| kind := group; entryId := wechat_id r;
                     entryName := nickname r |})
          <$> sliceLimit limit
                (List.filter
                   (fun r => negb (truthy q) || fieldIncludes (nickname r) q)
                   rooms)
    end.

End Directory.

(** *** The gateway *)

(** What [gateway.startAccount] comes to: it returns [null] without
    starting anything, it throws, or it returns the started poller. *)
Inductive StartOutcome : Type :=
| NotPolling
| Throws (message : string)
| Started (poller : Polling.WeChatMessagePoller).

(** [!pollingConfig?.pollContactIds?.length &&
    !pollingConfig?.pollAllContacts] *)
Definition noPollingConfigured
    (pollingConfig : option Types.WeChatPollingConfig) : bool :=
  negb match pollingConfig ≫= Types.pollContactIds with
       | Some (_ :: _) => true
       | _ => false
       end
  && negb (default false (pollingConfig ≫= Types.pollAllContacts)).

(** [gateway.startAccount(ctx)]: [runtimeSet] tells whether the plugin
    runtime was registered ([getWeChatRuntime] throws otherwise);
    [aborted], [robotInfo], [now] and [dir] are the answers [start()]
    gets; [status] is what [getStatus()] returns and [nowIso] the
    [new Date().toISOString()] of the update.  The result is the outcome
    and the status the host is left with. *)
Definition startAccount (account : Accounts.ResolvedWeChatAccount)
    (runtimeSet : bool) (aborted : bool)
    (robotInfo : option (option string * option string)) (now : Z)
    (dir : Polling.Directory) (status : RuntimeStatus) (nowIso : string)
  : StartOutcome * RuntimeStatus :=
  let pollingConfig :=
    match Accounts.polling account with
    | Some c => Some c
    | None => Config.polling (Accounts.config account)
    end in
  if noPollingConfigured pollingConfig then (NotPolling, status)
  else if negb (truthy (Accounts.apiToken account)) then
    (Throws "WeChat API token not configured", status)
  else if negb runtimeSet then
    (Throws "WeChat runtime not initialized", status)
  else
    let poller :=
      Polling.start (Polling.createWeChatPoller pollingConfig) aborted
        robotInfo now dir in
    (Started poller,
     {| running := Some true; lastStartAt := Some nowIso;
        lastStopAt := lastStopAt status; lastError := None;
        lastInboundAt := lastInboundAt status;
        lastOutboundAt := lastOutboundAt status |}).

End Plugin.

(** ** inbound.ts: the delivery of a reply *)

Module Reply.
Import JS.

Record ReplyPayload : Type := {
  text : option string;
  body : option string;
  mediaUrl : option string
}.

(** What the [deliver] callback of the reply dispatcher does: it logs a
    preview of the text and calls [sendMessageWeChat]. *)
Inductive DeliverCall : Type :=
| LogPreview (text : string)
| SendMessageWeChat (toWxid text baseUrl apiToken : string) (robotId : Z).

(** The [deliver] callback both versions of the handler pass to
    [createReplyDispatcherWithTyping]. *)
Definition deliver (replyTo baseUrl apiToken : string) (robotId : Z)
    (payload : ReplyPayload) : list DeliverCall :=
  let text :=
    match text payload with
    | Some t => t
    | None => default "" (body payload)
    end in
  if negb (truthy (trim text)) then []
  else [LogPreview text;
        SendMessageWeChat replyTo text baseUrl apiToken robotId].

Section Performed.

Variable DEFAULT_ACCOUNT_ID : string.
Variable normalizeAccountId : option string -> string.
Variable readFileSync : string -> option string.
Variable WECHAT_API_TOKEN : option string.

(** What a call of the callback does at the backend: the calls of
    [sendMessageWeChat] with the options the callback passes. *)
Definition performed (env : Send.SendEnv) (call : DeliverCall)
  : list Send.SendCall :=
  match call with
  | LogPreview _ => []
  | SendMessageWeChat toWxid text baseUrl apiToken robotId =>
      fst (Send.sendMessageWeChat DEFAULT_ACCOUNT_ID normalizeAccountId
             readFileSync WECHAT_API_TOKEN env toWxid text
             {| Send.apiToken := Some apiToken; Send.baseUrl := Some baseUrl;
                Send.robotId := Some robotId; Send.accountId := None;
                Send.cfg := None; Send.mediaUrl := None;
                Send.voiceFilePath := None; Send.at_ := None |})
  end.

End Performed.

End Reply.

(** ** Notions used in the further statements *)

Module Notions.
Import JS Types Polling.

(** The code units of a text that are not white space, in order. *)
Definition inked (t : list N) : list N :=
  List.filter (fun c => negb (Channel.isWhiteSpace c)) t.

(** A message of type text that is not recalled and whose sender is not
    the robot [robotWxid]. *)
Definition fromSomeoneElse (robotWxid : option string)
    (m : WeChatInboundMessage) : bool :=
  (messageType m =? 1) && negb (isRecalled m)
  && negb match robotWxid with
          | Some w => truthy w && String.eqb (senderWxid m) w
          | None => false
          end.

(** A call that writes to the console. *)
Definition isConsoleLog {E Ctx} (c : Host.HostCall E Ctx) : bool :=
  match c with Host.ConsoleLog _ => true | _ => false end.

(** The sender is on the allow-list, as the handler tests it. *)
Definition listed (toLowerCase : string -> string)
    (allowFrom : option (list string)) (msg : WeChatInboundMessage) : bool :=
  Host.Array_includes
    (Host.normalizeEntry toLowerCase <$> default [] allowFrom)
    (toLowerCase (senderWxid msg)).

(** The message is not stopped by the mention filter. *)
Definition passesMention (requireMention : option bool)
    (msg : WeChatInboundMessage) : bool :=
  negb (Host.isGroup (chatType msg) && default true requireMention
        && negb (isAtMe msg)).

(** The policies under which only listed senders are served. *)
Definition restricted (p : Host.Policy) : bool :=
  match p with Host.allowlist | Host.disabled => true | _ => false end.

(** The policy the handler applies to a message. *)
Definition effectivePolicy (dmPolicy groupPolicy : option Host.Policy)
    (msg : WeChatInboundMessage) : Host.Policy :=
  if Host.isGroup (chatType msg) then default Host.open groupPolicy
  else default Host.pairing dmPolicy.

(** The calls other than those to the console. *)
Definition quiet {E Ctx} (calls : list (Host.HostCall E Ctx))
  : list (Host.HostCall E Ctx) :=
  List.filter (fun c => negb (isConsoleLog c)) calls.

(** The id the handler replies to. *)
Definition replyTarget (msg : WeChatInboundMessage) : string :=
  if Host.isGroup (chatType msg) then chatId msg else senderWxid msg.

(** The dependencies of the handler with other policies. *)
Definition withPolicies {Cfg E Ctx}
    (deps : Inbound.WeChatInboundHandlerDeps Cfg E Ctx)
    (dm grp : option Host.Policy)
  : Inbound.WeChatInboundHandlerDeps Cfg E Ctx :=
  {| Inbound.cfg := Inbound.cfg deps; Inbound.runtime := Inbound.runtime deps;
     Inbound.accountId := Inbound.accountId deps;
     Inbound.baseUrl := Inbound.baseUrl deps;
     Inbound.apiToken := Inbound.apiToken deps;
     Inbound.robotId := Inbound.robotId deps;
     Inbound.allowFrom := Inbound.allowFrom deps;
     Inbound.dmPolicy := dm; Inbound.groupPolicy := grp;
     Inbound.commandAllowFrom := Inbound.commandAllowFrom deps;
     Inbound.safetyPrefix := Inbound.safetyPrefix deps;
     Inbound.requireMention := Inbound.requireMention deps |}.

Definition withPolicy {Cfg E Ctx}
    (deps : InboundSrc.WeChatInboundHandlerDeps Cfg E Ctx)
    (dm : option Host.Policy)
  : InboundSrc.WeChatInboundHandlerDeps Cfg E Ctx :=
  {| InboundSrc.cfg := InboundSrc.cfg deps;
     InboundSrc.runtime := InboundSrc.runtime deps;
     InboundSrc.accountId := InboundSrc.accountId deps;
     InboundSrc.baseUrl := InboundSrc.baseUrl deps;
     InboundSrc.apiToken := InboundSrc.apiToken deps;
     InboundSrc.robotId := InboundSrc.robotId deps;
     InboundSrc.allowFrom := InboundSrc.allowFrom deps;
     InboundSrc.dmPolicy := dm;
     InboundSrc.requireMention := InboundSrc.requireMention deps |}.

(** The three signs of a mention the poller looks for in an item. *)
Definition mentioned (robotNickname : option string)
    (item : WeChatChatHistoryItem) : bool :=
  is_atme item
  || includes (default "" (display_full_content item)) AT_YOU_MARKER
  || match robotNickname with
     | Some nick =>
         truthy nick && truthy (content item)
         && includes (content item) ("@" +:+ nick)
     | None => false
     end.

(** The contacts of a directory answer, and the entry made of one. *)
Definition answeredContacts
    (answer : Api.Thrown + Api.WeChatApiResponse (list Plugin.WeChatContact))
  : list Plugin.WeChatContact :=
  match answer with
  | inr response => default [] (Api.data response)
  | inl _ => []
  end.

Definition entryOf (k : Plugin.PeerKind) (c : Plugin.WeChatContact)
  : Plugin.DirectoryEntry :=
  {| Plugin.kind := k; Plugin.entryId := Plugin.wechat_id c;
     Plugin.entryName := Plugin.nickname c |}.

(** A resolution is either the empty token without a source, or a token
    that is not empty and has no white space around it. *)
Definition settled (r : Token.WeChatTokenResolution) : Prop :=
  Token.source r = Token.none /\ Token.token r = "" \/
  Token.source r <> Token.none /\ Token.token r <> "" /\
  bare (Token.token r).

End Notions.


(** * Scenarios *)

(** Data of the scenarios the statements below are tried on. *)
Module Scenario.
Import JS Types Polling.

(** A text message from a user, with message id [m], created at [t]. *)
Definition textItem (m t : Z) : WeChatChatHistoryItem :=
  {| msg_id := m; is_chat_room := false; is_atme := false;
     is_recalled := false; type := 1; content := "hello";
     display_full_content := None; message_source := Some "user";
     sender_wxid := "wxid_alice"; to_wxid := "wxid_bot";
     attachment_url := None; created_at := t; sender_nickname := None |}.

Definition explicitContacts (ids : list string) : WeChatPollingConfig :=
  {| pollingIntervalMs := None; pollContactIds := Some ids;
     pollAllContacts := None; maxPollContacts := None |}.

Definition allContacts (maxContacts : Z) : WeChatPollingConfig :=
  {| pollingIntervalMs := None; pollContactIds := None;
     pollAllContacts := Some true; maxPollContacts := Some maxContacts |}.

Definition noDirectory : Directory := {| friends := None; rooms := None |}.

Definition friendsOnly (ids : list string) : Directory :=
  {| friends := Some ids; rooms := Some [] |}.

(** A cycle in which nobody stops the poller, the callback resolves, and
    the backend answers [history]. *)
Definition quietCycle (dir : Directory)
    (history : string -> option (list WeChatChatHistoryItem)) : CycleEnv :=
  {| directory := dir; stopRequested := fun _ => false;
     getChatHistory := fun _ => history; onMessage := fun _ => true |}.

(** [n] further contacts, and a page of twenty old messages. *)
Definition crowd (n : nat) : list string :=
  (fun i => "friend" +:+ decimal (Z.of_nat i)) <$> seq 0 n.

Definition oldPage : list WeChatChatHistoryItem :=
  (fun i => textItem (Z.of_nat i) 10) <$> seq 1 20.




(** A poller started at time 50 for all friends, at most 1000, when the
    friend list holds a crowd of 760. *)
Definition crowdedPoller : WeChatMessagePoller :=
  start (createWeChatPoller (Some (allContacts 1000))) false None 50
    (friendsOnly (crowd 760)).





(** The two cycles of the crowded poller: every friend answers an old
    page; then the friend list cannot be fetched. *)
Definition crowdedCycle1 : CycleEnv :=
  quietCycle (friendsOnly (crowd 760)) (fun _ => Some oldPage).

Definition crowdedCycle2 : CycleEnv :=
  quietCycle noDirectory (fun _ => Some oldPage).

(** A running poller for contact [wxid_alice] whose cursor is [t]. *)
Definition aliceAt (t : Z) : WeChatMessagePoller :=
  start (createWeChatPoller (Some (explicitContacts ["wxid_alice"])))
    false None t noDirectory.

End Scenario.

(** A host for the scenarios: its pairing reply is [reply], it routes to
    a fixed session and accepts every context. *)
Module HostScenario.
Import JS Polling Host.

(** [toLowerCase] on a text of ASCII characters, as the ids of the
    scenarios are. *)
Fixpoint lowerCase (s : string) : string :=
  match s with
  | EmptyString => EmptyString
  | String c s' => String (lower_ascii c) (lowerCase s')
  end.

Definition hostReplying (reply : option string)
  : PluginRuntime unit unit InboundContext :=
  {| buildPairingReply := fun _ _ _ => reply;
     resolveAgentRoute := fun _ accountId _ _ =>
       {| sessionKey := "session"; routeAccountId := accountId |};
     resolveEnvelopeFormatOptions := fun _ => tt;
     formatInboundEnvelope := fun args => envBody args;
     finalizeInboundContext := fun ctx => Some ctx |}.

(** A message of [wxid_carol], direct or in the group [42@chatroom]. *)
Definition fromCarol (t : Polling.ChatType) (atMe : bool)
  : WeChatInboundMessage :=
  {| id := "wxid_carol:7"; msgId := 7;
     from := if isGroup t then "42@chatroom" else "wxid_carol";
     senderWxid := "wxid_carol"; senderNickname := Some "Carol";
     toWxid := "wxid_bot"; body := "hello"; timestamp := 1700000000000;
     chatType := t;
     chatId := if isGroup t then "42@chatroom" else "wxid_carol";
     isAtMe := atMe; isRecalled := false; messageType := 1;
     attachmentUrl := None |}.

Definition deps (reply : option string) (allow : option (list string))
    (dm grp : option Policy) (mention : option bool)
  : Inbound.WeChatInboundHandlerDeps unit unit InboundContext :=
  {| Inbound.cfg := tt; Inbound.runtime := hostReplying reply;
     Inbound.accountId := "default"; Inbound.baseUrl := "http://localhost:9000";
     Inbound.apiToken := "secret"; Inbound.robotId := 1;
     Inbound.allowFrom := allow; Inbound.dmPolicy := dm;
     Inbound.groupPolicy := grp; Inbound.commandAllowFrom := None;
     Inbound.safetyPrefix := None; Inbound.requireMention := mention |}.

Definition depsSrc (reply : option string) (allow : option (list string))
    (dm : option Policy) (mention : option bool)
  : InboundSrc.WeChatInboundHandlerDeps unit unit InboundContext :=
  {| InboundSrc.cfg := tt; InboundSrc.runtime := hostReplying reply;
     InboundSrc.accountId := "default";
     InboundSrc.baseUrl := "http://localhost:9000";
     InboundSrc.apiToken := "secret"; InboundSrc.robotId := 1;
     InboundSrc.allowFrom := allow; InboundSrc.dmPolicy := dm;
     InboundSrc.requireMention := mention |}.

End HostScenario.


(** * Properties *)

(** ** The built-ins *)

Module JSProps.
Import JS.

(** *** Truthiness *)

Lemma truthy_true s : truthy s = true <-> s <> "".
Proof. destruct s; cbn; split; congruence. Qed.

Lemma truthy_false s : truthy s = false <-> s = "".
Proof. destruct s; cbn; split; congruence. Qed.

(** *** Strings *)

Lemma append_cons c a b : String c a +:+ b = String c (a +:+ b).
Proof. reflexivity. Qed.

Lemma append_nil_r s : s +:+ "" = s.
Proof.
  induction s as [| c s IH]; [reflexivity |]. now rewrite append_cons, IH.
Qed.

Lemma append_assoc a b c : (a +:+ b) +:+ c = a +:+ (b +:+ c).
Proof.
  induction a as [| x a IH]; [reflexivity |]. now rewrite !append_cons, IH.
Qed.

Lemma append_length a b :
  String.length (a +:+ b) = (String.length a + String.length b)%nat.
Proof.
  induction a as [| x a IH]; [reflexivity |].
  rewrite append_cons. cbn [String.length]. now rewrite IH.
Qed.

Lemma append_nil a b : a +:+ b = "" -> a = "" /\ b = "".
Proof. destruct a; [now split | discriminate]. Qed.

(** *** White space *)

Lemma whiteSpaceCharacters_list :
  whiteSpaceCharacters =
    ltac:(let l := eval vm_compute in whiteSpaceCharacters in exact l).
Proof. reflexivity. Qed.

Ltac each_character H :=
  rewrite whiteSpaceCharacters_list in H;
  repeat (apply elem_of_cons in H as [-> | H]);
  [.. | now apply elem_of_nil in H].

Lemma character_not_empty w : w ∈ whiteSpaceCharacters -> w <> "".
Proof. intros H. each_character H; discriminate. Qed.

Lemma width_of_character w s :
  w ∈ whiteSpaceCharacters -> whiteSpaceWidth (w +:+ s) = String.length w.
Proof. intros H. each_character H; reflexivity. Qed.

Lemma trimStart_character w s :
  w ∈ whiteSpaceCharacters -> trimStart (w +:+ s) = trimStart s.
Proof. intros H. each_character H; reflexivity. Qed.

Lemma ascii_of_code a n : N_of_ascii a = n -> a = ascii_of_N n.
Proof. intros <-. now rewrite ascii_N_embedding. Qed.

Lemma isWhiteSpace_code c :
  isWhiteSpace c = true ->
  (c = 9 \/ c = 10 \/ c = 11 \/ c = 12 \/ c = 13 \/ c = 32 \/ c = 160
   \/ c = 5760 \/ (8192 <= c <= 8202) \/ c = 8232 \/ c = 8233 \/ c = 8239
   \/ c = 8287 \/ c = 12288 \/ c = 65279)%N.
Proof.
  unfold isWhiteSpace.
  repeat rewrite ?orb_true_iff, ?andb_true_iff, ?N.leb_le, ?N.eqb_eq. lia.
Qed.

Lemma three_bytes x y z :
  (224 <= x < 240)%N -> (128 <= y < 192)%N -> (128 <= z < 192)%N ->
  (2048 <= (x - 224) * 4096 + (y - 128) * 64 + (z - 128))%N ->
  isWhiteSpace ((x - 224) * 4096 + (y - 128) * 64 + (z - 128)) = true ->
  (x = 225 /\ y = 154 /\ z = 128
   \/ x = 226 /\ y = 128
      /\ (z = 128 \/ z = 129 \/ z = 130 \/ z = 131 \/ z = 132 \/ z = 133
          \/ z = 134 \/ z = 135 \/ z = 136 \/ z = 137 \/ z = 138
          \/ z = 168 \/ z = 169 \/ z = 175)
   \/ x = 226 /\ y = 129 /\ z = 159
   \/ x = 227 /\ y = 128 /\ z = 128
   \/ x = 239 /\ y = 187 /\ z = 191)%N.
Proof.
  intros Hx Hy Hz Hmin Hw. apply isWhiteSpace_code in Hw.
  assert (E : exists X Y Z, (x = 224 + X /\ y = 128 + Y /\ z = 128 + Z
                             /\ X < 16 /\ Y < 64 /\ Z < 64)%N).
  { exists (x - 224)%N, (y - 128)%N, (z - 128)%N. lia. }
  destruct E as (X & Y & Z & -> & -> & -> & HX & HY & HZ).
  replace (224 + X - 224)%N with X in * by lia.
  replace (128 + Y - 128)%N with Y in * by lia.
  replace (128 + Z - 128)%N with Z in * by lia.
  destruct Hw as [H | [H | [H | [H | [H | [H | [H | [H | [H | [H | [H | [H
                 | [H | [H | H]]]]]]]]]]]]]]; try lia.
Qed.

(** A string that starts with white space, as [whiteSpaceWidth] decides
    it, starts with one of the white space characters. *)
Lemma width_positive s :
  whiteSpaceWidth s <> 0%nat ->
  exists w r, w ∈ whiteSpaceCharacters /\ s = w +:+ r.
Proof.
  unfold whiteSpaceWidth, codePointAt0, continuation.
  rewrite whiteSpaceCharacters_list.
  destruct s as [| a r1]; [contradiction |].
  destruct (N_of_ascii a <? 128)%N eqn:Ha.
  { destruct (isWhiteSpace (N_of_ascii a)) eqn:Hw; [| contradiction].
    intros _. apply N.ltb_lt in Ha. apply isWhiteSpace_code in Hw.
    exists (String a ""), r1. split; [| reflexivity].
    assert (H : (N_of_ascii a = 9 \/ N_of_ascii a = 10 \/ N_of_ascii a = 11
                 \/ N_of_ascii a = 12 \/ N_of_ascii a = 13
                 \/ N_of_ascii a = 32)%N) by lia.
    repeat destruct H as [H | H]; apply ascii_of_code in H; subst a;
      apply list_elem_of_In; cbn; tauto. }
  destruct r1 as [| b r2]; [contradiction |].
  destruct (128 <=? N_of_ascii b)%N eqn:Hb1; cbn [andb negb];
    [| contradiction].
  destruct (N_of_ascii b <? 192)%N eqn:Hb2; cbn [andb negb];
    [| contradiction].
  apply N.ltb_ge in Ha. apply N.leb_le in Hb1. apply N.ltb_lt in Hb2.
  destruct (194 <=? N_of_ascii a)%N eqn:Ha1; cbn [andb].
  - destruct (N_of_ascii a <? 224)%N eqn:Ha2; cbn [andb].
    + destruct (isWhiteSpace _) eqn:Hw; [| contradiction]. intros _.
      apply isWhiteSpace_code in Hw.
      apply N.leb_le in Ha1. apply N.ltb_lt in Ha2.
      assert (H : (N_of_ascii a = 194 /\ N_of_ascii b = 160)%N) by lia.
      destruct H as [H1 H2].
      apply ascii_of_code in H1, H2. subst a b.
      exists (utf8 [194; 160]%nat), r2.
      split; [apply list_elem_of_In; cbn; tauto | reflexivity].
    + destruct r2 as [| c r3]; [contradiction |].
      destruct (128 <=? N_of_ascii c)%N eqn:Hc1; cbn [andb negb];
        [| contradiction].
      destruct (N_of_ascii c <? 192)%N eqn:Hc2; cbn [andb negb];
        [| contradiction].
      apply N.leb_le in Ha1, Hc1. apply N.ltb_ge in Ha2.
      apply N.ltb_lt in Hc2.
      destruct (224 <=? N_of_ascii a)%N eqn:Ha3; cbn [andb];
        [| apply N.leb_gt in Ha3; lia].
      destruct (N_of_ascii a <? 240)%N eqn:Ha4; cbn [andb].
      * destruct (2048 <=? _)%N eqn:Hmin; [| contradiction].
        destruct (isWhiteSpace _) eqn:Hw; [| contradiction]. intros _.
        apply N.ltb_lt in Ha4. apply N.leb_le in Hmin.
        pose proof Ha2 as Ha3'. pose proof Hb1 as Hc0.
        destruct (three_bytes _ _ _ (conj Ha3' Ha4) (conj Hc0 Hb2)
                    (conj Hc1 Hc2) Hmin Hw)
          as [(H1 & H2 & H3) | [(H1 & H2 & H3) | [(H1 & H2 & H3)
             | [(H1 & H2 & H3) | (H1 & H2 & H3)]]]];
          exists (String a (String b (String c ""))), r3;
          (split; [| reflexivity]);
          apply ascii_of_code in H1, H2; subst a b.
        -- apply ascii_of_code in H3; subst c.
           apply list_elem_of_In; cbn; tauto.
        -- repeat destruct H3 as [H3 | H3]; apply ascii_of_code in H3;
             subst c; apply list_elem_of_In; cbn; tauto.
        -- apply ascii_of_code in H3; subst c.
           apply list_elem_of_In; cbn; tauto.
        -- apply ascii_of_code in H3; subst c.
           apply list_elem_of_In; cbn; tauto.
        -- apply ascii_of_code in H3; subst c.
           apply list_elem_of_In; cbn; tauto.
      * destruct r3 as [| d r4]; [contradiction |].
        destruct (_ && _ && _ && _) eqn:Hd; [| contradiction].
        apply andb_true_iff in Hd as [Hd _].
        apply andb_true_iff in Hd as [_ Hd]. apply N.leb_le in Hd.
        destruct (isWhiteSpace _) eqn:Hw; [| contradiction].
        apply isWhiteSpace_code in Hw. lia.
  - apply N.leb_gt in Ha1.
    destruct r2 as [| c r3]; [contradiction |].
    destruct (negb _); [contradiction |].
    destruct (224 <=? N_of_ascii a)%N eqn:Ha3; [apply N.leb_le in Ha3; lia |].
    cbn [andb].
    destruct r3 as [| d r4]; [contradiction |].
    destruct (240 <=? N_of_ascii a)%N eqn:Ha5; [apply N.leb_le in Ha5; lia |].
    rewrite andb_false_r. cbn [andb]. contradiction.
Qed.

Lemma width_zero s w r :
  whiteSpaceWidth s = 0%nat -> w ∈ whiteSpaceCharacters -> s <> w +:+ r.
Proof.
  intros H Hw ->. rewrite width_of_character in H by assumption.
  apply character_not_empty in Hw. now destruct w.
Qed.

Lemma trimStart_kept s : whiteSpaceWidth s = 0%nat -> trimStart s = s.
Proof. intros H. destruct s as [| c s]; [reflexivity |]. cbn. now rewrite H. Qed.

Lemma blank_app a b : blank a -> blank b -> blank (a +:+ b).
Proof.
  induction 1 as [| w s Hw Hs IH]; intros Hb; [exact Hb |].
  rewrite append_assoc. constructor; auto.
Qed.

Lemma blank_character w : w ∈ whiteSpaceCharacters -> blank w.
Proof.
  intros H. rewrite <- (append_nil_r w). constructor; [exact H | constructor].
Qed.

(** A text of white space that is not empty ends with a white space
    character. *)
Lemma blank_last r :
  blank r -> r = "" \/ exists x w, w ∈ whiteSpaceCharacters /\ r = x +:+ w.
Proof.
  induction 1 as [| w s Hw Hs IH]; [now left |]. right.
  destruct IH as [-> | (x & w' & Hw' & ->)].
  - exists "", w. now rewrite append_nil_r.
  - exists (w +:+ x), w'. now rewrite append_assoc.
Qed.

Lemma blank_trimStart s : blank s -> trimStart s = "".
Proof.
  induction 1 as [| w s Hw Hs IH]; [reflexivity |].
  now rewrite trimStart_character.
Qed.

(** [trimStart] removes white space, all there is at the start. *)
Lemma trimStart_split s :
  exists l, blank l /\ s = l +:+ trimStart s /\
            whiteSpaceWidth (trimStart s) = 0%nat.
Proof.
  remember (String.length s) as n eqn:Hn.
  revert s Hn. induction n as [n IH] using lt_wf_ind. intros s Hn.
  destruct (Nat.eq_dec (whiteSpaceWidth s) 0%nat) as [E | E].
  - exists "". rewrite trimStart_kept by assumption.
    repeat split; [constructor | assumption].
  - destruct (width_positive s E) as (w & r & Hw & ->).
    rewrite trimStart_character by assumption.
    destruct (IH (String.length r)) with (s := r) as (l & Hl & Hr & H0);
      [| reflexivity |].
    + subst n. apply character_not_empty in Hw.
      rewrite append_length. destruct w; [contradiction | cbn; lia].
    + exists (w +:+ l). rewrite append_assoc, <- Hr.
      repeat split; [now constructor | assumption].
Qed.

Lemma trimStart_blank s : trimStart s = "" <-> blank s.
Proof.
  split; [| apply blank_trimStart]. intros H.
  destruct (trimStart_split s) as (l & Hl & Hs & _).
  rewrite H, append_nil_r in Hs. now subst.
Qed.

(** [trimEnd] removes white space, all there is at the end. *)
Lemma trimEnd_split s : exists r, blank r /\ s = trimEnd s +:+ r.
Proof.
  induction s as [| c s (r & Hr & IH)]; [exists ""; split; [constructor |
                                                            reflexivity] |].
  cbn [trimEnd]. destruct (truthy (trimStart (String c s))) eqn:E.
  - exists r. split; [exact Hr |]. now rewrite append_cons, <- IH.
  - apply truthy_false, trimStart_blank in E. now exists (String c s).
Qed.

Lemma trimEnd_no_tail s x w :
  w ∈ whiteSpaceCharacters -> trimEnd s <> x +:+ w.
Proof.
  intros Hw. revert x. induction s as [| c s IH]; intros x H.
  - symmetry in H. apply append_nil in H as [_ ->].
    now apply character_not_empty in Hw.
  - cbn [trimEnd] in H. destruct (truthy (trimStart (String c s))) eqn:E.
    + destruct x as [| d x].
      * cbn in H. destruct (trimEnd_split s) as (r & Hr & Hs).
        assert (Hb : blank (String c s)).
        { rewrite Hs, <- append_cons, H. now constructor. }
        apply trimStart_blank in Hb. rewrite Hb in E. discriminate.
      * rewrite append_cons in H. injection H as _ H. now apply IH in H.
    + symmetry in H. apply append_nil in H as [_ ->].
      now apply character_not_empty in Hw.
Qed.

Lemma trim_bare s : bare (trim s).
Proof.
  intros w r Hw. unfold trim. split; [| now apply trimEnd_no_tail].
  intros H. destruct (trimStart_split s) as (_ & _ & _ & H0).
  destruct (trimEnd_split (trimStart s)) as (r' & _ & Hs).
  rewrite H, append_assoc in Hs. revert Hs. now apply width_zero.
Qed.

(** [trim s] is [s] without the white space around it. *)
Lemma trim_stripped s : stripped s (trim s).
Proof.
  split; [apply trim_bare |].
  destruct (trimStart_split s) as (l & Hl & Hs & _).
  destruct (trimEnd_split (trimStart s)) as (r & Hr & Ht).
  exists l, r. repeat split; try assumption.
  unfold trim. now rewrite <- Ht.
Qed.

Lemma trim_blank s : trim s = "" <-> blank s.
Proof.
  split.
  - intros H. destruct (trim_stripped s) as (_ & l & r & Hl & Hr & ->).
    rewrite H. now apply blank_app.
  - intros H. unfold trim. now rewrite (blank_trimStart s H).
Qed.

Lemma truthy_trim s : truthy (trim s) = true <-> ~ blank s.
Proof. rewrite truthy_true, trim_blank. tauto. Qed.

Lemma falsy_trim s : truthy (trim s) = false <-> blank s.
Proof. now rewrite truthy_false, trim_blank. Qed.

Lemma bare_trim t : bare t -> trim t = t.
Proof.
  intros Hb. unfold trim.
  assert (H0 : whiteSpaceWidth t = 0%nat).
  { destruct (Nat.eq_dec (whiteSpaceWidth t) 0%nat) as [E | E]; [exact E |].
    destruct (width_positive t E) as (w & r & Hw & ->).
    now destruct (Hb w r Hw). }
  rewrite trimStart_kept by assumption.
  destruct (trimEnd_split t) as (r & Hr & Ht).
  destruct (blank_last r Hr) as [-> | (x & w & Hw & ->)].
  - now rewrite append_nil_r in Ht.
  - rewrite <- append_assoc in Ht. now destruct (Hb w (trimEnd t +:+ x) Hw).
Qed.

Lemma trim_idem s : trim (trim s) = trim s.
Proof. apply bare_trim, trim_bare. Qed.

Lemma bare_empty : bare "".
Proof.
  intros w r Hw. apply character_not_empty in Hw.
  split; intros H; symmetry in H; apply append_nil in H as [? ?]; congruence.
Qed.

Lemma bare_not_blank t : t <> "" -> bare t -> ~ blank t.
Proof.
  intros Ht Hb H. destruct H as [| w s Hw Hs]; [contradiction |].
  now destruct (Hb w s Hw).
Qed.

(** [trimEnd s] is [s] without the white space at its end. *)
Lemma trimEnd_endStripped s : endStripped s (trimEnd s).
Proof.
  split; [apply trimEnd_split |]. intros w x Hw. now apply trimEnd_no_tail.
Qed.

Lemma endStripped_same s t :
  endStripped s t -> (forall w x, w ∈ whiteSpaceCharacters -> s <> x +:+ w) ->
  t = s.
Proof.
  intros [(r & Hr & ->) _] Hs.
  destruct (blank_last r Hr) as [-> | (x & w & Hw & ->)].
  - now rewrite append_nil_r.
  - rewrite <- append_assoc in Hs. now destruct (Hs w (t +:+ x) Hw).
Qed.

(** What a source of text yields once trimmed. *)
Lemma trimmed_source (x : option string) :
  if truthy_opt (trim <$> x) then provides x (default "" (trim <$> x))
  else vacant x.
Proof.
  destruct x as [s |]; cbn; [| intros s; discriminate].
  destruct (truthy (trim s)) eqn:E.
  - split; [now apply truthy_true |]. exists s.
    split; [reflexivity | apply trim_stripped].
  - intros s' [= <-]. now apply trim_blank, truthy_false.
Qed.

(** *** The text between the white space

    [stripped] and [endStripped] determine the text: it is the one [trim]
    and [trimEnd] return. *)

Lemma trimStart_past l x : blank l -> trimStart (l +:+ x) = trimStart x.
Proof.
  induction 1 as [| w s Hw Hs IH]; [reflexivity |].
  now rewrite append_assoc, trimStart_character.
Qed.

(** Two texts that start alike: one starts with the other. *)
Lemma append_eq_split a : forall b c d,
  a +:+ b = c +:+ d ->
  (exists u, a = c +:+ u /\ d = u +:+ b) \/
  (exists u, u <> "" /\ c = a +:+ u /\ b = u +:+ d).
Proof.
  induction a as [| x a IH]; intros b [| y c] d H.
  - left. now exists "".
  - right. exists (String y c). now repeat split.
  - left. now exists (String x a).
  - rewrite !append_cons in H. injection H as -> H.
    destruct (IH _ _ _ H) as [(u & -> & ->) | (u & Hu & -> & ->)].
    + left. now exists u.
    + right. now exists u.
Qed.

(** No white space character starts inside another one. *)
Lemma character_not_inside w t u x :
  w ∈ whiteSpaceCharacters -> w = t +:+ u -> t <> "" -> u <> "" ->
  ~ blank (u +:+ x).
Proof.
  intros Hw E Ht Hu Hb.
  assert (Hc : exists c u', u = String c u' /\
                 (128 <=? N_of_ascii c)%N && (N_of_ascii c <? 192)%N = true).
  { each_character Hw;
      destruct t as [| a [| b [| c t]]]; try contradiction;
      cbn in E; try discriminate E;
      injection E as <-; intros; subst;
      try (match goal with H : "" = _ +:+ _ |- _ =>
             symmetry in H; apply append_nil in H as [_ ->] end;
           contradiction);
      eauto. }
  destruct Hc as (c & u' & -> & Hc).
  inversion Hb as [E0 | w' s Hw' Hs E0].
  each_character Hw'; cbn in E0; injection E0 as E0 _; subst c;
    discriminate Hc.
Qed.

(** White space before white space is white space. *)
Lemma blank_before b r : blank (b +:+ r) -> blank r -> blank b.
Proof.
  remember (b +:+ r) as s eqn:E. intros H. revert b E.
  induction H as [| w s Hw Hs IH]; intros b E Hr.
  - symmetry in E. apply append_nil in E as [-> _]. constructor.
  - symmetry in E.
    destruct (append_eq_split _ _ _ _ E) as [(u & -> & ->) | (u & Hu & Hwu & ->)].
    + apply blank_app; [now apply blank_character | now apply IH].
    + destruct b as [| c b]; [constructor |].
      exfalso. apply (character_not_inside w (String c b) u s); auto;
      discriminate.
Qed.

Lemma trimEnd_blank r : blank r -> trimEnd r = "".
Proof.
  intros H. destruct r as [| c r]; [reflexivity |]. cbn [trimEnd].
  now rewrite (blank_trimStart _ H).
Qed.

(** Only [trimEnd s] is [s] without the white space at its end. *)
Lemma endStripped_trimEnd s t : endStripped s t -> trimEnd s = t.
Proof.
  intros [(r & Hr & ->) Ht]. induction t as [| c t IH].
  - now apply trimEnd_blank.
  - rewrite append_cons. cbn [trimEnd]. rewrite <- append_cons.
    destruct (truthy (trimStart (String c t +:+ r))) eqn:E.
    + f_equal. apply IH. intros w x Hw H. apply (Ht w (String c x) Hw).
      now rewrite append_cons, H.
    + exfalso. apply truthy_false, trimStart_blank in E.
      pose proof (blank_before (String c t) r E Hr) as Hb.
      destruct (blank_last _ Hb) as [H | (x & w & Hw & H)]; [discriminate H |].
      now apply (Ht w x Hw).
Qed.

(** Only [trim s] is [s] without the white space around it. *)
Lemma stripped_trim s t : stripped s t -> trim s = t.
Proof.
  intros (Hb & l & r & Hl & Hr & ->). unfold trim.
  rewrite trimStart_past by assumption.
  destruct t as [| c t].
  - change ("" +:+ r) with r. now rewrite (blank_trimStart _ Hr).
  - assert (H0 : whiteSpaceWidth (String c t +:+ r) = 0%nat).
    { destruct (Nat.eq_dec (whiteSpaceWidth (String c t +:+ r)) 0%nat)
        as [E | E]; [exact E |].
      exfalso. destruct (width_positive _ E) as (w & x & Hw & H).
      destruct (append_eq_split _ _ _ _ H) as [(u & Hu & _) | (u & Hu & Hwu & ->)].
      - now destruct (Hb w u Hw).
      - apply (character_not_inside w (String c t) u x); auto; discriminate. }
    rewrite trimStart_kept by assumption.
    apply endStripped_trimEnd. split; [now exists r |].
    intros w x Hw. now destruct (Hb w x Hw).
Qed.

(** *** Numbers *)

Lemma decimal_inj z1 z2 : decimal z1 = decimal z2 -> z1 = z2.
Proof.
  unfold decimal. intros H.
  assert (Hok : forall z, Z.to_int z <> Decimal.Pos Decimal.Nil /\
                          Z.to_int z <> Decimal.Neg Decimal.Nil).
  { intros [| q | q]; cbn; split; try discriminate;
      intros [= E]; now apply (Unsigned.to_uint_nonnil q). }
  apply (f_equal NilZero.int_of_string) in H.
  rewrite !NilZero.isi in H by apply Hok.
  injection H as H. apply (f_equal Z.of_int) in H.
  now rewrite !DecimalZ.of_to in H.
Qed.

(** A safe integer is printed by its decimal digits. *)
Lemma String_of_number_safe n :
  isSafeInteger n -> String_of_number n = decimal n.
Proof.
  unfold isSafeInteger, String_of_number. intros H.
  now rewrite (proj2 (Z.ltb_lt _ _) H).
Qed.

Lemma String_of_number_inj z1 z2 :
  isSafeInteger z1 -> isSafeInteger z2 ->
  String_of_number z1 = String_of_number z2 -> z1 = z2.
Proof.
  intros H1 H2. rewrite !String_of_number_safe by assumption.
  apply decimal_inj.
Qed.

End JSProps.

(** ** The poller *)

Module PollingSpec.
Import JS Types Polling.

(** *** The seen-set as a set *)

Lemma Set_has_true s k : Set_has s k = true <-> k ∈ s.
Proof.
  unfold Set_has. rewrite existsb_exists, list_elem_of_In.
  split.
  - intros (x & Hx & Heq). apply String.eqb_eq in Heq. now subst.
  - intros Hk. exists k. split; [assumption | apply String.eqb_refl].
Qed.

Lemma Set_has_false s k : Set_has s k = false <-> k ∉ s.
Proof.
  rewrite <- Set_has_true. destruct (Set_has s k); split; congruence.
Qed.

Lemma Set_add_fresh s k : k ∉ s -> Set_add s k = s ++ [k].
Proof.
  intros Hk. unfold Set_add. apply Set_has_false in Hk. now rewrite Hk.
Qed.

Lemma Set_add_elem s k x : x ∈ Set_add s k <-> x ∈ s \/ x = k.
Proof.
  unfold Set_add. destruct (Set_has s k) eqn:Hk.
  - apply Set_has_true in Hk. split; [tauto |]. intros [? | ->]; assumption.
  - rewrite elem_of_app, list_elem_of_singleton. tauto.
Qed.

Lemma Set_add_NoDup s k : NoDup s -> NoDup (Set_add s k).
Proof.
  intros Hs. unfold Set_add. destruct (Set_has s k) eqn:Hk; [assumption |].
  apply Set_has_false in Hk. apply NoDup_app. repeat split.
  - assumption.
  - intros x Hx Hx'. apply list_elem_of_singleton in Hx'. now subst.
  - apply NoDup_singleton.
Qed.

Lemma Set_delete_absent s k : k ∉ s -> Set_delete s k = s.
Proof.
  unfold Set_delete. induction s as [| x s IH]; intros Hk; [reflexivity |].
  apply not_elem_of_cons in Hk as [Hne Hk]. simpl.
  destruct (String.eqb k x) eqn:E.
  - apply String.eqb_eq in E. congruence.
  - simpl. now rewrite IH.
Qed.

(** Deleting a prefix of a duplicate-free set, element by element,
    leaves the rest. *)
Lemma delete_prefix t r :
  NoDup (t ++ r) -> fold_left Set_delete t (t ++ r) = r.
Proof.
  induction t as [| x t IH]; intros Hnd; [reflexivity |].
  simpl in *. apply NoDup_cons in Hnd as [Hx Hnd].
  unfold Set_delete at 2. simpl. rewrite String.eqb_refl. simpl.
  fold (Set_delete (t ++ r) x). rewrite Set_delete_absent by assumption.
  now apply IH.
Qed.

Lemma cleanupSeen_spec seen :
  NoDup seen ->
  cleanupSeen seen =
    if Z.of_nat (length seen) >? SEEN_HIGH_WATER
    then drop (Z.to_nat SEEN_EVICT) seen else seen.
Proof.
  intros Hnd. unfold cleanupSeen.
  destruct (Z.of_nat (length seen) >? SEEN_HIGH_WATER); [| reflexivity].
  set (n := Z.to_nat SEEN_EVICT).
  rewrite <- (take_drop n seen) at 2.
  apply delete_prefix. now rewrite take_drop.
Qed.

Lemma cleanupSeen_NoDup seen : NoDup seen -> NoDup (cleanupSeen seen).
Proof.
  intros Hnd. rewrite cleanupSeen_spec by assumption.
  destruct (_ >? _); [| assumption].
  eapply sublist_NoDup; [eassumption | apply sublist_drop].
Qed.

(** *** One page, all of it new *)

Lemma plainText_skipped robotWxid item :
  plainText robotWxid item <-> skipped robotWxid item = false.
Proof.
  unfold plainText, skipped. split.
  - intros (Ht & Hr & Hs & Hw).
    rewrite Ht, Hr. simpl.
    assert (match message_source item with
            | Some src => String.eqb src "robot" | None => false end = false)
      as ->.
    { destruct (message_source item) as [src |]; [| reflexivity].
      apply String.eqb_neq. congruence. }
    assert (match robotWxid with
            | Some w => truthy w && String.eqb (sender_wxid item) w
            | None => false end = false) as ->; [| reflexivity].
    destruct robotWxid as [w |]; [| reflexivity].
    destruct (truthy w) eqn:Hw'; [| reflexivity]. simpl.
    apply String.eqb_neq. now apply Hw.
  - intros H.
    apply orb_false_iff in H as [H Ht].
    apply orb_false_iff in H as [H Hr].
    apply orb_false_iff in H as [Hs Hw].
    repeat split.
    + apply negb_false_iff, Z.eqb_eq in Ht. exact Ht.
    + exact Hr.
    + intros E. rewrite E in Hs. discriminate.
    + intros w E Hw' Heq. subst robotWxid. rewrite Hw' in Hw. simpl in Hw.
      apply String.eqb_neq in Hw. contradiction.
Qed.

(** On a page of distinct keys, none of them seen, the filter records
    every key and keeps the items newer than the cursor. *)
Lemma filterNew_fresh contactId last items : forall seen,
  NoDup (messageKey contactId <$> items) ->
  (forall item, item ∈ items -> messageKey contactId item ∉ seen) ->
  filterNew contactId last seen items =
    (seen ++ (messageKey contactId <$> items),
     List.filter (fun item => last <? created_at item) items).
Proof.
  induction items as [| item rest IH]; intros seen Hnd Hfresh.
  - simpl. now rewrite app_nil_r.
  - rewrite fmap_cons in Hnd. apply NoDup_cons in Hnd as [Hitem Hnd].
    assert (Hk : messageKey contactId item ∉ seen)
      by (apply Hfresh; left).
    simpl filterNew. rewrite (proj2 (Set_has_false _ _) Hk).
    rewrite Set_add_fresh by assumption.
    rewrite IH; [| assumption |].
    + rewrite fmap_cons, <- app_assoc. simpl.
      rewrite Z.leb_antisym. now destruct (last <? created_at item).
    + intros it Hit Hin. apply elem_of_app in Hin as [Hin | Hin].
      * revert Hin. apply Hfresh. now right.
      * apply list_elem_of_singleton in Hin. apply Hitem.
        rewrite <- Hin. now apply list_elem_of_fmap_2.
Qed.


(** C3 (as amended).  A page of five unseen, plain text items created at
    100, 90, 80, 70 and 60 (newest first), polled for a contact whose
    cursor is 80: the callback receives the item of 90 first; when it
    resolves on that item it receives the item of 100 next, and nothing
    else; when it rejects that item it receives nothing else. *)
Theorem page_above_cursor_delivered_oldest_first
    onMessage p contactId i100 i90 i80 i70 i60 :
  created_at i100 = 100 -> created_at i90 = 90 -> created_at i80 = 80 ->
  created_at i70 = 70 -> created_at i60 = 60 ->
  lastPollTimestamps p !! contactId = Some 80 ->
  NoDup (messageKey contactId <$> [i100; i90; i80; i70; i60]) ->
  (forall item, item ∈ [i100; i90; i80; i70; i60] ->
     (messageKey contactId item ∉ seenMessageIds p) /\
     plainText (robotWxid p) item) ->
  let m90 := convertToInboundMessage (robotNickname p) i90 contactId in
  let m100 := convertToInboundMessage (robotNickname p) i100 contactId in
  snd (pollContact onMessage p contactId (Some [i100; i90; i80; i70; i60])) =
    if onMessage m90 then [m90; m100] else [m90].
Proof.
  intros H100 H90 H80 H70 H60 Hcur Hnd Hitems. cbn zeta.
  unfold pollContact.
  rewrite filterNew_fresh; [| assumption | intros; now apply Hitems].
  rewrite Hcur. change (default 0 (Some 80)) with 80. cbn [List.filter].
  rewrite H100, H90, H80, H70, H60.
  cbn [Z.ltb Z.compare Pos.compare Pos.compare_cont rev app].
  assert (S90 : skipped (robotWxid p) i90 = false).
  { apply plainText_skipped, Hitems. apply list_elem_of_In. simpl. tauto. }
  assert (S100 : skipped (robotWxid p) i100 = false).
  { apply plainText_skipped, Hitems. apply list_elem_of_In. simpl. tauto. }
  cbn [deliver set_seen robotWxid robotNickname]. rewrite S90, S100.
  destruct (onMessage (convertToInboundMessage (robotNickname p) i90 _));
    [| reflexivity].
  destruct (onMessage (convertToInboundMessage (robotNickname p) i100 _));
    reflexivity.
Qed.

Lemma page_above_cursor_delivered_oldest_first_witness :
  id <$> snd (pollContact (fun _ => true) (Scenario.aliceAt 80) "wxid_alice"
                (Some [Scenario.textItem 5 100; Scenario.textItem 4 90;
                       Scenario.textItem 3 80; Scenario.textItem 2 70;
                       Scenario.textItem 1 60])) =
    ["wxid_alice:4"; "wxid_alice:5"].
Proof.
  rewrite (page_above_cursor_delivered_oldest_first (fun _ => true)
             (Scenario.aliceAt 80) "wxid_alice"
             (Scenario.textItem 5 100) (Scenario.textItem 4 90)
             (Scenario.textItem 3 80) (Scenario.textItem 2 70)
             (Scenario.textItem 1 60)); try reflexivity.
  - apply (bool_decide_unpack _). vm_compute. exact I.
  - intros item Hin. split.
    + apply not_elem_of_nil.
    + apply plainText_skipped.
      repeat (apply elem_of_cons in Hin as [-> | Hin]); try reflexivity.
      now apply elem_of_nil in Hin.
Defined.

(** C3, as stated, fails when the callback rejects: the page and the
    cursor are those of the claim, the callback rejects what it is handed,
    and the item of 90 is the only one it receives; the item of 100 is
    not delivered. *)
Lemma rejected_item_ends_the_page :
  let p := Scenario.aliceAt 80 in
  let page :=
    [Scenario.textItem 5 100; Scenario.textItem 4 90; Scenario.textItem 3 80;
     Scenario.textItem 2 70; Scenario.textItem 1 60] in
  lastPollTimestamps p !! "wxid_alice" = Some 80 /\
  created_at <$> page = [100; 90; 80; 70; 60] /\
  seenMessageIds p = [] /\
  forallb (fun item => negb (skipped (robotWxid p) item)) page = true /\
  timestamp <$> snd (pollContact (fun _ => false) p "wxid_alice" (Some page))
    = [90000].
Proof. vm_compute. repeat split. Qed.

(** *** The cursor *)

Lemma pollContact_cursor onMessage p contactId response c :
  let p' := fst (pollContact onMessage p contactId response) in
  lastPollTimestamps p' !! c = lastPollTimestamps p !! c \/
  c = contactId /\
  exists item rest,
    response = Some (item :: rest) /\
    lastPollTimestamps p' !! c = Some (maxTimestamp item rest).
Proof.
  unfold pollContact. destruct response as [items |]; [| now left].
  destruct (filterNew _ _ _ _) as [seen' kept].
  destruct (deliver _ _ _ _) as [ds [|]]; [| now left].
  destruct items as [| item rest]; [now left |].
  cbn [fst set_cursor set_seen lastPollTimestamps].
  destruct (decide (c = contactId)) as [-> | Hne].
  - right. split; [reflexivity |]. exists item, rest.
    split; [reflexivity | apply lookup_insert_eq].
  - left. now apply lookup_insert_ne.
Qed.

Lemma pollContacts_cursor env c : forall contactIds i p,
  let p' := fst (pollContacts env i p contactIds) in
  lastPollTimestamps p' !! c = lastPollTimestamps p !! c \/
  exists j item rest,
    getChatHistory env j c = Some (item :: rest) /\
    lastPollTimestamps p' !! c = Some (maxTimestamp item rest).
Proof.
  induction contactIds as [| contactId rest IH]; intros i p; [now left |].
  cbn [pollContacts].
  destruct (isRunning p); cbn [negb]; [| now left].
  destruct (stopRequested env i); [now left |].
  pose proof (pollContact_cursor (onMessage env) p contactId
                (getChatHistory env i contactId) c) as Hstep.
  destruct (pollContact _ _ _ _) as [p1 d1]. cbn [fst] in Hstep.
  specialize (IH (S i) p1).
  destruct (pollContacts env (S i) p1 rest) as [p2 d2]. cbn [fst] in *.
  destruct IH as [IH | IH]; [| now right].
  rewrite IH.
  destruct Hstep as [Hstep | (-> & item & rest' & Hresp & Hcur)];
    [now left |].
  right. exists i, item, rest'. now split.
Qed.

Lemma poll_cursors p env :
  lastPollTimestamps (fst (poll p env)) =
  lastPollTimestamps (afterLoop p env).
Proof.
  unfold poll, afterLoop, contactsOf.
  destruct (resolveContactIds _ _) as [| c l]; [reflexivity |].
  now destruct (pollContacts _ _ _ _).
Qed.


(** *** Delivery at most once *)

Lemma rev_is_reverse {A} (l : list A) : rev l = reverse l.
Proof. unfold reverse. apply rev_alt. Qed.



(** What the filter keeps was not in the seen-set, is in it afterwards,
    and has pairwise distinct keys; nothing leaves the seen-set. *)
Lemma filterNew_inv contactId last items : forall seen seen' kept,
  filterNew contactId last seen items = (seen', kept) ->
  (NoDup seen -> NoDup seen') /\
  (forall k, k ∈ seen -> k ∈ seen') /\
  NoDup (messageKey contactId <$> kept) /\
  (forall item, item ∈ kept ->
     (messageKey contactId item ∉ seen) /\
     messageKey contactId item ∈ seen').
Proof.
  induction items as [| item rest IH]; intros seen seen' kept Heq.
  - injection Heq as <- <-. repeat split; try tauto.
    + constructor.
    + now apply elem_of_nil in H.
    + now apply elem_of_nil in H.
  - cbn [filterNew] in Heq.
    destruct (Set_has seen (messageKey contactId item)) eqn:Hhas.
    { now apply IH. }
    apply Set_has_false in Hhas.
    assert (Hstep :
      forall seen'' kept',
        filterNew contactId last (Set_add seen (messageKey contactId item))
          rest = (seen'', kept') ->
        (NoDup seen -> NoDup seen'') /\
        (forall k, k ∈ seen -> k ∈ seen'') /\
        messageKey contactId item ∈ seen'' /\
        NoDup (messageKey contactId <$> kept') /\
        (forall it, it ∈ kept' ->
           (messageKey contactId it ∉ seen) /\
           messageKey contactId it ≠ messageKey contactId item /\
           messageKey contactId it ∈ seen'')).
    { intros seen'' kept' H. apply IH in H as (Hnd & Hsub & Hk & Hkept).
      repeat split.
      - intros Hs. now apply Hnd, Set_add_NoDup.
      - intros k Hk'. apply Hsub, Set_add_elem. now left.
      - apply Hsub, Set_add_elem. now right.
      - assumption.
      - apply Hkept in H as [Hout _]. intros Hin. apply Hout.
        apply Set_add_elem. now left.
      - apply Hkept in H as [Hout _]. intros Heq'. apply Hout.
        apply Set_add_elem. now right.
      - now apply Hkept. }
    destruct (created_at item <=? last).
    + apply Hstep in Heq as (Hnd & Hsub & _ & Hk & Hkept).
      repeat split; try assumption; now apply Hkept.
    + destruct (filterNew _ _ _ rest) as [s kept'] eqn:Hrest.
      injection Heq as <- <-.
      destruct (Hstep _ _ eq_refl) as (Hnd & Hsub & Hitem & Hk & Hkept).
      repeat split; try assumption.
      * rewrite fmap_cons. apply NoDup_cons. split; [| assumption].
        intros Hin. apply list_elem_of_fmap in Hin as (it & Heq' & Hit).
        apply Hkept in Hit as (_ & Hne & _). congruence.
      * apply elem_of_cons in H as [-> | H]; [assumption | now apply Hkept].
      * apply elem_of_cons in H as [-> | H]; [assumption | now apply Hkept].
Qed.


Lemma deliver_set_seen onMessage p seen contactId newMessages :
  deliver onMessage (set_seen p seen) contactId newMessages =
  deliver onMessage p contactId newMessages.
Proof.
  induction newMessages as [| item rest IH]; [reflexivity |].
  cbn [deliver set_seen robotWxid robotNickname]. now rewrite IH.
Qed.

Lemma pollContact_seen onMessage p contactId items :
  seenMessageIds (fst (pollContact onMessage p contactId (Some items))) =
  fst (filterNew contactId (default 0 (lastPollTimestamps p !! contactId))
         (seenMessageIds p) items).
Proof.
  unfold pollContact. destruct (filterNew _ _ _ _) as [seen' kept].
  destruct (deliver _ _ _ _) as [ds [|]]; [| reflexivity].
  now destruct items.
Qed.

Lemma pollContact_delivered onMessage p contactId items :
  snd (pollContact onMessage p contactId (Some items)) =
  fst (deliver onMessage p contactId
         (rev (snd (filterNew contactId
                      (default 0 (lastPollTimestamps p !! contactId))
                      (seenMessageIds p) items)))).
Proof.
  unfold pollContact. destruct (filterNew _ _ _ _) as [seen' kept].
  rewrite deliver_set_seen.
  destruct (deliver _ _ _ _) as [ds [|]]; [| reflexivity].
  now destruct items.
Qed.

Lemma pollContact_NoDup onMessage p contactId response :
  NoDup (seenMessageIds p) ->
  NoDup (seenMessageIds (fst (pollContact onMessage p contactId response))).
Proof.
  destruct response as [items |]; [| trivial].
  rewrite pollContact_seen. destruct (filterNew _ _ _ _) as [s k] eqn:E.
  now apply filterNew_inv in E.
Qed.








(** *** What a loop leaves in the seen-set *)

(** Whatever else it does, the filter records the key of every item. *)
Lemma filterNew_seen contactId last items : forall seen,
  fst (filterNew contactId last seen items) =
  fold_left Set_add (messageKey contactId <$> items) seen.
Proof.
  induction items as [| item rest IH]; intros seen; [reflexivity |].
  cbn [filterNew fmap list_fmap fold_left].
  destruct (Set_has seen (messageKey contactId item)) eqn:Hhas.
  - assert (E : Set_add seen (messageKey contactId item) = seen)
      by (unfold Set_add; now rewrite Hhas).
    rewrite E. apply IH.
  - destruct (created_at item <=? last); [apply IH |].
    specialize (IH (Set_add seen (messageKey contactId item))).
    destruct (filterNew _ _ _ rest). exact IH.
Qed.

Lemma fold_add_fresh ks : forall seen,
  NoDup (seen ++ ks) -> fold_left Set_add ks seen = seen ++ ks.
Proof.
  induction ks as [| k ks IH]; intros seen Hnd.
  - now rewrite app_nil_r.
  - cbn [fold_left].
    assert (Hk : k ∉ seen).
    { apply NoDup_app in Hnd as (_ & Hdis & _). intros Hin.
      apply (Hdis k Hin). now left. }
    rewrite Set_add_fresh by assumption.
    rewrite IH; rewrite <- app_assoc; [reflexivity | exact Hnd].
Qed.

Lemma pollContact_fields onMessage p contactId response :
  let p' := fst (pollContact onMessage p contactId response) in
  isRunning p' = isRunning p /\ pollingConfig p' = pollingConfig p /\
  robotWxid p' = robotWxid p /\ robotNickname p' = robotNickname p.
Proof.
  unfold pollContact. destruct response as [items |]; [| now repeat split].
  destruct (filterNew _ _ _ _) as [seen' kept].
  destruct (deliver _ _ _ _) as [ds [|]]; [| now repeat split].
  destruct items; now repeat split.
Qed.

Lemma pollContacts_fields env : forall contactIds i p,
  let p' := fst (pollContacts env i p contactIds) in
  ((forall j, stopRequested env j = false) -> isRunning p' = isRunning p) /\
  pollingConfig p' = pollingConfig p /\
  robotWxid p' = robotWxid p /\ robotNickname p' = robotNickname p.
Proof.
  induction contactIds as [| contactId rest IH]; intros i p;
    [now repeat split |].
  cbn [pollContacts].
  destruct (isRunning p) eqn:Hrun; cbn [negb]; [| now repeat split].
  destruct (stopRequested env i) eqn:Hstop.
  { cbn [fst stop set_running pollingConfig robotWxid robotNickname].
    repeat split. intros Hno. rewrite Hno in Hstop. discriminate. }
  pose proof (pollContact_fields (onMessage env) p contactId
                (getChatHistory env i contactId)) as H1.
  destruct (pollContact _ _ _ _) as [p1 d1]. cbn [fst] in H1.
  specialize (IH (S i) p1).
  destruct (pollContacts env (S i) p1 rest) as [p2 d2]. cbn [fst] in *.
  destruct H1 as (R1 & C1 & W1 & N1). destruct IH as (R2 & C2 & W2 & N2).
  repeat split; try congruence.
  intros Hno. rewrite (R2 Hno). congruence.
Qed.

Lemma pollContacts_seen env : forall contactIds i p,
  isRunning p = true -> (forall j, stopRequested env j = false) ->
  seenMessageIds (fst (pollContacts env i p contactIds)) =
  fold_left Set_add (loopKeys env i contactIds) (seenMessageIds p).
Proof.
  induction contactIds as [| contactId rest IH]; intros i p Hrun Hno;
    [reflexivity |].
  cbn [pollContacts loopKeys]. rewrite Hrun, Hno. cbn [negb].
  pose proof (pollContact_fields (onMessage env) p contactId
                (getChatHistory env i contactId)) as (R1 & _).
  assert (Hseen :
    seenMessageIds
      (fst (pollContact (onMessage env) p contactId
              (getChatHistory env i contactId))) =
    fold_left Set_add
      (match getChatHistory env i contactId with
       | Some items => messageKey contactId <$> items
       | None => []
       end) (seenMessageIds p)).
  { destruct (getChatHistory env i contactId) as [items |]; [| reflexivity].
    rewrite pollContact_seen. apply filterNew_seen. }
  destruct (pollContact _ _ _ _) as [p1 d1]. cbn [fst] in *.
  specialize (IH (S i) p1).
  destruct (pollContacts env (S i) p1 rest) as [p2 d2]. cbn [fst] in *.
  rewrite IH by congruence. now rewrite fold_left_app, Hseen.
Qed.

Lemma pollContacts_cursor_frame env c : forall contactIds i p,
  c ∉ contactIds ->
  lastPollTimestamps (fst (pollContacts env i p contactIds)) !! c =
  lastPollTimestamps p !! c.
Proof.
  induction contactIds as [| contactId rest IH]; intros i p Hc;
    [reflexivity |].
  apply not_elem_of_cons in Hc as [Hne Hc].
  cbn [pollContacts].
  destruct (isRunning p); cbn [negb]; [| reflexivity].
  destruct (stopRequested env i); [reflexivity |].
  pose proof (pollContact_cursor (onMessage env) p contactId
                (getChatHistory env i contactId) c) as H1.
  destruct (pollContact _ _ _ _) as [p1 d1]. cbn [fst] in H1.
  specialize (IH (S i) p1 Hc).
  destruct (pollContacts env (S i) p1 rest) as [p2 d2]. cbn [fst] in *.
  rewrite IH. destruct H1 as [H1 | (Heq & _)]; [assumption | contradiction].
Qed.






Lemma poll_unfold p env :
  contactsOf p env <> [] ->
  poll p env =
    (set_seen (afterLoop p env) (cleanupSeen (seenMessageIds (afterLoop p env))),
     snd (pollContacts env 0 p (contactsOf p env))).
Proof.
  intros Hc. unfold poll, afterLoop. unfold contactsOf in *.
  destruct (resolveContactIds _ _) as [| c l]; [contradiction |].
  now destruct (pollContacts _ _ _ _).
Qed.


(** *** Identity keys *)

Lemma append_colon_inj c1 : forall c2 x y,
  noColon c1 = true -> noColon c2 = true ->
  c1 +:+ String ":" x = c2 +:+ String ":" y -> c1 = c2 /\ x = y.
Proof.
  induction c1 as [| a c1 IH]; intros [| b c2] x y H1 H2 Heq; cbn in *.
  - injection Heq as <-. now split.
  - injection Heq as <- _. now rewrite Ascii.eqb_refl in H2.
  - injection Heq as -> _. now rewrite Ascii.eqb_refl in H1.
  - injection Heq as <- Heq.
    apply andb_true_iff in H1 as [_ H1]. apply andb_true_iff in H2 as [_ H2].
    destruct (IH c2 x y H1 H2 Heq) as [-> ->]. now split.
Qed.

(** The identity key determines the contact, for contact ids without a
    colon. *)
Lemma messageKey_inj c1 c2 i1 i2 :
  noColon c1 = true -> noColon c2 = true ->
  messageKey c1 i1 = messageKey c2 i2 -> c1 = c2.
Proof.
  intros H1 H2 Heq. unfold messageKey in Heq.
  change (":" +:+ ?x) with (String ":" x) in Heq.
  now apply append_colon_inj in Heq as [-> _].
Qed.

Lemma crowd_elem n c :
  c ∈ Scenario.crowd n ->
  noColon c = true /\ String.eqb c "wxid_alice" = false.
Proof.
  unfold Scenario.crowd. intros Hc.
  apply list_elem_of_fmap in Hc as (i & -> & _).
  cbn [String.append String.eqb Ascii.eqb Bool.eqb noColon negb andb].
  split; [| reflexivity].
  unfold decimal. generalize (Z.to_int (Z.of_nat i)) as d.
  assert (Hu : forall u, noColon (NilEmpty.string_of_uint u) = true).
  { induction u; cbn; auto. }
  assert (Hz : forall u, noColon (NilZero.string_of_uint u) = true).
  { intros [| | | | | | | | | |]; try apply Hu; reflexivity. }
  intros [u | u]; unfold NilZero.string_of_int; [apply Hz |].
  change (noColon (NilZero.string_of_uint u) = true). apply Hz.
Qed.

Lemma crowd_NoDup n : NoDup (Scenario.crowd n).
Proof.
  unfold Scenario.crowd. apply NoDup_fmap_2_strong.
  - intros i j _ _ Heq. cbn [String.append] in Heq.
    injection Heq as Heq. apply JSProps.decimal_inj in Heq. lia.
  - apply NoDup_ListNoDup, seq_NoDup.
Qed.

Lemma oldPage_keys_NoDup c : NoDup (messageKey c <$> Scenario.oldPage).
Proof.
  unfold Scenario.oldPage. rewrite <- list_fmap_compose.
  apply NoDup_fmap_2_strong; [| apply NoDup_ListNoDup, seq_NoDup].
  intros i j Hi Hj Heq. unfold compose, messageKey in Heq.
  apply elem_of_seq in Hi, Hj.
  assert (Hcut : forall s x y, s +:+ x = s +:+ y -> x = y).
  { induction s as [| a s IH]; intros x y E; [exact E |].
    rewrite !JSProps.append_cons in E. injection E as E. now apply IH. }
  apply Hcut in Heq. change (":" +:+ ?x) with (String ":" x) in Heq.
  injection Heq as Heq. cbn [Scenario.textItem msg_id] in Heq.
  apply JSProps.String_of_number_inj in Heq;
    [lia | unfold isSafeInteger; lia ..].
Qed.

(** The keys of the crowd's old pages are pairwise distinct, and none is
    a key of [wxid_alice]. *)
Lemma crowd_keys_NoDup n :
  NoDup (Scenario.crowd n ≫= (fun c => messageKey c <$> Scenario.oldPage)).
Proof.
  apply NoDup_bind.
  - intros c1 c2 k Hc1 Hc2 Hk1 Hk2.
    apply list_elem_of_fmap in Hk1 as (i1 & -> & _).
    apply list_elem_of_fmap in Hk2 as (i2 & Heq & _).
    apply crowd_elem in Hc1 as [Hc1 _]. apply crowd_elem in Hc2 as [Hc2 _].
    now apply messageKey_inj in Heq.
  - intros c _. apply oldPage_keys_NoDup.
  - apply crowd_NoDup.
Qed.


(** *** The clean-up *)

Lemma pollContacts_NoDup env : forall contactIds i p,
  NoDup (seenMessageIds p) ->
  NoDup (seenMessageIds (fst (pollContacts env i p contactIds))).
Proof.
  induction contactIds as [| contactId rest IH]; intros i p Hnd;
    [assumption |].
  cbn [pollContacts].
  destruct (isRunning p); cbn [negb]; [| assumption].
  destruct (stopRequested env i); [assumption |].
  pose proof (pollContact_NoDup (onMessage env) p contactId
                (getChatHistory env i contactId) Hnd) as H1.
  destruct (pollContact _ _ _ _) as [p1 d1]. cbn [fst] in H1.
  specialize (IH (S i) p1 H1).
  now destruct (pollContacts env (S i) p1 rest).
Qed.

(** C4 (as amended).  At the end of a cycle that polls at least one
    contact, a seen-set of more than 10,000 keys loses exactly its 5,000
    oldest-inserted keys, which are then unseen again, and a seen-set of
    10,000 keys or fewer is left as it is. *)
Theorem cleanup_after_polled_cycle p env :
  NoDup (seenMessageIds p) ->
  contactsOf p env <> [] ->
  let before := seenMessageIds (afterLoop p env) in
  let after := seenMessageIds (fst (poll p env)) in
  let oldest := take (Z.to_nat SEEN_EVICT) before in
  (Z.of_nat (length before) > SEEN_HIGH_WATER ->
   before = oldest ++ after /\ Z.of_nat (length oldest) = SEEN_EVICT /\
   forall k, k ∈ oldest -> Set_has after k = false) /\
  (Z.of_nat (length before) <= SEEN_HIGH_WATER -> after = before).
Proof.
  intros Hnd Hc. cbn zeta. rewrite poll_unfold by assumption.
  cbn [fst set_seen seenMessageIds].
  assert (Hnd' : NoDup (seenMessageIds (afterLoop p env)))
    by now apply pollContacts_NoDup.
  rewrite cleanupSeen_spec by assumption.
  set (before := seenMessageIds (afterLoop p env)) in *. split.
  - intros Hbig. rewrite (proj2 (Z.gtb_lt _ _)) by lia.
    split; [now rewrite take_drop |]. split.
    + rewrite length_take. unfold SEEN_EVICT, SEEN_HIGH_WATER in *. lia.
    + intros k Hk. apply Set_has_false.
      rewrite <- (take_drop (Z.to_nat SEEN_EVICT) before) in Hnd'.
      apply NoDup_app in Hnd' as (_ & Hdis & _). now apply Hdis.
  - intros Hsmall.
    destruct (Z.of_nat (length before) >? SEEN_HIGH_WATER) eqn:E;
      [| reflexivity].
    apply Z.gtb_lt in E. lia.
Qed.

Lemma cleanup_after_polled_cycle_witness :
  seenMessageIds
    (fst (poll (Scenario.aliceAt 80)
            (Scenario.quietCycle Scenario.noDirectory
               (fun _ => Some [Scenario.textItem 2 100;
                               Scenario.textItem 1 90])))) =
  ["wxid_alice:2"; "wxid_alice:1"].
Proof.
  rewrite (proj2 (cleanup_after_polled_cycle (Scenario.aliceAt 80)
                    (Scenario.quietCycle Scenario.noDirectory
                       (fun _ => Some [Scenario.textItem 2 100;
                                       Scenario.textItem 1 90]))
                    (NoDup_nil_2 : NoDup (seenMessageIds (Scenario.aliceAt 80)))
                    ltac:(discriminate))).
  - reflexivity.
  - vm_compute. discriminate.
Defined.

Lemma loopKeys_same_page env page : forall contactIds i,
  (forall j c, c ∈ contactIds -> getChatHistory env j c = Some page) ->
  loopKeys env i contactIds =
  contactIds ≫= (fun c => messageKey c <$> page).
Proof.
  induction contactIds as [| contactId rest IH]; intros i Hpage;
    [reflexivity |].
  cbn [loopKeys]. rewrite Hpage by (now left).
  rewrite IH by (intros j c Hc; apply Hpage; now right). reflexivity.
Qed.

Lemma poll_fields p env :
  pollingConfig (fst (poll p env)) = pollingConfig p /\
  robotWxid (fst (poll p env)) = robotWxid p /\
  robotNickname (fst (poll p env)) = robotNickname p /\
  ((forall j, stopRequested env j = false) ->
   isRunning (fst (poll p env)) = isRunning p).
Proof.
  unfold poll. destruct (resolveContactIds _ _) as [| c l];
    [now repeat split |].
  pose proof (pollContacts_fields env (c :: l) 0 p) as (R & C & W & N).
  destruct (pollContacts env 0 p (c :: l)) as [p1 ds].
  cbn [fst set_seen pollingConfig robotWxid robotNickname isRunning] in *.
  now repeat split.
Qed.

Lemma poll_seen p env :
  contactsOf p env <> [] ->
  seenMessageIds (fst (poll p env)) =
  cleanupSeen (seenMessageIds (afterLoop p env)).
Proof. intros Hc. now rewrite poll_unfold. Qed.

Lemma poll_nothing p env :
  contactsOf p env = [] -> fst (poll p env) = p /\ snd (poll p env) = [].
Proof. unfold contactsOf, poll. now intros ->. Qed.

(** A cycle in which every contact answers the same page. *)
Lemma afterLoop_same_page p env contactIds page :
  isRunning p = true -> (forall j, stopRequested env j = false) ->
  contactsOf p env = contactIds ->
  (forall j c, c ∈ contactIds -> getChatHistory env j c = Some page) ->
  seenMessageIds (afterLoop p env) =
  fold_left Set_add (contactIds ≫= (fun c => messageKey c <$> page))
    (seenMessageIds p).
Proof.
  intros Hrun Hno Hids Hpage. unfold afterLoop. rewrite Hids.
  rewrite pollContacts_seen by assumption.
  now rewrite (loopKeys_same_page env page).
Qed.

Lemma crowded_start :
  isRunning Scenario.crowdedPoller = true /\
  pollingConfig Scenario.crowdedPoller = Some (Scenario.allContacts 1000) /\
  seenMessageIds Scenario.crowdedPoller = [].
Proof. vm_compute. repeat split. Qed.

Lemma crowded_contacts :
  contactsOf Scenario.crowdedPoller Scenario.crowdedCycle1 =
  Scenario.crowd 760.
Proof.
  unfold contactsOf. rewrite (proj1 (proj2 crowded_start)).
  vm_compute. reflexivity.
Qed.

(** The first cycle of a poller that has seen nothing yet, when the keys
    of the pages are pairwise distinct. *)
Lemma first_fill p env contactIds page :
  isRunning p = true -> (forall j, stopRequested env j = false) ->
  contactsOf p env = contactIds -> contactIds <> [] ->
  (forall j c, c ∈ contactIds -> getChatHistory env j c = Some page) ->
  seenMessageIds p = [] ->
  NoDup (contactIds ≫= (fun c => messageKey c <$> page)) ->
  seenMessageIds (fst (poll p env)) =
  cleanupSeen (contactIds ≫= (fun c => messageKey c <$> page)).
Proof.
  intros Hrun Hno Hids Hne Hpage Hseen Hnd.
  rewrite poll_seen by (now rewrite Hids).
  rewrite (afterLoop_same_page p env contactIds page) by assumption.
  rewrite Hseen. f_equal. now apply (fold_add_fresh _ []).
Qed.

Lemma crowded_after_cycle1 :
  pollingConfig (fst (poll Scenario.crowdedPoller Scenario.crowdedCycle1)) =
    Some (Scenario.allContacts 1000) /\
  seenMessageIds (fst (poll Scenario.crowdedPoller Scenario.crowdedCycle1)) =
    drop (Z.to_nat SEEN_EVICT)
      (Scenario.crowd 760 ≫= (fun c => messageKey c <$> Scenario.oldPage)).
Proof.
  destruct crowded_start as (Hrun & Hcfg & Hseen0). split.
  - rewrite <- Hcfg.
    exact (proj1 (poll_fields Scenario.crowdedPoller Scenario.crowdedCycle1)).
  - rewrite (first_fill Scenario.crowdedPoller Scenario.crowdedCycle1
               (Scenario.crowd 760) Scenario.oldPage
               Hrun (fun _ => eq_refl) crowded_contacts
               ltac:(discriminate) (fun _ _ _ => eq_refl) Hseen0
               (crowd_keys_NoDup 760)).
    rewrite (cleanupSeen_spec _ (crowd_keys_NoDup 760)).
    assert (Hbig : (Z.of_nat (length (Scenario.crowd 760
                      ≫= (fun c => messageKey c <$> Scenario.oldPage)))
                    >? SEEN_HIGH_WATER) = true) by (vm_compute; reflexivity).
    rewrite Hbig. reflexivity.
Qed.

(** C4, as stated, fails when a cycle resolves no contact: the poll
    returns before the clean-up.  A poller of all friends, at most 1000,
    sees the 15,200 keys of a crowd of 760 in one cycle and ends it with
    10,200 keys; in the next cycle the friend list cannot be fetched, and
    the cycle ends with the same 10,200 keys. *)
Lemma cleanup_skipped_without_contacts :
  let p1 := fst (poll Scenario.crowdedPoller Scenario.crowdedCycle1) in
  let p2 := fst (poll p1 Scenario.crowdedCycle2) in
  contactsOf p1 Scenario.crowdedCycle2 = [] /\
  Z.of_nat (length (seenMessageIds p2)) = 10200 /\
  seenMessageIds p2 = seenMessageIds p1.
Proof.
  cbn zeta. destruct crowded_after_cycle1 as [Hcfg Hseen].
  assert (Hnone :
    contactsOf (fst (poll Scenario.crowdedPoller Scenario.crowdedCycle1))
      Scenario.crowdedCycle2 = []).
  { unfold contactsOf. rewrite Hcfg. reflexivity. }
  rewrite (proj1 (poll_nothing _ _ Hnone)).
  split; [exact Hnone |]. split; [| reflexivity].
  rewrite Hseen. vm_compute. reflexivity.
Qed.

(** *** Re-delivery after an eviction *)





(** *** Where a delivered message comes from *)

Lemma deliver_origin onMessage p c : forall items m,
  m ∈ fst (deliver onMessage p c items) ->
  exists item,
    item ∈ items /\ skipped (robotWxid p) item = false /\
    m = convertToInboundMessage (robotNickname p) item c.
Proof.
  induction items as [| item rest IH]; intros m Hm; cbn [deliver] in Hm.
  { now apply elem_of_nil in Hm. }
  destruct (skipped (robotWxid p) item) eqn:Hs.
  - destruct (IH m Hm) as (it & Hit & H). exists it.
    split; [now apply elem_of_cons; right | exact H].
  - destruct (onMessage _).
    + destruct (deliver onMessage p c rest) as [ds ok]. cbn [fst] in *.
      apply elem_of_cons in Hm as [-> | Hm].
      * exists item. split; [apply elem_of_cons; now left | now split].
      * destruct (IH m Hm) as (it & Hit & H). exists it.
        split; [now apply elem_of_cons; right | exact H].
    + cbn [fst] in Hm. apply list_elem_of_singleton in Hm as ->.
      exists item. split; [apply elem_of_cons; now left | now split].
Qed.

Lemma filterNew_after c last : forall items seen item,
  item ∈ snd (filterNew c last seen items) ->
  item ∈ items /\ last < created_at item.
Proof.
  induction items as [| it rest IH]; intros seen item H; cbn [filterNew] in H.
  { now apply elem_of_nil in H. }
  destruct (Set_has seen (messageKey c it)).
  { destruct (IH _ _ H). split; [apply elem_of_cons; now right | assumption]. }
  destruct (created_at it <=? last) eqn:E.
  { destruct (IH _ _ H). split; [apply elem_of_cons; now right | assumption]. }
  destruct (filterNew c last (Set_add seen (messageKey c it)) rest)
    as [s kept] eqn:Ef. cbn [snd] in H.
  apply elem_of_cons in H as [-> | H].
  - split; [apply elem_of_cons; now left | now apply Z.leb_gt in E].
  - specialize (IH (Set_add seen (messageKey c it)) item).
    rewrite Ef in IH. destruct (IH H).
    split; [apply elem_of_cons; now right | assumption].
Qed.

Lemma fold_add_elem k : forall ks seen,
  k ∈ fold_left Set_add ks seen <-> k ∈ seen \/ k ∈ ks.
Proof.
  induction ks as [| x ks IH]; intros seen; cbn [fold_left].
  - split; [now left | intros [H | H]; [exact H | now apply elem_of_nil in H]].
  - rewrite IH, Set_add_elem, elem_of_cons. intuition.
Qed.

Lemma deliver_ok onMessage p c : forall items,
  (forall item, item ∈ items ->
     onMessage (convertToInboundMessage (robotNickname p) item c) = true) ->
  deliver onMessage p c items =
    ((fun item => convertToInboundMessage (robotNickname p) item c)
       <$> List.filter (fun item => negb (skipped (robotWxid p) item)) items,
     true).
Proof.
  induction items as [| item rest IH]; intros Hok; [reflexivity |].
  cbn [deliver List.filter].
  assert (IH' := IH (fun it Hit => Hok it (list_elem_of_further _ _ _ Hit))).
  destruct (skipped (robotWxid p) item); cbn [negb]; [exact IH' |].
  rewrite (Hok item) by apply list_elem_of_here. now rewrite IH'.
Qed.

(** What the callback is handed from a page was in the page, unseen
    before, created after the cursor, and is not skipped. *)
Lemma delivered_source onMessage p c items m :
  m ∈ snd (pollContact onMessage p c (Some items)) ->
  exists item,
    item ∈ items /\
    m = convertToInboundMessage (robotNickname p) item c /\
    default 0 (lastPollTimestamps p !! c) < created_at item /\
    (messageKey c item ∉ seenMessageIds p) /\
    skipped (robotWxid p) item = false.
Proof.
  rewrite pollContact_delivered. intros H.
  apply deliver_origin in H as (item & Hin & Hs & ->).
  rewrite rev_is_reverse, elem_of_reverse in Hin.
  destruct (filterNew c (default 0 (lastPollTimestamps p !! c))
              (seenMessageIds p) items) as [seen' kept] eqn:Ef.
  cbn [snd] in Hin.
  pose proof (filterNew_inv _ _ _ _ _ _ Ef) as (_ & _ & _ & Hkept).
  pose proof (filterNew_after c (default 0 (lastPollTimestamps p !! c))
                items (seenMessageIds p) item) as Hafter.
  rewrite Ef in Hafter. destruct (Hafter Hin) as [Hitem Hnew].
  exists item. repeat split; try assumption. now apply Hkept.
Qed.

(** The filter keeps the first item of each unseen key when it was
    created after the cursor. *)
Lemma filterNew_first c last : forall items seen i item,
  items !! i = Some item ->
  messageKey c item ∉ seen ->
  (forall j other, (j < i)%nat -> items !! j = Some other ->
     messageKey c other <> messageKey c item) ->
  last < created_at item ->
  item ∈ snd (filterNew c last seen items).
Proof.
  induction items as [| it rest IH]; intros seen i item Hi Hnew Hfirst Hlast;
    [discriminate |].
  cbn [filterNew]. destruct i as [| i].
  - injection Hi as ->. rewrite (proj2 (Set_has_false _ _) Hnew).
    rewrite (proj2 (Z.leb_gt _ _) Hlast).
    destruct (filterNew _ _ _ rest). apply list_elem_of_here.
  - cbn in Hi.
    assert (Hne : messageKey c it <> messageKey c item)
      by (apply (Hfirst 0%nat it); [lia | reflexivity]).
    assert (Hrest : forall s, messageKey c item ∉ s ->
                      item ∈ snd (filterNew c last s rest)).
    { intros s Hs. apply (IH s i item Hi); [exact Hs | | exact Hlast].
      intros j other Hj Hother.
      apply (Hfirst (S j) other); [lia | exact Hother]. }
    assert (Hadd : messageKey c item ∉ Set_add seen (messageKey c it)).
    { intros Hin.
      apply Set_add_elem in Hin as [Hin | Hin]; [contradiction | congruence]. }
    destruct (Set_has seen (messageKey c it)); [now apply Hrest |].
    destruct (created_at it <=? last); [now apply Hrest |].
    specialize (Hrest _ Hadd).
    destruct (filterNew _ _ _ rest). cbn [snd] in *.
    now apply list_elem_of_further.
Qed.

(** C10 (as amended).  A contact without a stored cursor is polled with
    cursor 0.  Whatever the page and the callback: what the callback is
    handed comes from items of the page that were not seen before, were
    created after 0 and are not skipped by the robot, recalled and
    non-text tests; every item of the page is recorded as seen; an item
    created at 0 or before is not delivered.  With a callback that
    resolves on the items of the page, every item that is the first of its
    key in the page, was not seen before, was created after 0 and is not
    skipped is delivered; and of a page of distinct, unseen keys whose
    creation timestamps are all positive, every item passes the filter and
    the items delivered are exactly those not skipped, oldest first. *)
Theorem unseeded_contact_first_page onMessage p contactId items :
  lastPollTimestamps p !! contactId = None ->
  let r := pollContact onMessage p contactId (Some items) in
  let message item :=
    convertToInboundMessage (robotNickname p) item contactId in
  default 0 (lastPollTimestamps p !! contactId) = 0 /\
  (forall m, m ∈ snd r ->
     exists item,
       item ∈ items /\ m = message item /\ 0 < created_at item /\
       (messageKey contactId item ∉ seenMessageIds p) /\
       skipped (robotWxid p) item = false) /\
  (forall item, item ∈ items ->
     messageKey contactId item ∈ seenMessageIds (fst r)) /\
  (forall item, item ∈ items -> created_at item <= 0 ->
     message item ∉ snd r) /\
  ((forall item, item ∈ items -> onMessage (message item) = true) ->
   forall i item,
     items !! i = Some item ->
     messageKey contactId item ∉ seenMessageIds p ->
     (forall j other, (j < i)%nat -> items !! j = Some other ->
        messageKey contactId other <> messageKey contactId item) ->
     0 < created_at item -> skipped (robotWxid p) item = false ->
     message item ∈ snd r) /\
  ((forall item, item ∈ items -> onMessage (message item) = true) ->
   NoDup (messageKey contactId <$> items) ->
   (forall item, item ∈ items ->
      messageKey contactId item ∉ seenMessageIds p) ->
   (forall item, item ∈ items -> 0 < created_at item) ->
   snd (filterNew contactId 0 (seenMessageIds p) items) = items /\
   snd r = message <$> List.filter
                         (fun item => negb (skipped (robotWxid p) item))
                         (rev items)).
Proof.
  intros Hcur. cbn zeta.
  assert (Hsrc : forall m,
            m ∈ snd (pollContact onMessage p contactId (Some items)) ->
            exists item,
              item ∈ items /\
              m = convertToInboundMessage (robotNickname p) item contactId /\
              0 < created_at item /\
              (messageKey contactId item ∉ seenMessageIds p) /\
              skipped (robotWxid p) item = false).
  { intros m Hm. apply delivered_source in Hm.
    now rewrite Hcur in Hm. }
  rewrite Hcur. change (default 0 None) with 0.
  split; [reflexivity |]. split; [exact Hsrc |]. split; [| split; [| split]].
  - intros item Hin. rewrite pollContact_seen, filterNew_seen.
    apply fold_add_elem. right. now apply list_elem_of_fmap_2.
  - intros item Hin Hold Hm.
    apply Hsrc in Hm as (item' & _ & Heq & Hpos & _).
    apply (f_equal timestamp) in Heq.
    unfold convertToInboundMessage in Heq. cbn [timestamp] in Heq. lia.
  - intros Hok i item Hi Hnew Hfirst Hpos Hskip.
    rewrite pollContact_delivered, Hcur. change (default 0 None) with 0.
    rewrite deliver_ok; cycle 1.
    { intros it Hit. apply Hok.
      rewrite rev_is_reverse, elem_of_reverse in Hit.
      now apply filterNew_after in Hit. }
    cbn [fst].
    apply (list_elem_of_fmap_2
             (fun it => convertToInboundMessage (robotNickname p) it contactId)).
    apply list_elem_of_In, filter_In.
    split; [| now rewrite Hskip].
    apply list_elem_of_In. rewrite rev_is_reverse, elem_of_reverse.
    now apply (filterNew_first contactId 0 items (seenMessageIds p) i).
  - intros Hok Hnd Hfresh Hpos.
    assert (Hall :
      List.filter (fun item => 0 <? created_at item) items = items).
    { clear Hnd Hfresh Hsrc Hok. induction items as [| item rest IH];
        [reflexivity |].
      simpl. rewrite (proj2 (Z.ltb_lt _ _)) by (apply Hpos; left).
      f_equal. apply IH. intros it Hit. apply Hpos. now right. }
    split.
    + rewrite filterNew_fresh by assumption. exact Hall.
    + unfold pollContact. rewrite filterNew_fresh by assumption.
      rewrite Hcur. change (default 0 None) with 0. rewrite Hall.
      rewrite deliver_set_seen, deliver_ok.
      * destruct items; reflexivity.
      * intros it Hit. apply Hok.
        now rewrite rev_is_reverse, elem_of_reverse in Hit.
Qed.

Lemma unseeded_contact_first_page_witness :
  let p := Scenario.aliceAt 1000 in
  let page :=
    [Scenario.textItem 3 1500; Scenario.textItem 2 0; Scenario.textItem 1 10] in
  let r := pollContact (fun _ => true) p "wxid_bob" (Some page) in
  convertToInboundMessage None (Scenario.textItem 1 10) "wxid_bob" ∈ snd r /\
  (convertToInboundMessage None (Scenario.textItem 2 0) "wxid_bob" ∉ snd r) /\
  "wxid_bob:2" ∈ seenMessageIds (fst r).
Proof.
  cbn zeta.
  destruct (unseeded_contact_first_page (fun _ => true)
              (Scenario.aliceAt 1000) "wxid_bob"
              [Scenario.textItem 3 1500; Scenario.textItem 2 0;
               Scenario.textItem 1 10])
    as (_ & _ & Hseen & Hold & Hnew & _); [reflexivity |].
  split; [| split].
  - apply (Hnew (fun _ _ => eq_refl) 2%nat (Scenario.textItem 1 10));
      try reflexivity.
    + apply not_elem_of_nil.
    + intros j other Hj Hother.
      destruct j as [| [| j]]; [| | lia]; injection Hother as <-;
        vm_compute; discriminate.
  - apply (Hold (Scenario.textItem 2 0)); [| vm_compute; discriminate].
    apply list_elem_of_further, list_elem_of_here.
  - apply (Hseen (Scenario.textItem 2 0)).
    apply list_elem_of_further, list_elem_of_here.
Defined.

(** C10, as stated, fails on an item whose creation timestamp is 0: a
    contact that joins the friend list after [start()] has no cursor, its
    only item is an unseen plain text message, and the cycle delivers
    nothing, because 0 is not strictly greater than the cursor 0. *)
Lemma unseeded_contact_epoch_item_not_delivered :
  let p :=
    start (createWeChatPoller (Some (Scenario.allContacts 50))) false None
      1700000000 (Scenario.friendsOnly ["wxid_alice"]) in
  let item := Scenario.textItem 1 0 in
  let env :=
    Scenario.quietCycle (Scenario.friendsOnly ["wxid_alice"; "wxid_bob"])
      (fun c => if String.eqb c "wxid_bob" then Some [item] else Some []) in
  lastPollTimestamps p !! "wxid_alice" = Some 1700000000 /\
  lastPollTimestamps p !! "wxid_bob" = None /\
  contactsOf p env = ["wxid_alice"; "wxid_bob"] /\
  Set_has (seenMessageIds p) (messageKey "wxid_bob" item) = false /\
  skipped (robotWxid p) item = false /\
  snd (poll p env) = [].
Proof. vm_compute. repeat split. Qed.

(** *** The cursor after a cycle *)

Lemma fold_max_greatest : forall l a,
  let m := fold_left Z.max l a in
  (m = a \/ m ∈ l) /\ a <= m /\ Forall (fun x => x <= m) l.
Proof.
  induction l as [| x l IH]; intros a; cbn zeta; cbn [fold_left].
  - split; [now left | split; [lia | constructor]].
  - destruct (IH (Z.max a x)) as (Hin & Hle & Hall).
    set (m := fold_left Z.max l (Z.max a x)) in *.
    split; [| split; [lia | constructor; [lia | exact Hall]]].
    destruct Hin as [Hm | Hm]; [| right; now apply list_elem_of_further].
    destruct (Z.max_spec a x) as [[_ E] | [_ E]]; rewrite E in Hm.
    + right. rewrite Hm. apply list_elem_of_here.
    + now left.
Qed.

(** [Math.max] of the page is the greatest [created_at] in it. *)
Lemma maxTimestamp_greatest item rest :
  greatest (maxTimestamp item rest) (created_at <$> item :: rest).
Proof.
  unfold greatest, maxTimestamp. rewrite fmap_cons.
  destruct (fold_max_greatest (created_at <$> rest) (created_at item))
    as (Hin & Hle & Hall).
  split; [| now constructor].
  destruct Hin as [-> | Hin];
    [apply list_elem_of_here | now apply list_elem_of_further].
Qed.

Lemma greatest_unique t t' l : greatest t l -> greatest t' l -> t = t'.
Proof.
  intros [Hin Hall] [Hin' Hall']. rewrite Forall_forall in Hall, Hall'.
  apply Hall' in Hin. apply Hall in Hin'. lia.
Qed.

(** A loop that reaches a contact polled for the last time, with a page
    that is not empty and a callback that resolves on it, leaves that
    page's maximum as the contact's cursor. *)
Lemma pollContacts_last_page env c post item rest : forall pre i p,
  isRunning p = true ->
  c ∉ post ->
  (forall j, (j <= length pre)%nat -> stopRequested env (i + j) = false) ->
  getChatHistory env (i + length pre) c = Some (item :: rest) ->
  (forall it, it ∈ item :: rest ->
     onMessage env (convertToInboundMessage (robotNickname p) it c) = true) ->
  lastPollTimestamps (fst (pollContacts env i p (pre ++ c :: post))) !! c =
    Some (maxTimestamp item rest).
Proof.
  induction pre as [| c' pre IH]; intros i p Hrun Hpost Hstop Hpage Hok.
  - cbn [app pollContacts length] in *. rewrite Nat.add_0_r in Hpage.
    rewrite Hrun. cbn [negb].
    pose proof (Hstop 0%nat (Nat.le_refl 0)) as Hs0.
    rewrite Nat.add_0_r in Hs0. rewrite Hs0, Hpage.
    assert (Hset : lastPollTimestamps
                     (fst (pollContact (onMessage env) p c
                             (Some (item :: rest)))) !! c
                   = Some (maxTimestamp item rest)).
    { unfold pollContact.
      destruct (filterNew c _ (seenMessageIds p) (item :: rest))
        as [seen' kept] eqn:Ef.
      rewrite deliver_set_seen, deliver_ok.
      - cbn [fst set_cursor lastPollTimestamps]. apply lookup_insert_eq.
      - intros it Hit. apply Hok.
        rewrite rev_is_reverse, elem_of_reverse in Hit.
        pose proof (filterNew_after c
                      (default 0 (lastPollTimestamps p !! c))
                      (item :: rest) (seenMessageIds p) it) as H.
        rewrite Ef in H. now apply H. }
    destruct (pollContact _ p c _) as [p1 d1]. cbn [fst] in Hset.
    pose proof (pollContacts_cursor_frame env c post (S i) p1 Hpost) as Hf.
    destruct (pollContacts env (S i) p1 post) as [p2 d2]. cbn [fst] in *.
    now rewrite Hf.
  - cbn [app pollContacts length] in *. rewrite Hrun. cbn [negb].
    pose proof (Hstop 0%nat (Nat.le_0_l _)) as Hs0.
    rewrite Nat.add_0_r in Hs0. rewrite Hs0.
    pose proof (pollContact_fields (onMessage env) p c'
                  (getChatHistory env i c')) as (Hr & _ & _ & Hn).
    destruct (pollContact _ p c' _) as [p1 d1]. cbn [fst] in Hr, Hn.
    specialize (IH (S i) p1).
    destruct (pollContacts env (S i) p1 (pre ++ c :: post)) as [p2 d2].
    cbn [fst] in *. apply IH.
    + congruence.
    + exact Hpost.
    + intros j Hj. replace (S i + j)%nat with (i + S j)%nat by lia.
      apply Hstop. lia.
    + now replace (S i + length pre)%nat with (i + S (length pre))%nat by lia.
    + now rewrite Hn.
Qed.

(** C2 (as amended).  After a cycle the cursor stored for a contact is
    the one stored before or the greatest creation timestamp of a
    non-empty page fetched for that contact in the cycle; hence it has not
    decreased when no such page has its greatest timestamp below the
    cursor stored before the cycle, be that the value seeded by
    [start()].  And when the loop reaches the last position of the contact
    in the list, the page fetched there is not empty and the callback
    resolves on its items, the cursor after the cycle is the greatest
    creation timestamp of that page, whatever was stored before. *)
Theorem cursor_after_cycle p env c :
  let p' := fst (poll p env) in
  (lastPollTimestamps p' !! c = lastPollTimestamps p !! c \/
   exists j page t,
     getChatHistory env j c = Some page /\
     greatest t (created_at <$> page) /\
     lastPollTimestamps p' !! c = Some t) /\
  ((forall j page t v,
      getChatHistory env j c = Some page ->
      greatest t (created_at <$> page) ->
      lastPollTimestamps p !! c = Some v -> v <= t) ->
   forall v, lastPollTimestamps p !! c = Some v ->
     exists v', lastPollTimestamps p' !! c = Some v' /\ v <= v') /\
  (forall pre post page t,
     isRunning p = true ->
     contactsOf p env = pre ++ c :: post -> c ∉ post ->
     (forall j, (j <= length pre)%nat -> stopRequested env j = false) ->
     getChatHistory env (length pre) c = Some page ->
     greatest t (created_at <$> page) ->
     (forall item, item ∈ page ->
        onMessage env (convertToInboundMessage (robotNickname p) item c)
        = true) ->
     lastPollTimestamps p' !! c = Some t).
Proof.
  cbn zeta. rewrite poll_cursors. unfold afterLoop.
  pose proof (pollContacts_cursor env c (contactsOf p env) 0 p) as H.
  cbn zeta in H.
  assert (H' :
    lastPollTimestamps (fst (pollContacts env 0 p (contactsOf p env))) !! c
      = lastPollTimestamps p !! c \/
    exists j page t,
      getChatHistory env j c = Some page /\
      greatest t (created_at <$> page) /\
      lastPollTimestamps (fst (pollContacts env 0 p (contactsOf p env))) !! c
        = Some t).
  { destruct H as [H | (j & item & rest & Hpage & H)]; [now left | right].
    exists j, (item :: rest), (maxTimestamp item rest).
    split; [exact Hpage | split; [apply maxTimestamp_greatest | exact H]]. }
  split; [exact H' |]. split.
  - intros Hpages v Hv.
    destruct H' as [E | (j & page & t & Hpage & Ht & E)]; rewrite E.
    + exists v. split; [assumption | lia].
    + exists t. split; [reflexivity |]. now apply (Hpages j page t v).
  - intros pre post page t Hrun Hcs Hpost Hstop Hpage Ht Hok.
    destruct page as [| item rest].
    { destruct Ht as [Hin _]. now apply elem_of_nil in Hin. }
    rewrite Hcs.
    rewrite (pollContacts_last_page env c post item rest pre 0 p);
      try assumption.
    f_equal. eapply greatest_unique; [apply maxTimestamp_greatest | exact Ht].
Qed.

Lemma cursor_after_cycle_witness :
  exists v',
    lastPollTimestamps
      (fst (poll (Scenario.aliceAt 80)
              (Scenario.quietCycle Scenario.noDirectory
                 (fun _ => Some [Scenario.textItem 2 100;
                                 Scenario.textItem 1 90]))))
      !! "wxid_alice" = Some v' /\ 80 <= v'.
Proof.
  apply (proj1 (proj2 (cursor_after_cycle (Scenario.aliceAt 80)
                         (Scenario.quietCycle Scenario.noDirectory
                            (fun _ => Some [Scenario.textItem 2 100;
                                            Scenario.textItem 1 90]))
                         "wxid_alice"))).
  - intros j page t v Hpage [Hin _] Hv. cbn in Hpage.
    injection Hpage as <-. vm_compute in Hv. injection Hv as <-.
    repeat (apply elem_of_cons in Hin as [-> | Hin]);
      [vm_compute; discriminate .. | now apply elem_of_nil in Hin].
  - reflexivity.
Defined.

(** C2, as stated, fails: [start()] seeds the cursor of [wxid_alice] with
    the wall-clock value 1000; the first page holds one message created at
    900; the cycle overwrites the cursor with 900. *)
Lemma cursor_drops_below_seed :
  let p := Scenario.aliceAt 1000 in
  let env :=
    Scenario.quietCycle Scenario.noDirectory
      (fun _ => Some [Scenario.textItem 1 900]) in
  lastPollTimestamps p !! "wxid_alice" = Some 1000 /\
  lastPollTimestamps (fst (poll p env)) !! "wxid_alice" = Some 900.
Proof. vm_compute. split; reflexivity. Qed.

(** [start()] seeds the cursor of every resolved contact. *)
Lemma seed_lookup now c : forall contactIds q,
  c ∈ contactIds \/ lastPollTimestamps q !! c = Some now ->
  lastPollTimestamps
    (fold_left (fun q contactId => set_cursor q contactId now) contactIds q)
    !! c = Some now.
Proof.
  induction contactIds as [| x l IH]; intros q Hc; cbn [fold_left].
  - destruct Hc as [Hc | Hc]; [now apply elem_of_nil in Hc | assumption].
  - apply IH. destruct Hc as [Hc | Hc].
    + apply elem_of_cons in Hc as [-> | Hc]; [| now left].
      right. cbn [set_cursor lastPollTimestamps]. apply lookup_insert_eq.
    + right. cbn [set_cursor lastPollTimestamps].
      destruct (decide (x = c)) as [-> | Hne];
        [apply lookup_insert_eq | now rewrite lookup_insert_ne].
Qed.

Lemma start_seeds p info now dir c :
  isRunning p = false ->
  c ∈ resolveContactIds (pollingConfig p) dir ->
  lastPollTimestamps (start p false info now dir) !! c = Some now.
Proof.
  intros Hrun Hc. unfold start. rewrite Hrun. apply seed_lookup. left.
  destruct info as [[w n] |]; exact Hc.
Qed.
















End PollingSpec.

(** ** The token resolver *)

Module TokenSpec.
Import JS Token.

(** C5 (as amended).  For a non-default account the resolver takes the
    account's own token, then its token file (a failing read falls
    through), and nothing else: base-level and environment sources are
    never used.  For the default account it never looks into the accounts
    map and takes the base-level token, then the base-level token file,
    then the environment variable.  When every such source is empty the
    result is the empty token with source [none].  A source is empty when
    it is absent or holds white space only; otherwise it yields its text
    without the white space around it: an inline token its text, a token
    file the text of the file at the path it names, the environment
    variable its value. *)
Theorem resolveWeChatToken_order DEFAULT_ACCOUNT_ID readFileSync
    WECHAT_API_TOKEN cfg accountId :
  resolveWeChatToken DEFAULT_ACCOUNT_ID readFileSync WECHAT_API_TOKEN
    cfg accountId =
  (let resolvedAccountId := default DEFAULT_ACCOUNT_ID accountId in
   if String.eqb resolvedAccountId DEFAULT_ACCOUNT_ID then
     firstOf [fromInline (cfg ≫= (fun c => apiToken (base c)));
              fromFile readFileSync (cfg ≫= (fun c => tokenFile (base c)));
              fromEnv WECHAT_API_TOKEN]
   else
     let account := cfg ≫= (fun c => accounts c !! resolvedAccountId) in
     firstOf [fromInline (account ≫= apiToken);
              fromFile readFileSync (account ≫= tokenFile)]) /\
  (forall inline,
     match fromInline inline with
     | Some r => source r = config /\ provides inline (token r)
     | None => vacant inline
     end) /\
  (forall file,
     match fromFile readFileSync file with
     | Some r =>
         source r = configFile /\
         exists path,
           provides file path /\ provides (readFileSync path) (token r)
     | None =>
         vacant file \/
         exists path, provides file path /\ vacant (readFileSync path)
     end) /\
  match fromEnv WECHAT_API_TOKEN with
  | Some r => source r = env /\ provides WECHAT_API_TOKEN (token r)
  | None => vacant WECHAT_API_TOKEN
  end.
Proof.
  split; [| split; [| split]].
  - unfold resolveWeChatToken, fromInline, fromFile, fromEnv. cbn zeta.
    destruct (String.eqb (default DEFAULT_ACCOUNT_ID accountId)
                DEFAULT_ACCOUNT_ID) eqn:Hdef; cbn [negb firstOf].
    + destruct cfg as [c |]; cbn [mbind option_bind];
        [| now destruct (truthy_opt (trim <$> WECHAT_API_TOKEN))].
      destruct (truthy_opt (trim <$> apiToken (base c))); [reflexivity |].
      destruct (truthy_opt (trim <$> tokenFile (base c)));
        [| now destruct (truthy_opt (trim <$> WECHAT_API_TOKEN))].
      destruct (readFileSync _) as [text |];
        [| now destruct (truthy_opt (trim <$> WECHAT_API_TOKEN))].
      destruct (truthy (trim text)); [reflexivity |].
      now destruct (truthy_opt (trim <$> WECHAT_API_TOKEN)).
    + destruct (cfg ≫= _) as [ac |]; cbn [mbind option_bind]; [| reflexivity].
      destruct (truthy_opt (trim <$> apiToken ac)); [reflexivity |].
      destruct (truthy_opt (trim <$> tokenFile ac)); [| reflexivity].
      destruct (readFileSync _) as [text |]; [| reflexivity].
      now destruct (truthy (trim text)).
  - intros inline. unfold fromInline. cbn zeta.
    pose proof (JSProps.trimmed_source inline) as H.
    destruct (truthy_opt (trim <$> inline)); [| exact H].
    cbn [source token]. now split.
  - intros file. unfold fromFile. cbn zeta.
    pose proof (JSProps.trimmed_source file) as H.
    destruct (truthy_opt (trim <$> file)); [| now left].
    pose proof (JSProps.trimmed_source
                  (readFileSync (default "" (trim <$> file)))) as Ht.
    destruct (readFileSync (default "" (trim <$> file))) as [text |] eqn:E.
    + cbn [fmap option_fmap option_map truthy_opt default from_option
           Datatypes.id] in Ht.
      destruct (truthy (trim text)).
      * cbn [source token]. split; [reflexivity |].
        exists (default "" (trim <$> file)). rewrite E. now split.
      * right. exists (default "" (trim <$> file)). rewrite E. now split.
    + right. exists (default "" (trim <$> file)). rewrite E.
      split; [exact H | intros s'; discriminate].
  - unfold fromEnv. cbn zeta.
    pose proof (JSProps.trimmed_source WECHAT_API_TOKEN) as H.
    destruct (truthy_opt (trim <$> WECHAT_API_TOKEN)); [| exact H].
    cbn [source token]. now split.
Qed.

(** C5, as stated, fails for the default account when the accounts map
    has an entry for it: with [accounts.default.apiToken] set and nothing
    at base level or in the environment, the order of the specification
    yields that token, and the resolver yields the empty token. *)
Lemma default_account_entry_ignored :
  let cfg :=
    Some {| base := {| apiToken := None; tokenFile := None |};
            accounts :=
              {[ "default" := {| apiToken := Some "account-token";
                                 tokenFile := None |} ]} |} in
  specifiedOrder "default" (fun _ => None) None cfg (Some "default") =
    {| token := "account-token"; source := config |} /\
  resolveWeChatToken "default" (fun _ => None) None cfg (Some "default") =
    {| token := ""; source := none |}.
Proof. split; vm_compute; reflexivity. Qed.

End TokenSpec.

(** ** The API client *)

Module ApiSpec.
Import Api.

(** C9.  When the body of the response parses as an envelope, a call to
    the backend throws a [WeChatApiError] if and only if the envelope's
    code is not 200, whatever the transport status; the error carries the
    envelope's message (or the default text of the function when it has
    none), its code, and the serialized envelope; with code 200 the
    envelope is returned as it is.  This holds for [callApi] on every
    endpoint and for each function of the client: those that go through
    [callApi] and those that make their request themselves. *)
Theorem callApi_envelope {T : Type} (JSON_stringify : WeChatApiResponse T -> string)
    (endpoint : string) (status : Z) (data : WeChatApiResponse T) :
  let enveloped defaultMessage
        (call : FetchResult T -> Thrown + WeChatApiResponse T) :=
    let result := call (FetchResolved status (inr data)) in
    ((exists m c b, result = inl (WeChatApiError m c b)) <-> code data <> 200) /\
    (code data <> 200 ->
     result =
       inl (WeChatApiError
              (default defaultMessage (message data))
              (Some (code data)) (Some (JSON_stringify data)))) /\
    (code data = 200 -> result = inr data) in
  enveloped ("API error: " +:+ endpoint) (callApi JSON_stringify endpoint) /\
  forall type chatRoomId contactId defaultMessage call,
    (defaultMessage, call)
      ∈ backendCalls JSON_stringify type chatRoomId contactId ->
    enveloped defaultMessage call.
Proof.
  cbn zeta.
  assert (H : forall d,
    let result :=
      if negb (code data =? 200)
      then inl (WeChatApiError (default d (message data)) (Some (code data))
                  (Some (JSON_stringify data)))
      else inr data in
    ((exists m c b, result = inl (WeChatApiError m c b)) <-> code data <> 200) /\
    (code data <> 200 ->
     result =
       inl (WeChatApiError (default d (message data)) (Some (code data))
              (Some (JSON_stringify data)))) /\
    (code data = 200 -> result = inr data)).
  { intros d. cbn zeta. destruct (code data =? 200) eqn:E; cbn [negb].
    - apply Z.eqb_eq in E. split; [| split].
      + split; [intros (m & c & b & H); discriminate | contradiction].
      + contradiction.
      + reflexivity.
    - apply Z.eqb_neq in E. split; [| split].
      + split; [trivial | intros _; eauto].
      + reflexivity.
      + contradiction. }
  split; [apply H |].
  intros type chatRoomId contactId d call Hin. unfold backendCalls in Hin.
  repeat (apply elem_of_cons in Hin as [[= -> ->] | Hin]);
    [apply H .. | now apply elem_of_nil in Hin].
Qed.

Lemma callApi_envelope_witness :
  callApi (fun _ : WeChatApiResponse unit => "{...}") "/api/v1/robot/state"
    (FetchResolved 200
       (inr {| code := 500; message := Some "robot offline"; data := None |})) =
    inl (WeChatApiError "robot offline" (Some 500) (Some "{...}")) /\
  getChatHistory (fun _ : WeChatApiResponse unit => "{...}") "wxid_alice"
    (FetchResolved 502
       (inr {| code := 200; message := Some "ok"; data := Some tt |})) =
    inr {| code := 200; message := Some "ok"; data := Some tt |}.
Proof.
  split.
  - apply (proj1 (proj2 (proj1 (callApi_envelope (fun _ => "{...}")
                                  "/api/v1/robot/state" 200
                                  {| code := 500;
                                     message := Some "robot offline";
                                     data := @None unit |})))).
    cbn. lia.
  - apply (proj2 (proj2 (proj2 (callApi_envelope (fun _ => "{...}")
                                  "/api/v1/robot/state" 502
                                  {| code := 200; message := Some "ok";
                                     data := Some tt |})
                           friend "" "wxid_alice"
                           "Failed to get chat history"
                           (getChatHistory (fun _ => "{...}") "wxid_alice")
                           ltac:(unfold backendCalls;
                                 repeat first [apply list_elem_of_here
                                              | apply list_elem_of_further])))).
    reflexivity.
Defined.

End ApiSpec.

(** ** The inbound dispatcher *)


Module InboundSpec.
Import JS Polling Host.

(** C6.  A group message that does not mention the robot, handled with
    "require mention" in force, makes one call only, the log line of the
    mention check: no line of the access check (which reports the result
    of the allow-list test) is written, no pairing request is registered,
    nothing is sent, routed or dispatched; and the calls are the same
    whatever the allow-list and the policies of the dependencies.  This
    holds for both versions of the handler. *)
Theorem mention_filter_before_access_control {Cfg E Ctx : Type}
    (toLowerCase : string -> string) (msg : WeChatInboundMessage)
    (deps deps' : Inbound.WeChatInboundHandlerDeps Cfg E Ctx)
    (src src' : InboundSrc.WeChatInboundHandlerDeps Cfg E Ctx)
    (now now' : Z) :
  chatType msg = group -> isAtMe msg = false ->
  default true (Inbound.requireMention deps) = true ->
  default true (Inbound.requireMention deps') = true ->
  default true (InboundSrc.requireMention src) = true ->
  default true (InboundSrc.requireMention src') = true ->
  Inbound.handleWeChatInboundMessage toLowerCase msg deps now
    = [ConsoleLog (GroupCheck true false)] /\
  Inbound.handleWeChatInboundMessage toLowerCase msg deps' now'
    = Inbound.handleWeChatInboundMessage toLowerCase msg deps now /\
  InboundSrc.handleWeChatInboundMessage toLowerCase msg src now
    = [ConsoleLog (GroupCheck true false)] /\
  InboundSrc.handleWeChatInboundMessage toLowerCase msg src' now'
    = InboundSrc.handleWeChatInboundMessage toLowerCase msg src now.
Proof.
  intros Hg Ha Hm Hm' Hs Hs'.
  unfold Inbound.handleWeChatInboundMessage,
    InboundSrc.handleWeChatInboundMessage.
  rewrite Hg, Ha, Hm, Hm', Hs, Hs'. cbn. repeat split.
Qed.

Lemma mention_filter_before_access_control_witness :
  Inbound.handleWeChatInboundMessage HostScenario.lowerCase
    (HostScenario.fromCarol group false)
    (HostScenario.deps (Some "pair") (Some ["wxid_carol"]) (Some open)
       (Some open) None) 0
  = [ConsoleLog (GroupCheck true false)] /\
  InboundSrc.handleWeChatInboundMessage HostScenario.lowerCase
    (HostScenario.fromCarol group false)
    (HostScenario.depsSrc (Some "pair") (Some ["wxid_carol"]) (Some open)
       (Some true)) 0
  = [ConsoleLog (GroupCheck true false)].
Proof.
  pose proof (mention_filter_before_access_control HostScenario.lowerCase
                (HostScenario.fromCarol group false)
                (HostScenario.deps (Some "pair") (Some ["wxid_carol"])
                   (Some open) (Some open) None)
                (HostScenario.deps None None (Some disabled) (Some pairing)
                   (Some true))
                (HostScenario.depsSrc (Some "pair") (Some ["wxid_carol"])
                   (Some open) (Some true))
                (HostScenario.depsSrc None None (Some disabled) None)
                0 1 eq_refl eq_refl eq_refl eq_refl eq_refl eq_refl)
    as (H1 & _ & H2 & _).
  split; assumption.
Defined.

(** C7 (as amended).  A message that passes the mention filter, under
    effective policy [pairing], from a sender whose normalized id is not
    in the normalized allow-list: the handler asks the host for a pairing
    reply; when the reply is not empty it registers one pairing request
    and calls [sendMessageWeChat] once with the reply, and when the reply
    is empty it registers and sends nothing; in both cases it returns
    without recording activity, routing or dispatching.  This holds for
    both versions of the handler. *)
Theorem pairing_request_for_unlisted_sender {Cfg E Ctx : Type}
    (toLowerCase : string -> string) (msg : WeChatInboundMessage)
    (deps : Inbound.WeChatInboundHandlerDeps Cfg E Ctx)
    (src : InboundSrc.WeChatInboundHandlerDeps Cfg E Ctx) (now : Z) :
  let count (f : HostCall E Ctx -> bool) calls := length (List.filter f calls) in
  let expected (reply : option string) := if truthy_opt reply then 1%nat else 0%nat in
  let senderId := if isGroup (chatType msg) then chatId msg else senderWxid msg in
  let senderName :=
    if isGroup (chatType msg) then "Group " +:+ chatId msg
    else default (senderWxid msg) (senderNickname msg) in
  (isGroup (chatType msg) && default true (Inbound.requireMention deps)
     && negb (isAtMe msg) = false ->
   (if isGroup (chatType msg)
    then default open (Inbound.groupPolicy deps)
    else default pairing (Inbound.dmPolicy deps)) = pairing ->
   Array_includes (normalizeEntry toLowerCase <$> default [] (Inbound.allowFrom deps))
     (toLowerCase (senderWxid msg)) = false ->
   let calls := Inbound.handleWeChatInboundMessage toLowerCase msg deps now in
   let reply :=
     buildPairingReply (Inbound.runtime deps) (Inbound.cfg deps)
       senderId senderName in
   count isUpsertPairingRequest calls = expected reply /\
   count isSendMessage calls = expected reply /\
   count isRoutingOrDispatch calls = 0%nat /\
   (forall c, c ∈ calls -> isSendMessage c = true ->
      c = SendMessageWeChat senderId (default "" reply) (Inbound.baseUrl deps)
            (Inbound.apiToken deps) (Inbound.robotId deps))) /\
  (isGroup (chatType msg) && default true (InboundSrc.requireMention src)
     && negb (isAtMe msg) = false ->
   default pairing (InboundSrc.dmPolicy src) = pairing ->
   Array_includes (normalizeEntry toLowerCase <$> default [] (InboundSrc.allowFrom src))
     (toLowerCase (senderWxid msg)) = false ->
   let calls := InboundSrc.handleWeChatInboundMessage toLowerCase msg src now in
   let reply :=
     buildPairingReply (InboundSrc.runtime src) (InboundSrc.cfg src)
       senderId senderName in
   count isUpsertPairingRequest calls = expected reply /\
   count isSendMessage calls = expected reply /\
   count isRoutingOrDispatch calls = 0%nat /\
   (forall c, c ∈ calls -> isSendMessage c = true ->
      c = SendMessageWeChat senderId (default "" reply)
            (InboundSrc.baseUrl src) (InboundSrc.apiToken src)
            (InboundSrc.robotId src))).
Proof.
  cbn zeta. split.
  - intros Hpass Hpol Hout.
    unfold Inbound.handleWeChatInboundMessage. cbn zeta.
    rewrite Hpass, Hpol, Hout. cbn [Policy_eqb orb negb andb].
    destruct (isGroup (chatType msg));
      destruct (truthy_opt (buildPairingReply _ _ _ _));
      cbn; (split_and!; [reflexivity .. |]);
      intros c Hc Hsend;
      repeat (apply elem_of_cons in Hc as [-> | Hc]);
      try discriminate Hsend; try reflexivity;
      now apply elem_of_nil in Hc.
  - intros Hpass Hpol Hout.
    unfold InboundSrc.handleWeChatInboundMessage. cbn zeta.
    rewrite Hpass, Hpol, Hout. cbn [Policy_eqb orb negb andb].
    destruct (isGroup (chatType msg));
      destruct (truthy_opt (buildPairingReply _ _ _ _));
      cbn; (split_and!; [reflexivity .. |]);
      intros c Hc Hsend;
      repeat (apply elem_of_cons in Hc as [-> | Hc]);
      try discriminate Hsend; try reflexivity;
      now apply elem_of_nil in Hc.
Qed.

Lemma pairing_request_for_unlisted_sender_witness :
  length (List.filter isUpsertPairingRequest
            (Inbound.handleWeChatInboundMessage HostScenario.lowerCase
               (HostScenario.fromCarol direct false)
               (HostScenario.deps (Some "Pairing code: 1234")
                  (Some ["wx:wxid_dave"]) None None None) 5)) = 1%nat /\
  length (List.filter isSendMessage
            (InboundSrc.handleWeChatInboundMessage HostScenario.lowerCase
               (HostScenario.fromCarol direct false)
               (HostScenario.depsSrc (Some "Pairing code: 1234")
                  (Some ["wx:wxid_dave"]) None None) 5)) = 1%nat.
Proof.
  pose proof (pairing_request_for_unlisted_sender HostScenario.lowerCase
                (HostScenario.fromCarol direct false)
                (HostScenario.deps (Some "Pairing code: 1234")
                   (Some ["wx:wxid_dave"]) None None None)
                (HostScenario.depsSrc (Some "Pairing code: 1234")
                   (Some ["wx:wxid_dave"]) None None) 5) as [H1 H2].
  split.
  - exact (proj1 (H1 eq_refl eq_refl eq_refl)).
  - exact (proj1 (proj2 (H2 eq_refl eq_refl eq_refl))).
Defined.

(** C7, as stated, fails when the host returns no pairing reply: a direct
    message from an unlisted sender under policy [pairing] then registers
    no pairing request and sends nothing. *)
Lemma no_pairing_request_without_reply :
  let msg := HostScenario.fromCarol direct false in
  let deps := HostScenario.deps None (Some ["wxid_dave"]) (Some pairing) None None in
  let src := HostScenario.depsSrc None (Some ["wxid_dave"]) (Some pairing) None in
  Array_includes (normalizeEntry HostScenario.lowerCase <$> ["wxid_dave"])
    (HostScenario.lowerCase (senderWxid msg)) = false /\
  Inbound.handleWeChatInboundMessage HostScenario.lowerCase msg deps 5 =
    [ConsoleLog (AccessCheck "wxid_carol" direct pairing false false false);
     BuildPairingReply "wxid_carol" "Carol"] /\
  InboundSrc.handleWeChatInboundMessage HostScenario.lowerCase msg src 5 =
    [ConsoleLog (AllowlistCheck "wxid_carol" false pairing);
     BuildPairingReply "wxid_carol" "Carol"].
Proof. vm_compute. repeat split. Qed.

End InboundSpec.

(** ** The outbound chunker *)

Module ChannelSpec.
Import Channel.

Lemma lastIndexOf_absent c : forall s i found,
  Forall (fun x => x <> c) s -> lastIndexOf_from i s c found = found.
Proof.
  induction s as [| x s IH]; intros i found Hs; [reflexivity |].
  apply Forall_cons in Hs as [Hx Hs]. cbn [lastIndexOf_from].
  rewrite (proj2 (N.eqb_neq x c) Hx). now apply IH.
Qed.

Lemma noWhiteSpace_lastIndexOf t c :
  noWhiteSpace t -> isWhiteSpace c = true -> lastIndexOf t c = -1.
Proof.
  intros Ht Hc. apply lastIndexOf_absent.
  eapply Forall_impl; [exact Ht |]. intros x Hx ->. congruence.
Qed.

Lemma noWhiteSpace_trimEnd t : noWhiteSpace t -> trimEnd t = t.
Proof.
  induction 1 as [| c t Hc Ht IH]; [reflexivity |].
  cbn [trimEnd]. rewrite IH, Hc. now destruct t.
Qed.

Lemma noWhiteSpace_trimStart t : noWhiteSpace t -> trimStart t = t.
Proof. destruct 1 as [| c t Hc Ht]; [reflexivity |]. cbn. now rewrite Hc. Qed.

Lemma noWhiteSpace_take n t : noWhiteSpace t -> noWhiteSpace (take n t).
Proof. apply Forall_take. Qed.

Lemma noWhiteSpace_drop n t : noWhiteSpace t -> noWhiteSpace (drop n t).
Proof. apply Forall_drop. Qed.

(** One turn of the loop on a text without white space: the chunk is the
    first [limit] code units, the rest remains. *)
Lemma chunkStep_noWhiteSpace limit remaining :
  0 < limit < len remaining -> noWhiteSpace remaining ->
  chunkStep limit remaining =
    (Some (take (Z.to_nat limit) remaining),
     drop (Z.to_nat limit) remaining).
Proof.
  intros [Hpos Hlt] Hws. unfold chunkStep, slice_to, slice_from, len in *.
  rewrite !noWhiteSpace_lastIndexOf
    by (try apply noWhiteSpace_take; trivial).
  change (-1 >? 0) with false. cbn iota.
  change (-1 <=? 0) with true. cbn iota.
  rewrite (noWhiteSpace_trimEnd _ (noWhiteSpace_take _ _ Hws)).
  rewrite length_take.
  replace (Z.to_nat limit `min` length remaining)%nat with (Z.to_nat limit)
    by lia.
  rewrite Z2Nat.id by lia. rewrite (proj2 (Z.ltb_lt 0 limit) Hpos).
  assert (Hnth : match remaining !! Z.to_nat limit with
                 | Some c => isWhiteSpace c
                 | None => false
                 end = false).
  { destruct (remaining !! Z.to_nat limit) as [c |] eqn:E; [| reflexivity].
    apply list_elem_of_lookup_2 in E.
    unfold noWhiteSpace in Hws. rewrite Forall_forall in Hws. now apply Hws. }
  rewrite Hnth, andb_false_r, Z.add_0_r.
  rewrite Z.min_r by lia.
  now rewrite (noWhiteSpace_trimStart _ (noWhiteSpace_drop _ _ Hws)).
Qed.

Lemma chunkLoop_noWhiteSpace limit : forall fuel remaining chunks,
  0 < limit -> noWhiteSpace remaining -> remaining <> [] ->
  (length remaining <= fuel)%nat ->
  exists full last,
    chunkLoop fuel limit remaining chunks = Some (chunks ++ full ++ [last]) /\
    Forall (fun c => len c = limit) full /\
    concat (full ++ [last]) = remaining /\
    0 < len last <= limit.
Proof.
  induction fuel as [| fuel IH]; intros remaining chunks Hpos Hws Hne Hfuel.
  { destruct remaining; [contradiction | cbn in Hfuel; lia]. }
  cbn [chunkLoop]. destruct (len remaining >? limit) eqn:Hlong.
  - apply Z.gtb_lt in Hlong.
    rewrite chunkStep_noWhiteSpace by (auto with lia). cbn iota.
    unfold len in Hlong.
    destruct (IH (drop (Z.to_nat limit) remaining)
                (chunks ++ [take (Z.to_nat limit) remaining]))
      as (full & last & Heq & Hfull & Hcat & Hlast).
    + assumption.
    + now apply noWhiteSpace_drop.
    + intros E. apply (f_equal length) in E.
      rewrite length_drop in E. cbn in E. lia.
    + rewrite length_drop. lia.
    + exists (take (Z.to_nat limit) remaining :: full), last.
      split; [rewrite Heq; f_equal; now rewrite <- app_assoc |].
      split; [| split; [| assumption]].
      * constructor; [| assumption]. unfold len. rewrite length_take. lia.
      * cbn [app concat]. rewrite Hcat. apply take_drop.
  - rewrite Z.gtb_ltb in Hlong. apply Z.ltb_ge in Hlong.
    exists [], remaining. destruct remaining as [| c r]; [contradiction |].
    cbn [app concat]. rewrite app_nil_r.
    unfold len in *. cbn [length] in *.
    repeat split; try constructor; try assumption; lia.
Qed.

(** The fuel never runs out: every turn of the loop shortens
    [remaining], so the chunker returns for every text and limit. *)
Lemma trimStart_length s : (length (trimStart s) <= length s)%nat.
Proof.
  induction s as [| c s IH]; [reflexivity |]. cbn [trimStart].
  destruct (isWhiteSpace c); cbn [length]; lia.
Qed.

Lemma chunkStep_shorter limit remaining :
  0 < limit < len remaining ->
  (length (snd (chunkStep limit remaining)) < length remaining)%nat.
Proof.
  intros [Hpos Hlt]. unfold chunkStep, slice_from, len in *. cbn [snd].
  set (b0 := if lastIndexOf _ LF >? 0 then _ else _).
  set (b := if b0 <=? 0 then limit else b0).
  assert (Hb : 1 <= b).
  { subst b. destruct (b0 <=? 0) eqn:E; [lia |]. apply Z.leb_gt in E. lia. }
  set (sep := (b <? Z.of_nat (length remaining)) && _).
  eapply Nat.le_lt_trans; [apply trimStart_length |].
  rewrite length_drop. destruct sep; lia.
Qed.

Lemma chunkLoop_total limit : forall fuel remaining chunks,
  0 < limit -> (length remaining <= fuel)%nat ->
  exists result, chunkLoop fuel limit remaining chunks = Some result.
Proof.
  induction fuel as [| fuel IH]; intros remaining chunks Hpos Hfuel;
    cbn [chunkLoop]; destruct (len remaining >? limit) eqn:Hlong;
    try (eexists; reflexivity).
  - apply Z.gtb_lt in Hlong. unfold len in Hlong. lia.
  - apply Z.gtb_lt in Hlong.
    pose proof (chunkStep_shorter limit remaining (conj Hpos Hlong)) as Hs.
    destruct (chunkStep limit remaining) as [chunk remaining'].
    cbn [snd] in Hs. apply IH; [assumption | lia].
Qed.

Lemma chunker_total t limit : exists result, chunker t limit = Some result.
Proof.
  unfold chunker. destruct t as [| c r]; [eexists; reflexivity |].
  destruct (limit <=? 0) eqn:Hl; cbn [orb]; [eexists; reflexivity |].
  destruct (len (c :: r) <=? limit); [eexists; reflexivity |].
  apply Z.leb_gt in Hl. now apply chunkLoop_total.
Qed.

(** C8.  For a non-empty text without white space and a positive limit
    smaller than its length, the chunker returns chunks that are each
    exactly [limit] code units long, except the last, which is not empty
    and at most [limit] long; together, in order, they are the text. *)
Theorem chunker_force_breaks_at_limit (t : text) (limit : Z) :
  t <> [] -> noWhiteSpace t -> 0 < limit < len t ->
  exists full last,
    chunker t limit = Some (full ++ [last]) /\
    Forall (fun c => len c = limit) full /\
    0 < len last <= limit /\
    concat (full ++ [last]) = t.
Proof.
  intros Hne Hws [Hpos Hlt]. unfold chunker.
  destruct t as [| c r] eqn:Et; [contradiction |]. rewrite <- Et in *.
  rewrite (proj2 (Z.leb_gt _ _)) by lia.
  rewrite (proj2 (Z.leb_gt _ _)) by lia. cbn [orb].
  destruct (chunkLoop_noWhiteSpace limit (length t) t [] Hpos Hws)
    as (full & last & Heq & Hfull & Hcat & Hlast);
    [congruence | lia |].
  exists full, last. now rewrite Heq.
Qed.

Lemma chunker_force_breaks_at_limit_witness :
  exists full last,
    chunker [97; 98; 99; 100; 101; 102; 103; 104; 105; 106]%N 3 =
      Some (full ++ [last]) /\
    Forall (fun c => len c = 3) full /\
    0 < len last <= 3 /\
    concat (full ++ [last]) =
      [97; 98; 99; 100; 101; 102; 103; 104; 105; 106]%N.
Proof.
  apply (chunker_force_breaks_at_limit
           [97; 98; 99; 100; 101; 102; 103; 104; 105; 106]%N 3).
  - discriminate.
  - repeat constructor.
  - split; reflexivity.
Defined.

(** On that text the chunks are these. *)
Example chunker_ten_by_three :
  chunker [97; 98; 99; 100; 101; 102; 103; 104; 105; 106]%N 3 =
    Some [[97; 98; 99]; [100; 101; 102]; [103; 104; 105]; [106]]%N.
Proof. reflexivity. Qed.

End ChannelSpec.

(** ** The outbound chunker: bounds and content *)

Module ChunkerProps.
Import Channel Notions.

Lemma lastIndexOf_from_range c : forall s i found,
  lastIndexOf_from i s c found = found \/
  i <= lastIndexOf_from i s c found < i + len s.
Proof.
  induction s as [| x s IH]; intros i found; [now left |].
  cbn [lastIndexOf_from]. unfold len in *. cbn [length].
  destruct (IH (i + 1) (if (x =? c)%N then i else found)) as [-> | H].
  - destruct (x =? c)%N; [right; lia | now left].
  - right. lia.
Qed.

Lemma lastIndexOf_range s c :
  lastIndexOf s c = -1 \/ 0 <= lastIndexOf s c < len s.
Proof. apply lastIndexOf_from_range. Qed.

Lemma trimEnd_length s : (length (trimEnd s) <= length s)%nat.
Proof.
  induction s as [| c s IH]; [reflexivity |]. cbn [trimEnd].
  destruct (trimEnd s) as [| d t].
  - destruct (isWhiteSpace c); cbn [length]; lia.
  - cbn [length] in *. lia.
Qed.

Lemma inked_trimEnd s : inked (trimEnd s) = inked s.
Proof.
  unfold inked. induction s as [| c s IH]; [reflexivity |].
  cbn [trimEnd]. destruct (trimEnd s) as [| d t].
  - cbn [List.filter] in *. rewrite <- IH.
    destruct (isWhiteSpace c) eqn:E; cbn [List.filter negb]; now rewrite ?E.
  - change (d :: t) with ([] ++ d :: t) in IH.
    change (c :: d :: t) with ([c] ++ d :: t).
    change (c :: s) with ([c] ++ s).
    rewrite !List.filter_app. cbn [app] in IH. now rewrite IH.
Qed.

Lemma inked_trimStart s : inked (trimStart s) = inked s.
Proof.
  unfold inked. induction s as [| c s IH]; [reflexivity |].
  cbn [trimStart]. destruct (isWhiteSpace c) eqn:E.
  - cbn [List.filter]. now rewrite E.
  - reflexivity.
Qed.

(** One turn of the loop, for a positive limit shorter than the text: it
    cuts at an index [b] between 1 and the limit, and skips the code unit
    at [b] only when that is white space. *)
Lemma chunkStep_cut limit remaining :
  0 < limit < len remaining ->
  exists b (sep : bool),
    1 <= b <= limit /\
    chunkStep limit remaining =
      (if 0 <? len (trimEnd (take (Z.to_nat b) remaining))
       then Some (trimEnd (take (Z.to_nat b) remaining)) else None,
       trimStart (drop (Z.to_nat (b + (if sep then 1 else 0))) remaining)) /\
    (sep = true ->
     exists c, remaining !! Z.to_nat b = Some c /\ isWhiteSpace c = true).
Proof.
  intros [Hpos Hlt]. unfold chunkStep, slice_to, slice_from.
  set (window := take (Z.to_nat limit) remaining).
  assert (Hw : len window = limit).
  { unfold len, window in *. rewrite length_take. lia. }
  set (b0 := if lastIndexOf window LF >? 0 then _ else _).
  assert (Hb0 : b0 < limit).
  { subst b0. destruct (lastIndexOf_range window LF),
      (lastIndexOf_range window SPACE), (lastIndexOf window LF >? 0); lia. }
  set (b := if b0 <=? 0 then limit else b0).
  assert (Hb : 1 <= b <= limit).
  { subst b. destruct (b0 <=? 0) eqn:E; [lia |]. apply Z.leb_gt in E. lia. }
  set (sep := (b <? len remaining) && _).
  exists b, sep. split; [exact Hb |]. split.
  - f_equal. f_equal. f_equal. destruct sep; lia.
  - subst sep. intros [_ H]%andb_prop.
    destruct (remaining !! Z.to_nat b) as [c |]; [eauto | discriminate].
Qed.

Lemma chunkStep_inked limit remaining :
  0 < limit < len remaining ->
  inked (match fst (chunkStep limit remaining) with
         | Some c => c
         | None => []
         end ++ snd (chunkStep limit remaining)) = inked remaining.
Proof.
  intros H. destruct (chunkStep_cut limit remaining H)
    as (b & sep & Hb & -> & Hsep). cbn [fst snd].
  assert (Hpush : inked (match (if 0 <? len (trimEnd (take (Z.to_nat b) remaining))
                                then Some (trimEnd (take (Z.to_nat b) remaining))
                                else None) with
                         | Some c => c
                         | None => []
                         end) = inked (take (Z.to_nat b) remaining)).
  { destruct (0 <? len _) eqn:E; [apply inked_trimEnd |].
    rewrite <- (inked_trimEnd (take (Z.to_nat b) remaining)).
    unfold len in E. apply Z.ltb_ge in E.
    destruct (trimEnd _) as [| x l]; [reflexivity | cbn [length] in E; lia]. }
  unfold inked in *. rewrite List.filter_app, Hpush.
  fold (inked (trimStart (drop (Z.to_nat (b + (if sep then 1 else 0))) remaining))).
  rewrite inked_trimStart. unfold inked.
  rewrite <- (take_drop (Z.to_nat b) remaining) at 3.
  rewrite List.filter_app. f_equal.
  destruct sep; [| now rewrite Z.add_0_r].
  destruct (Hsep eq_refl) as (c & Hc & Hws).
  replace (Z.to_nat (b + 1)) with (S (Z.to_nat b)) by lia.
  rewrite (drop_S _ _ _ Hc). cbn [List.filter]. now rewrite Hws.
Qed.

Lemma chunkStep_chunk limit remaining c :
  0 < limit < len remaining ->
  fst (chunkStep limit remaining) = Some c -> 0 < len c <= limit.
Proof.
  intros H. destruct (chunkStep_cut limit remaining H)
    as (b & sep & Hb & -> & _). cbn [fst].
  destruct (0 <? len _) eqn:E; [| discriminate].
  intros [= <-]. apply Z.ltb_lt in E. split; [exact E |].
  unfold len. pose proof (trimEnd_length (take (Z.to_nat b) remaining)) as Hl.
  rewrite length_take in Hl. lia.
Qed.

Lemma chunkLoop_within limit : forall fuel remaining chunks,
  0 < limit -> (length remaining <= fuel)%nat ->
  Forall (fun c => 0 < len c <= limit) chunks ->
  exists result,
    chunkLoop fuel limit remaining chunks = Some result /\
    Forall (fun c => 0 < len c <= limit) result.
Proof.
  induction fuel as [| fuel IH]; intros remaining chunks Hpos Hfuel Hok;
    cbn [chunkLoop]; destruct (len remaining >? limit) eqn:Hlong.
  - apply Z.gtb_lt in Hlong. unfold len in Hlong. lia.
  - destruct remaining; [| cbn in Hfuel; lia].
    eexists; split; [reflexivity | assumption].
  - apply Z.gtb_lt in Hlong.
    pose proof (ChannelSpec.chunkStep_shorter limit remaining
                  (conj Hpos Hlong)) as Hs.
    pose proof (chunkStep_chunk limit remaining) as Hc.
    destruct (chunkStep limit remaining) as [chunk remaining'].
    cbn [fst snd] in *. apply IH; [assumption | lia |].
    destruct chunk as [c |]; [| assumption].
    apply Forall_app; split; [assumption |].
    constructor; [| constructor]. apply Hc; [lia | reflexivity].
  - rewrite Z.gtb_ltb in Hlong. apply Z.ltb_ge in Hlong.
    eexists; split; [reflexivity |].
    destruct remaining as [| x r]; [assumption |].
    apply Forall_app; split; [assumption |].
    constructor; [| constructor]. unfold len in *. cbn [length] in *. lia.
Qed.

Lemma chunkLoop_inked limit : forall fuel remaining chunks result,
  0 < limit ->
  chunkLoop fuel limit remaining chunks = Some result ->
  inked (concat result) = inked (concat chunks ++ remaining).
Proof.
  induction fuel as [| fuel IH]; intros remaining chunks result Hpos;
    cbn [chunkLoop]; destruct (len remaining >? limit) eqn:Hlong.
  - discriminate.
  - intros [= <-]. destruct remaining; [now rewrite app_nil_r |].
    now rewrite concat_app; cbn [concat]; rewrite app_nil_r.
  - apply Z.gtb_lt in Hlong.
    pose proof (chunkStep_inked limit remaining (conj Hpos Hlong)) as Hi.
    destruct (chunkStep limit remaining) as [chunk remaining'].
    cbn [fst snd] in Hi. intros H. rewrite (IH _ _ _ Hpos H).
    unfold inked in *. rewrite !List.filter_app, <- Hi, List.filter_app.
    destruct chunk as [c |]; [| reflexivity].
    rewrite concat_app, List.filter_app. cbn [concat].
    now rewrite app_nil_r, <- app_assoc.
  - intros [= <-]. destruct remaining; [now rewrite app_nil_r |].
    now rewrite concat_app; cbn [concat]; rewrite app_nil_r.
Qed.

(** X1.  Chunk sizes.  For a positive limit the chunker returns, for every
    text, chunks that are each between one and [limit] code units long. *)
Theorem chunks_fit_the_limit (t : text) (limit : Z) :
  0 < limit ->
  exists chunks,
    chunker t limit = Some chunks /\
    Forall (fun c => 0 < len c <= limit) chunks.
Proof.
  intros Hpos. unfold chunker. destruct t as [| c r] eqn:Et.
  { eexists; split; [reflexivity | constructor]. }
  rewrite <- Et. rewrite (proj2 (Z.leb_gt limit 0)) by lia. cbn [orb].
  destruct (len t <=? limit) eqn:Hshort.
  - eexists; split; [reflexivity |]. apply Z.leb_le in Hshort.
    constructor; [| constructor]. subst t. unfold len in *.
    cbn [length] in *. lia.
  - apply chunkLoop_within; [assumption | lia | constructor].
Qed.

Lemma chunks_fit_the_limit_witness :
  exists chunks,
    chunker [104; 105; 32; 116; 104; 101; 114; 101; 10; 121; 111; 117]%N 5 =
      Some chunks /\
    Forall (fun c => 0 < len c <= 5) chunks.
Proof.
  apply (chunks_fit_the_limit
           [104; 105; 32; 116; 104; 101; 114; 101; 10; 121; 111; 117]%N 5).
  reflexivity.
Defined.

(** X2.  Content.  For every text and limit the chunker returns, and the code
    units of the chunks that are not white space are, in order, those of
    the text: it drops white space only, and never reorders. *)
Theorem chunks_keep_all_but_white_space (t : text) (limit : Z) :
  exists chunks,
    chunker t limit = Some chunks /\
    inked (concat chunks) = inked t.
Proof.
  destruct (ChannelSpec.chunker_total t limit) as [chunks Hc].
  exists chunks. split; [exact Hc |]. revert Hc. unfold chunker.
  destruct t as [| c r] eqn:Et; [now intros [= <-] |]. rewrite <- Et.
  destruct (limit <=? 0) eqn:Hl; cbn [orb].
  { intros [= <-]. cbn [concat]. now rewrite app_nil_r. }
  destruct (len t <=? limit).
  { intros [= <-]. cbn [concat]. now rewrite app_nil_r. }
  apply Z.leb_gt in Hl. intros H.
  now rewrite (chunkLoop_inked limit _ _ _ _ Hl H).
Qed.

End ChunkerProps.

(** ** The poller: what is delivered, and when *)

Module PollerProps.
Import JS Types Polling Notions.

(** *** Identity keys *)

Lemma noColon_append a b : noColon (a +:+ b) = noColon a && noColon b.
Proof.
  induction a as [| c a IH]; [reflexivity |].
  rewrite JSProps.append_cons. cbn [noColon]. now rewrite IH, andb_assoc.
Qed.

Lemma digits_noColon d : noColon (NilEmpty.string_of_uint d) = true.
Proof. induction d; cbn; try reflexivity; exact IHd. Qed.

Lemma string_of_uint_noColon d : noColon (NilZero.string_of_uint d) = true.
Proof. destruct d; try reflexivity; apply (digits_noColon (_ d)). Qed.

Lemma decimal_noColon z : noColon (decimal z) = true.
Proof.
  unfold decimal. destruct (Z.to_int z) as [d | d];
    cbn [NilZero.string_of_int noColon]; apply string_of_uint_noColon.
Qed.

Lemma significand_noColon s :
  noColon s = true -> noColon (significand s) = true.
Proof.
  induction s as [| c s IH]; [reflexivity |]. cbn [noColon significand].
  intros H. apply andb_prop in H as [Hc Hs]. specialize (IH Hs).
  destruct (significand s) as [| d t].
  - destruct (Ascii.eqb c "0"); [reflexivity |]. cbn [noColon].
    now rewrite Hc.
  - change (noColon (String c (String d t)))
      with (negb (Ascii.eqb c ":") && noColon (String d t)).
    now rewrite Hc, IH.
Qed.

Lemma exponential_noColon c : noColon (exponential c) = true.
Proof.
  unfold exponential.
  pose proof (significand_noColon _ (decimal_noColon c)) as H.
  destruct (significand (decimal c)) as [| d [| e rest]]; [reflexivity | |].
  - cbn [noColon] in H. apply andb_prop in H as [Hd _].
    rewrite noColon_append, decimal_noColon. cbn [noColon].
    now rewrite Hd.
  - change (noColon (String d (String e rest)))
      with (negb (Ascii.eqb d ":") && noColon (String e rest)) in H.
    apply andb_prop in H as [Hd Hr].
    rewrite noColon_append.
    change (noColon (String d ("." +:+ String e rest)))
      with (negb (Ascii.eqb d ":") && noColon ("." +:+ String e rest)).
    rewrite !noColon_append, decimal_noColon, Hd, Hr. reflexivity.
Qed.

(** The text of a number holds no colon. *)
Lemma String_of_number_noColon z : noColon (String_of_number z) = true.
Proof.
  unfold String_of_number. cbn zeta.
  destruct (Z.abs z <? 2 ^ 53); [apply decimal_noColon |].
  rewrite noColon_append. apply andb_true_intro. split.
  - now destruct (z <? 0).
  - destruct (2 ^ 1024 - 2 ^ 970 <=? Z.abs z); [reflexivity |].
    destruct (_ <? 10 ^ 21);
      [apply decimal_noColon | apply exponential_noColon].
Qed.

Lemma last_colon_splits c1 : forall c2 x y,
  noColon x = true -> noColon y = true ->
  c1 +:+ String ":" x = c2 +:+ String ":" y -> c1 = c2 /\ x = y.
Proof.
  induction c1 as [| a c1 IH]; intros [| b c2] x y Hx Hy H; cbn in H.
  - injection H as ->. now split.
  - injection H as <- ->. exfalso. clear -Hx.
    induction c2 as [| d c2 IH]; cbn in Hx; [discriminate |].
    apply andb_prop in Hx as [_ Hx]. auto.
  - injection H as -> <-. exfalso. clear -Hy.
    induction c1 as [| d c1 IH]; cbn in Hy; [discriminate |].
    apply andb_prop in Hy as [_ Hy]. auto.
  - injection H as -> H. destruct (IH _ _ _ Hx Hy H) as [-> ->]. now split.
Qed.

(** Just above [2^53] the doubles are the even integers: an odd integer
    is read as a neighbour, the one whose half is even. *)
Lemma toDouble_above_safe k :
  2 ^ 51 <= k < 2 ^ 52 ->
  toDouble (4 * k) = 4 * k /\ toDouble (4 * k + 1) = 4 * k.
Proof.
  intros Hk.
  assert (H53 : 2 ^ 53 = 4 * 2 ^ 51) by reflexivity.
  assert (H54 : 2 ^ 54 = 4 * 2 ^ 52) by reflexivity.
  assert (L0 : Z.log2 (4 * k) = 53)
    by (apply Z.log2_unique; [lia |]; change (2 ^ (53 + 1)) with (2 ^ 54); lia).
  assert (L1 : Z.log2 (4 * k + 1) = 53)
    by (apply Z.log2_unique; [lia |]; change (2 ^ (53 + 1)) with (2 ^ 54); lia).
  unfold toDouble. rewrite L0, L1.
  change (53 <=? 52) with false. change (2 ^ (53 - 52)) with 2.
  change (2 / 2) with 1. cbn zeta.
  assert (Q0 : 4 * k / 2 = 2 * k)
    by (symmetry; apply Z.div_unique with 0; lia).
  assert (R0 : (4 * k) mod 2 = 0)
    by (symmetry; apply Z.mod_unique with (2 * k); lia).
  assert (Q1 : (4 * k + 1) / 2 = 2 * k)
    by (symmetry; apply Z.div_unique with 1; lia).
  assert (R1 : (4 * k + 1) mod 2 = 1)
    by (symmetry; apply Z.mod_unique with (2 * k); lia).
  rewrite Q0, R0, Q1, R1.
  change (1 <? 0) with false. change (0 =? 1) with false.
  change (1 <? 1) with false. change (1 =? 1) with true.
  rewrite Z.odd_mul. cbn [Z.odd orb andb]. split; lia.
Qed.

(** X3.  Identity keys.  Two items get the same identity key exactly when
    they belong to the same contact and their [msg_id]s are printed alike,
    whatever the contact ids are (colons included).  Message ids that are
    safe integers are printed alike only when they are equal; beyond
    [2^53] different ids of the backend are read as one number and get
    one key. *)
Theorem identity_key_injective c1 c2 i1 i2 :
  (messageKey c1 i1 = messageKey c2 i2 <->
   c1 = c2 /\ String_of_number (msg_id i1) = String_of_number (msg_id i2)) /\
  (isSafeInteger (msg_id i1) -> isSafeInteger (msg_id i2) ->
   (messageKey c1 i1 = messageKey c2 i2 <->
    c1 = c2 /\ msg_id i1 = msg_id i2)) /\
  (forall k, 2 ^ 51 <= k < 2 ^ 52 ->
     msg_id i1 = 4 * k -> msg_id i2 = 4 * k + 1 ->
     messageKey c1 i1 = messageKey c1 i2).
Proof.
  assert (H : messageKey c1 i1 = messageKey c2 i2 <->
              c1 = c2 /\
              String_of_number (msg_id i1) = String_of_number (msg_id i2)).
  { unfold messageKey. split.
    - intros H. change (":" +:+ ?x) with (String ":" x) in H.
      now apply last_colon_splits in H; try apply String_of_number_noColon.
    - now intros [-> ->]. }
  split; [exact H |]. split.
  - intros S1 S2. rewrite H. split; intros [-> E]; split; try reflexivity.
    + now apply JSProps.String_of_number_inj.
    + now rewrite E.
  - intros k Hk E1 E2. unfold messageKey. rewrite E1, E2. do 2 f_equal.
    destruct (toDouble_above_safe k Hk) as [T0 T1].
    assert (H53 : 2 ^ 53 = 4 * 2 ^ 51) by reflexivity.
    assert (Hbig : 4 * 2 ^ 52 <= 2 ^ 1024 - 2 ^ 970)
      by (vm_compute; discriminate).
    unfold String_of_number. cbn zeta.
    rewrite !Z.abs_eq by lia.
    rewrite (proj2 (Z.ltb_ge (4 * k) (2 ^ 53))) by lia.
    rewrite (proj2 (Z.ltb_ge (4 * k + 1) (2 ^ 53))) by lia.
    rewrite (proj2 (Z.ltb_ge (4 * k) 0)) by lia.
    rewrite (proj2 (Z.ltb_ge (4 * k + 1) 0)) by lia.
    rewrite (proj2 (Z.leb_gt (2 ^ 1024 - 2 ^ 970) (4 * k))) by lia.
    rewrite (proj2 (Z.leb_gt (2 ^ 1024 - 2 ^ 970) (4 * k + 1))) by lia.
    now rewrite T0, T1.
Qed.

(** *** Where a delivered message comes from *)

Lemma pollContact_origin onMessage p c response m :
  m ∈ snd (pollContact onMessage p c response) ->
  exists items item,
    response = Some items /\ item ∈ items /\
    default 0 (lastPollTimestamps p !! c) < created_at item /\
    skipped (robotWxid p) item = false /\
    m = convertToInboundMessage (robotNickname p) item c.
Proof.
  destruct response as [items |]; [| intros H; now apply elem_of_nil in H].
  rewrite PollingSpec.pollContact_delivered. intros H.
  apply PollingSpec.deliver_origin in H as (item & Hin & Hs & ->).
  rewrite PollingSpec.rev_is_reverse, elem_of_reverse in Hin.
  apply PollingSpec.filterNew_after in Hin as [Hin Hafter].
  exists items, item. now repeat split.
Qed.

Lemma skipped_fromSomeoneElse robotWxid nick item c :
  skipped robotWxid item = false ->
  fromSomeoneElse robotWxid (convertToInboundMessage nick item c) = true.
Proof.
  unfold skipped, fromSomeoneElse, convertToInboundMessage.
  cbn [messageType isRecalled senderWxid].
  intros H. apply orb_false_elim in H as [H Ht].
  apply orb_false_elim in H as [H Hr].
  apply orb_false_elim in H as [_ Hw].
  apply negb_false_iff in Ht. rewrite Ht, Hr, Hw. reflexivity.
Qed.

Lemma pollContact_fromSomeoneElse onMessage p c response :
  Forall (fun m => fromSomeoneElse (robotWxid p) m = true)
    (snd (pollContact onMessage p c response)).
Proof.
  apply Forall_forall. intros m Hm.
  apply pollContact_origin in Hm as (items & item & _ & _ & _ & Hs & ->).
  now apply skipped_fromSomeoneElse.
Qed.

Lemma pollContacts_fromSomeoneElse env : forall contactIds i p,
  Forall (fun m => fromSomeoneElse (robotWxid p) m = true)
    (snd (pollContacts env i p contactIds)).
Proof.
  induction contactIds as [| c rest IH]; intros i p; cbn [pollContacts].
  { constructor. }
  destruct (isRunning p); cbn [negb]; [| constructor].
  destruct (stopRequested env i); [constructor |].
  pose proof (pollContact_fromSomeoneElse (onMessage env) p c
                (getChatHistory env i c)) as H1.
  pose proof (PollingSpec.pollContact_fields (onMessage env) p c
                (getChatHistory env i c)) as (_ & _ & Hw & _).
  destruct (pollContact _ p c _) as [p1 d1]. cbn [fst snd] in *.
  specialize (IH (S i) p1). rewrite Hw in IH.
  destruct (pollContacts env (S i) p1 rest) as [p2 d2]. cbn [snd] in *.
  apply Forall_app. now split.
Qed.

Lemma poll_fromSomeoneElse p env :
  Forall (fun m => fromSomeoneElse (robotWxid p) m = true) (snd (poll p env)).
Proof.
  unfold poll. destruct (resolveContactIds _ _) as [| c cs]; [constructor |].
  pose proof (pollContacts_fromSomeoneElse env (c :: cs) 0 p) as H.
  destruct (pollContacts env 0 p (c :: cs)) as [p1 ds]. exact H.
Qed.

(** X4.  The skips.  Whatever the pages and the outcomes of the callback, every
    message handed to the callback over any number of cycles is a text
    message (type 1) that is not recalled and was not sent by the robot
    whose id the poller fetched at start. *)
Theorem only_text_of_others_is_delivered p envs :
  Forall (fun m => fromSomeoneElse (robotWxid p) m = true) (snd (run p envs)).
Proof.
  revert p. induction envs as [| env rest IH]; intros p; cbn [run].
  { constructor. }
  destruct (isRunning p); [| constructor].
  pose proof (poll_fromSomeoneElse p env) as H1.
  pose proof (PollingSpec.poll_fields p env) as (_ & Hw & _).
  destruct (poll p env) as [p1 d1]. cbn [fst snd] in *.
  specialize (IH p1). rewrite Hw in IH.
  destruct (run p1 rest) as [p2 d2]. cbn [snd] in *.
  apply Forall_app. now split.
Qed.

Lemma delivered_after onMessage p c response :
  Forall (fun m => 1000 * default 0 (lastPollTimestamps p !! c) < timestamp m)
    (snd (pollContact onMessage p c response)).
Proof.
  apply Forall_forall. intros m Hm.
  apply pollContact_origin in Hm as (items & item & _ & _ & Hafter & _ & ->).
  unfold convertToInboundMessage. cbn [timestamp]. lia.
Qed.

Lemma pollContact_chat onMessage p c response :
  Forall (fun m => chatId m = c) (snd (pollContact onMessage p c response)).
Proof.
  apply Forall_forall. intros m Hm.
  now apply pollContact_origin in Hm as (items & item & _ & _ & _ & _ & ->).
Qed.

Lemma pollContacts_after env p : forall cs i q,
  NoDup cs ->
  (forall c, c ∈ cs -> lastPollTimestamps q !! c = lastPollTimestamps p !! c) ->
  Forall (fun m => 1000 * default 0 (lastPollTimestamps p !! chatId m)
                   < timestamp m)
    (snd (pollContacts env i q cs)).
Proof.
  induction cs as [| c rest IH]; intros i q Hnd Hsame; cbn [pollContacts].
  { constructor. }
  apply NoDup_cons in Hnd as [Hc Hnd].
  destruct (isRunning q); cbn [negb]; [| constructor].
  destruct (stopRequested env i); [constructor |].
  pose proof (delivered_after (onMessage env) q c (getChatHistory env i c))
    as Hafter.
  pose proof (pollContact_chat (onMessage env) q c (getChatHistory env i c))
    as Hchat.
  assert (Hrest : forall c', c' ∈ rest ->
            lastPollTimestamps
              (fst (pollContact (onMessage env) q c (getChatHistory env i c)))
              !! c' = lastPollTimestamps p !! c').
  { intros c' Hc'.
    destruct (PollingSpec.pollContact_cursor (onMessage env) q c
                (getChatHistory env i c) c') as [E | [-> _]];
      [| contradiction].
    rewrite E. apply Hsame. now apply list_elem_of_further. }
  destruct (pollContact _ q c _) as [q1 d1]. cbn [fst snd] in *.
  specialize (IH (S i) q1 Hnd Hrest).
  destruct (pollContacts env (S i) q1 rest) as [q2 d2]. cbn [snd] in *.
  apply Forall_app. split; [| exact IH].
  rewrite Forall_forall in Hafter, Hchat. apply Forall_forall.
  intros m Hm. rewrite (Hchat m Hm).
  rewrite <- (Hsame c) by apply list_elem_of_here. now apply Hafter.
Qed.

(** X5.  The cursor as a filter.  In a cycle whose contact list names no
    contact twice, every message delivered was created after the cursor
    its chat had when the cycle began (0 for a chat without one); its
    timestamp is in milliseconds, the cursor in seconds. *)
Theorem delivered_is_newer_than_cursor p env :
  NoDup (contactsOf p env) ->
  Forall (fun m => 1000 * default 0 (lastPollTimestamps p !! chatId m)
                   < timestamp m)
    (snd (poll p env)).
Proof.
  intros Hnd. unfold poll. unfold contactsOf in Hnd.
  destruct (resolveContactIds _ _) as [| c cs] eqn:E; [constructor |].
  pose proof (pollContacts_after env p (c :: cs) 0 p Hnd
                (fun _ _ => eq_refl)) as H.
  now destruct (pollContacts env 0 p (c :: cs)).
Qed.

Lemma delivered_is_newer_than_cursor_witness :
  let env :=
    Scenario.quietCycle Scenario.noDirectory
      (fun _ => Some [Scenario.textItem 3 100; Scenario.textItem 2 80;
                      Scenario.textItem 1 60]) in
  let p := Scenario.aliceAt 80 in
  lastPollTimestamps p !! "wxid_alice" = Some 80 /\
  timestamp <$> snd (poll p env) = [100000] /\
  Forall (fun m => 1000 * default 0 (lastPollTimestamps p !! chatId m)
                   < timestamp m)
    (snd (poll p env)).
Proof.
  cbn zeta. split; [reflexivity |]. split; [reflexivity |].
  exact (delivered_is_newer_than_cursor (Scenario.aliceAt 80)
           (Scenario.quietCycle Scenario.noDirectory
              (fun _ => Some [Scenario.textItem 3 100; Scenario.textItem 2 80;
                              Scenario.textItem 1 60]))
           ltac:(apply (bool_decide_unpack _); vm_compute; exact I)).
Defined.

(** *** Items that were fetched once *)



(** *** The callback and the cursor *)

Lemma deliver_outcome onMessage p c : forall items,
  let r := deliver onMessage p c items in
  if snd r then forallb onMessage (fst r) = true
  else exists ds m,
         fst r = ds ++ [m] /\ onMessage m = false /\
         forallb onMessage ds = true.
Proof.
  induction items as [| item rest IH]; cbn zeta; cbn [deliver];
    [reflexivity |].
  destruct (skipped (robotWxid p) item); [exact IH |].
  destruct (onMessage (convertToInboundMessage _ item c)) eqn:Hm.
  - cbn zeta in IH. destruct (deliver onMessage p c rest) as [ds ok].
    cbn [fst snd] in *. destruct ok.
    + cbn [forallb]. now rewrite Hm, IH.
    + destruct IH as (ds' & m & -> & Hrej & Hall).
      exists (convertToInboundMessage (robotNickname p) item c :: ds'), m.
      cbn [forallb]. now rewrite Hm, Hall.
  - cbn [fst snd].
    exists [], (convertToInboundMessage (robotNickname p) item c).
    now repeat split.
Qed.

Lemma forallb_snoc_false {A} (f : A -> bool) ds m :
  f m = false -> forallb f (ds ++ [m]) = false.
Proof.
  intros H. rewrite forallb_app. cbn [forallb]. rewrite H.
  now rewrite andb_false_r.
Qed.

(** X7.  The callback and the cursor.  When the callback resolves on every
    message it is handed, a fetched page that is not empty sets the
    contact's cursor to the greatest [created_at] of the page, and an
    empty page leaves the cursors as they are.  When the callback rejects,
    the rejected message is the last one delivered from that page and no
    cursor changes. *)
Theorem cursor_moves_unless_callback_rejects onMessage p c items :
  let r := pollContact onMessage p c (Some items) in
  if forallb onMessage (snd r) then
    match items with
    | [] => lastPollTimestamps (fst r) = lastPollTimestamps p
    | _ =>
        exists t,
          greatest t (created_at <$> items) /\
          lastPollTimestamps (fst r) = <[c := t]> (lastPollTimestamps p)
    end
  else
    lastPollTimestamps (fst r) = lastPollTimestamps p /\
    exists ds m,
      snd r = ds ++ [m] /\ onMessage m = false /\ forallb onMessage ds = true.
Proof.
  cbn zeta. unfold pollContact.
  destruct (filterNew c _ (seenMessageIds p) items) as [seen' kept].
  pose proof (deliver_outcome onMessage (set_seen p seen') c (rev kept)) as H.
  cbn zeta in H.
  destruct (deliver onMessage (set_seen p seen') c (rev kept)) as [ds ok].
  cbn [fst snd] in H. destruct ok.
  - destruct items as [| item rest]; cbn [fst snd]; rewrite H;
      [reflexivity |].
    exists (maxTimestamp item rest).
    split; [apply PollingSpec.maxTimestamp_greatest | reflexivity].
  - destruct H as (ds' & m & -> & Hrej & Hall). cbn [fst snd].
    rewrite (forallb_snoc_false _ _ _ Hrej). split; [reflexivity |].
    now exists ds', m.
Qed.

(** *** Stopping *)

Lemma pollContacts_stop env : forall cs i p k,
  isRunning p = true -> stopRequested env (i + k) = true ->
  (k < length cs)%nat ->
  isRunning (fst (pollContacts env i p cs)) = false /\
  Forall (fun m => chatId m ∈ take k cs) (snd (pollContacts env i p cs)).
Proof.
  induction cs as [| c rest IH]; intros i p k Hrun Hstop Hk;
    [cbn in Hk; lia |].
  cbn [pollContacts]. rewrite Hrun. cbn [negb].
  destruct (stopRequested env i) eqn:Hi; [split; [reflexivity | constructor] |].
  destruct k as [| k]; [rewrite Nat.add_0_r in Hstop; congruence |].
  pose proof (pollContact_chat (onMessage env) p c (getChatHistory env i c))
    as Hc.
  pose proof (PollingSpec.pollContact_fields (onMessage env) p c
                (getChatHistory env i c)) as (Hr & _).
  destruct (pollContact _ p c _) as [p1 d1]. cbn [fst snd] in *.
  destruct (IH (S i) p1 k) as [Hoff Hin];
    [congruence | now rewrite <- Nat.add_succ_comm in Hstop
     | cbn [length] in Hk; lia |].
  destruct (pollContacts env (S i) p1 rest) as [p2 d2]. cbn [fst snd] in *.
  split; [exact Hoff |]. cbn [take]. apply Forall_app. split.
  - eapply Forall_impl; [exact Hc |]. intros m ->.
    apply elem_of_cons. now left.
  - eapply Forall_impl; [exact Hin |]. intros m H.
    apply elem_of_cons. now right.
Qed.

(** X8.  Stopping.  When [stop()] is called, or the abort signal fires, by the
    time the loop of a cycle reaches position [k] of the contact list, the
    cycle delivers messages of the first [k] contacts only, it leaves the
    poller stopped, and no later cycle runs. *)
Theorem stop_request_ends_polling p env rest k :
  isRunning p = true ->
  (k < length (contactsOf p env))%nat ->
  stopRequested env k = true ->
  isRunning (fst (poll p env)) = false /\
  Forall (fun m => chatId m ∈ take k (contactsOf p env)) (snd (poll p env)) /\
  run p (env :: rest) = poll p env.
Proof.
  intros Hrun Hk Hstop.
  assert (Hne : contactsOf p env <> []).
  { intros E. rewrite E in Hk. cbn in Hk. lia. }
  destruct (pollContacts_stop env (contactsOf p env) 0 p k Hrun Hstop Hk)
    as [Hoff Hin].
  assert (Hfst : isRunning (fst (poll p env)) = false).
  { rewrite (PollingSpec.poll_unfold p env Hne). exact Hoff. }
  split; [exact Hfst |]. split.
  - now rewrite (PollingSpec.poll_unfold p env Hne).
  - cbn [run]. rewrite Hrun. destruct (poll p env) as [p1 d1].
    cbn [fst] in Hfst. destruct rest as [| e rest]; cbn [run];
      rewrite ?Hfst; now rewrite app_nil_r.
Qed.

Lemma stop_request_ends_polling_witness :
  let p :=
    start (createWeChatPoller
             (Some (Scenario.explicitContacts ["wxid_alice"; "wxid_bob"])))
      false None 80 Scenario.noDirectory in
  let env :=
    {| directory := Scenario.noDirectory;
       stopRequested := fun i => (1 <=? i)%nat;
       getChatHistory := fun _ _ => Some [Scenario.textItem 1 90];
       onMessage := fun _ => true |} in
  id <$> snd (poll p env) = ["wxid_alice:1"] /\
  run p [env; env] = poll p env.
Proof.
  cbn zeta.
  destruct (stop_request_ends_polling
              (start (createWeChatPoller
                        (Some (Scenario.explicitContacts
                                 ["wxid_alice"; "wxid_bob"])))
                 false None 80 Scenario.noDirectory)
              {| directory := Scenario.noDirectory;
                 stopRequested := fun i => (1 <=? i)%nat;
                 getChatHistory := fun _ _ => Some [Scenario.textItem 1 90];
                 onMessage := fun _ => true |}
              [{| directory := Scenario.noDirectory;
                  stopRequested := fun i => (1 <=? i)%nat;
                  getChatHistory := fun _ _ => Some [Scenario.textItem 1 90];
                  onMessage := fun _ => true |}] 1)
    as (_ & _ & H); [reflexivity | cbn; lia | reflexivity |].
  split; [reflexivity | exact H].
Defined.

(** *** The contact list *)

Lemma push_upto_take maxContacts : forall l acc,
  push_upto maxContacts acc l =
  acc ++ take (Z.to_nat maxContacts - length acc) l.
Proof.
  induction l as [| w l IH]; intros acc; unfold push_upto in *;
    cbn [fold_left].
  - now rewrite take_nil, app_nil_r.
  - destruct (Z.of_nat (length acc) >=? maxContacts) eqn:E.
    + rewrite IH. apply Z.geb_le in E.
      replace (Z.to_nat maxContacts - length acc)%nat with 0%nat by lia.
      reflexivity.
    + rewrite IH, length_app. cbn [length].
      assert (Z.of_nat (length acc) < maxContacts).
      { rewrite Z.geb_leb in E. now apply Z.leb_gt in E. }
      replace (Z.to_nat maxContacts - length acc)%nat
        with (S (Z.to_nat maxContacts - (length acc + 1)))%nat by lia.
      cbn [take]. now rewrite <- app_assoc.
Qed.

Lemma from_directory maxContacts dir :
  match friends dir with
  | None => []
  | Some fs =>
      let contactIds := push_upto maxContacts [] fs in
      if Z.of_nat (length contactIds) <? maxContacts then
        match rooms dir with
        | None => contactIds
        | Some rs => push_upto maxContacts contactIds rs
        end
      else contactIds
  end =
  match friends dir with
  | None => []
  | Some fs => take (Z.to_nat maxContacts) (fs ++ default [] (rooms dir))
  end.
Proof.
  destruct (friends dir) as [fs |]; [| reflexivity]. cbn zeta.
  rewrite !push_upto_take. cbn [app length]. rewrite Nat.sub_0_r.
  destruct (Z.of_nat (length (take (Z.to_nat maxContacts) fs))
            <? maxContacts) eqn:E.
  - apply Z.ltb_lt in E. rewrite length_take in E.
    rewrite (take_ge fs) by lia.
    destruct (rooms dir) as [rs |]; cbn [default from_option Datatypes.id].
    + rewrite push_upto_take. now rewrite take_app_ge by lia.
    + rewrite app_nil_r. now rewrite take_ge by lia.
  - apply Z.ltb_ge in E. rewrite length_take in E.
    now rewrite take_app_le by lia.
Qed.

(** X9.  The contact list from the directory.  Without explicit contact ids
    and with [pollAllContacts] set, the contacts polled are the first
    [maxPollContacts] (50 by default) of the friends followed by the chat
    rooms; when the room list cannot be fetched the friends alone, and
    when the friend list cannot be fetched none at all. *)
Theorem directory_contacts_are_capped c dir :
  pollContactIds c = None \/ pollContactIds c = Some [] ->
  pollAllContacts c = Some true ->
  let maxContacts := default DEFAULT_MAX_POLL_CONTACTS (maxPollContacts c) in
  resolveContactIds (Some c) dir =
    match friends dir with
    | None => []
    | Some fs => take (Z.to_nat maxContacts) (fs ++ default [] (rooms dir))
    end /\
  (length (resolveContactIds (Some c) dir) <= Z.to_nat maxContacts)%nat.
Proof.
  intros Hids Hall. cbn zeta.
  assert (Heq : resolveContactIds (Some c) dir =
                match friends dir with
                | None => []
                | Some fs =>
                    take (Z.to_nat (default DEFAULT_MAX_POLL_CONTACTS
                                      (maxPollContacts c)))
                      (fs ++ default [] (rooms dir))
                end).
  { rewrite <- from_directory. unfold resolveContactIds.
    destruct Hids as [-> | ->]; now rewrite Hall. }
  split; [exact Heq |]. rewrite Heq.
  destruct (friends dir); [rewrite length_take | cbn]; lia.
Qed.

Lemma directory_contacts_are_capped_witness :
  resolveContactIds (Some (Scenario.allContacts 3))
    {| friends := Some ["wxid_a"; "wxid_b"];
       rooms := Some ["1@chatroom"; "2@chatroom"] |} =
  ["wxid_a"; "wxid_b"; "1@chatroom"].
Proof.
  apply (directory_contacts_are_capped (Scenario.allContacts 3)
           {| friends := Some ["wxid_a"; "wxid_b"];
              rooms := Some ["1@chatroom"; "2@chatroom"] |}).
  - now left.
  - reflexivity.
Defined.

(** *** Starting *)

Lemma seed_frame now c : forall contactIds q,
  c ∉ contactIds ->
  lastPollTimestamps
    (fold_left (fun q contactId => set_cursor q contactId now) contactIds q)
    !! c = lastPollTimestamps q !! c.
Proof.
  induction contactIds as [| x l IH]; intros q Hc; cbn [fold_left];
    [reflexivity |].
  apply not_elem_of_cons in Hc as [Hne Hc]. rewrite IH by assumption.
  cbn [set_cursor lastPollTimestamps]. now rewrite lookup_insert_ne.
Qed.

Lemma seed_fields now : forall contactIds q,
  let q' := fold_left (fun q contactId => set_cursor q contactId now)
              contactIds q in
  isRunning q' = isRunning q /\ seenMessageIds q' = seenMessageIds q /\
  pollingConfig q' = pollingConfig q.
Proof.
  induction contactIds as [| x l IH]; intros q; cbn zeta; cbn [fold_left];
    [now repeat split |].
  destruct (IH (set_cursor q x now)) as (-> & -> & ->). now repeat split.
Qed.

(** X10.  Starting.  [start()] on a poller that is not running, with a signal
    that has not fired, leaves it running with the seen-set untouched and
    sets the cursor of exactly the contacts it resolves to [now]; the
    first page fetched for such a contact then delivers only messages
    created after the start. *)
Theorem start_seeds_the_resolved_contacts p info now dir c :
  isRunning p = false ->
  let p' := start p false info now dir in
  isRunning p' = true /\
  seenMessageIds p' = seenMessageIds p /\
  lastPollTimestamps p' !! c =
    (if bool_decide (c ∈ resolveContactIds (pollingConfig p) dir)
     then Some now else lastPollTimestamps p !! c) /\
  (c ∈ resolveContactIds (pollingConfig p) dir ->
   forall onMessage response,
     Forall (fun m => 1000 * now < timestamp m)
       (snd (pollContact onMessage p' c response))).
Proof.
  intros Hrun. cbn zeta.
  assert (Hcur : lastPollTimestamps (start p false info now dir) !! c =
                 if bool_decide (c ∈ resolveContactIds (pollingConfig p) dir)
                 then Some now else lastPollTimestamps p !! c).
  { destruct (bool_decide_reflect
                (c ∈ resolveContactIds (pollingConfig p) dir)) as [Hc | Hc].
    - now apply PollingSpec.start_seeds.
    - unfold start. rewrite Hrun.
      destruct info as [[w n] |]; now rewrite seed_frame. }
  split; [| split; [| split; [exact Hcur |]]].
  - unfold start. rewrite Hrun.
    destruct info as [[w n] |]; now rewrite (proj1 (seed_fields _ _ _)).
  - unfold start. rewrite Hrun.
    destruct info as [[w n] |];
      now rewrite (proj1 (proj2 (seed_fields _ _ _))).
  - intros Hc onMessage response.
    pose proof (delivered_after onMessage (start p false info now dir) c
                  response) as H.
    rewrite Hcur, bool_decide_true in H by exact Hc. exact H.
Qed.

Lemma start_seeds_the_resolved_contacts_witness :
  let p :=
    start (createWeChatPoller (Some (Scenario.explicitContacts ["wxid_alice"])))
      false (Some (Some "wxid_bot", Some "Robo")) 1700000000
      Scenario.noDirectory in
  isRunning p = true /\
  lastPollTimestamps p !! "wxid_alice" = Some 1700000000 /\
  lastPollTimestamps p !! "wxid_bob" = None /\
  snd (pollContact (fun _ => true) p "wxid_alice"
         (Some [Scenario.textItem 2 1700000005;
                Scenario.textItem 1 1699999999])) =
    [convertToInboundMessage (Some "Robo") (Scenario.textItem 2 1700000005)
       "wxid_alice"].
Proof.
  cbn zeta.
  destruct (start_seeds_the_resolved_contacts
              (createWeChatPoller
                 (Some (Scenario.explicitContacts ["wxid_alice"])))
              (Some (Some "wxid_bot", Some "Robo")) 1700000000
              Scenario.noDirectory "wxid_alice" eq_refl)
    as (Hrun & _ & Hcur & _).
  split; [exact Hrun |]. split; [exact Hcur |]. split; reflexivity.
Defined.

End PollerProps.

(** ** The token resolver: the token and its source *)

Module TokenProps.
Import JS Token Notions JSProps.

Lemma inline_settled x s :
  s <> none -> truthy_opt (trim <$> x) = true ->
  settled {| token := default "" (trim <$> x); source := s |}.
Proof.
  intros Hs H. right. cbn [token source].
  destruct x as [t |]; [| discriminate].
  cbn [fmap option_fmap option_map default from_option Datatypes.id
       truthy_opt] in *.
  split; [exact Hs |]. split; [now apply truthy_true | apply trim_bare].
Qed.

Lemma file_settled text :
  truthy (trim text) = true ->
  settled {| token := trim text; source := configFile |}.
Proof.
  intros H. right. cbn [token source].
  split; [discriminate |]. split; [now apply truthy_true | apply trim_bare].
Qed.

Lemma resolveWeChatToken_settled DEFAULT_ACCOUNT_ID readFileSync
    WECHAT_API_TOKEN cfg accountId :
  settled (resolveWeChatToken DEFAULT_ACCOUNT_ID readFileSync
             WECHAT_API_TOKEN cfg accountId).
Proof.
  assert (Hnone : settled {| token := ""; source := none |})
    by (left; now split).
  assert (Henv : settled
            match (if truthy_opt (trim <$> WECHAT_API_TOKEN)
                   then Some {| token := default "" (trim <$> WECHAT_API_TOKEN);
                                source := env |}
                   else None) with
            | Some r => r
            | None => {| token := ""; source := none |}
            end).
  { destruct (truthy_opt (trim <$> WECHAT_API_TOKEN)) eqn:E; [| exact Hnone].
    now apply inline_settled. }
  unfold resolveWeChatToken. cbn zeta.
  destruct (String.eqb (default DEFAULT_ACCOUNT_ID accountId)
              DEFAULT_ACCOUNT_ID) eqn:Hdef; cbn [negb].
  - destruct cfg as [c |]; cbn [mbind option_bind]; [| exact Henv].
    destruct (truthy_opt (trim <$> apiToken (base c))) eqn:E1;
      [now apply inline_settled |].
    destruct (truthy_opt (trim <$> tokenFile (base c))); [| exact Henv].
    destruct (readFileSync _) as [text |]; [| exact Henv].
    destruct (truthy (trim text)) eqn:E3; [now apply file_settled |].
    exact Henv.
  - destruct (cfg ≫= _) as [ac |]; cbn [mbind option_bind]; [| exact Hnone].
    destruct (truthy_opt (trim <$> apiToken ac)) eqn:E1;
      [now apply inline_settled |].
    destruct (truthy_opt (trim <$> tokenFile ac)); [| exact Hnone].
    destruct (readFileSync _) as [text |]; [| exact Hnone].
    destruct (truthy (trim text)) eqn:E3; [now apply file_settled |].
    exact Hnone.
Qed.

(** X11.  The token and its source.  The resolver returns the empty token
    exactly when it reports the source [none]; a token it returns from a
    source has no white space at its start and none at its end. *)
Theorem token_is_empty_only_without_source DEFAULT_ACCOUNT_ID readFileSync
    WECHAT_API_TOKEN cfg accountId :
  let r := resolveWeChatToken DEFAULT_ACCOUNT_ID readFileSync
             WECHAT_API_TOKEN cfg accountId in
  (source r = none <-> token r = "") /\ bare (token r).
Proof.
  cbn zeta.
  destruct (resolveWeChatToken_settled DEFAULT_ACCOUNT_ID readFileSync
              WECHAT_API_TOKEN cfg accountId) as [[Hs Ht] | (Hs & Ht & Hb)].
  - rewrite Hs, Ht. split; [now split | apply bare_empty].
  - split; [split; intros; contradiction | exact Hb].
Qed.

End TokenProps.

(** ** Accounts *)

Module AccountsSpec.
Import JS Accounts Notions JSProps.

Section WithSdk.

Variable DEFAULT_ACCOUNT_ID : string.
Variable normalizeAccountId : option string -> string.
Variable readFileSync : string -> option string.
Variable WECHAT_API_TOKEN : option string.
Variable localeCompare : string -> string -> Z.

Local Abbreviation resolveWeChatAccount :=
  (resolveWeChatAccount DEFAULT_ACCOUNT_ID normalizeAccountId readFileSync
     WECHAT_API_TOKEN).
Local Abbreviation listWeChatAccountIds :=
  (listWeChatAccountIds DEFAULT_ACCOUNT_ID localeCompare).
Local Abbreviation resolveDefaultWeChatAccountId :=
  (resolveDefaultWeChatAccountId DEFAULT_ACCOUNT_ID localeCompare).

(** X12.  The switch.  A resolved account is enabled unless the channel's base
    configuration or the account's own entry says [enabled: false]: an
    entry cannot switch an account on when the channel is switched off,
    and the base cannot switch on an account whose entry is off. *)
Theorem account_is_enabled_unless_switched_off wechat accountId :
  enabled (resolveWeChatAccount wechat accountId) =
    notFalse (wechat ≫= (fun c => Config.enabled (Config.base c)))
    && notFalse (resolveAccountConfig wechat (normalizeAccountId accountId)
                   ≫= Config.enabled).
Proof.
  unfold Accounts.resolveWeChatAccount, mergeWeChatAccountConfig. cbn zeta.
  cbn [enabled spread Config.enabled].
  destruct wechat as [c |]; [| reflexivity].
  cbn [mbind option_bind fmap option_fmap option_map default from_option
       Datatypes.id Config.base].
  destruct (resolveAccountConfig (Some c) _) as [a |];
    cbn [mbind option_bind default from_option Datatypes.id Config.empty
         Config.enabled over].
  - destruct (Config.enabled a) as [[|] |],
      (Config.enabled (Config.base c)) as [[|] |]; reflexivity.
  - now destruct (Config.enabled (Config.base c)) as [[|] |].
Qed.

Lemma resolved_address wechat accountId :
  let r := resolveWeChatAccount wechat accountId in
  let configured := Config.baseUrl (config r) in
  (provides configured (baseUrl r) \/
   vacant configured /\ baseUrl r = DEFAULT_BASE_URL) /\
  ~ blank (baseUrl r).
Proof.
  cbn zeta. unfold Accounts.resolveWeChatAccount. cbn zeta.
  cbn [baseUrl config].
  set (merged := mergeWeChatAccountConfig wechat _).
  pose proof (trimmed_source (Config.baseUrl merged)) as H.
  destruct (truthy_opt (trim <$> Config.baseUrl merged)) eqn:E.
  - split; [now left |]. destruct H as [Hne (s & _ & Hb & _)].
    now apply bare_not_blank.
  - split; [now right |]. apply truthy_trim. reflexivity.
Qed.

Lemma resolved_token_settled wechat accountId :
  let r := resolveWeChatAccount wechat accountId in
  settled {| Token.token := apiToken r; Token.source := tokenSource r |}.
Proof.
  cbn zeta. unfold Accounts.resolveWeChatAccount. cbn zeta.
  cbn [apiToken tokenSource].
  pose proof (TokenProps.resolveWeChatToken_settled DEFAULT_ACCOUNT_ID
                readFileSync WECHAT_API_TOKEN (tokenConfig <$> wechat)
                (Some (normalizeAccountId accountId))) as H.
  now destruct (Token.resolveWeChatToken _ _ _ _ _).
Qed.

(** X13.  Configured.  The base URL of a resolved account is never blank: it
    is the configured one without the white space around it, or the
    default address when none is configured or the configured one is
    blank.  So the three tests of the plugin ([isConfigured], the
    [configured] of [describeAccount] and of [buildAccountSnapshot]) agree
    on a resolved account, and hold exactly when its token has a source. *)
Theorem configured_means_a_token_was_found wechat accountId runtime :
  let r := resolveWeChatAccount wechat accountId in
  let configured := Config.baseUrl (config r) in
  (provides configured (baseUrl r) \/
   vacant configured /\ baseUrl r = DEFAULT_BASE_URL) /\
  ~ blank (baseUrl r) /\
  Plugin.isConfigured r = Actions.hasToken (tokenSource r) /\
  Plugin.describedConfigured r = Actions.hasToken (tokenSource r) /\
  Plugin.snapConfigured (Plugin.buildAccountSnapshot r runtime) =
    Actions.hasToken (tokenSource r).
Proof.
  cbn zeta.
  destruct (resolved_address wechat accountId) as (Hurl & Hnb).
  pose proof (resolved_token_settled wechat accountId) as Htok.
  cbn zeta in *. set (r := resolveWeChatAccount wechat accountId) in *.
  assert (Hb : truthy (trim (baseUrl r)) = true) by now apply truthy_trim.
  assert (Ht : truthy (trim (apiToken r)) = Actions.hasToken (tokenSource r)).
  { destruct Htok as [[Hs Ht] | (Hs & Ht & Hbare)];
      cbn [Token.token Token.source] in *.
    - now rewrite Hs, Ht.
    - rewrite (bare_trim _ Hbare). apply truthy_true in Ht. rewrite Ht.
      now destruct (tokenSource r). }
  unfold Plugin.isConfigured, Plugin.describedConfigured,
    Plugin.buildAccountSnapshot. cbn [Plugin.snapConfigured].
  rewrite Hb, Ht, andb_true_r. now repeat split.
Qed.

(** *** The account ids *)

Lemma insertSorted_perm x : forall sorted,
  insertSorted localeCompare x sorted ≡ₚ x :: sorted.
Proof.
  induction sorted as [| y rest IH]; cbn [insertSorted]; [reflexivity |].
  destruct (localeCompare x y <? 0); [reflexivity |].
  rewrite IH. apply Permutation_swap.
Qed.

Lemma Array_sort_perm ids : Array_sort localeCompare ids ≡ₚ ids.
Proof.
  unfold Array_sort.
  assert (H : forall l acc,
            fold_left (fun sorted x => insertSorted localeCompare x sorted) l acc
            ≡ₚ acc ++ l).
  { induction l as [| x l IH]; intros acc; cbn [fold_left];
      [now rewrite app_nil_r |].
    rewrite IH, insertSorted_perm. cbn [app]. apply Permutation_middle. }
  apply (H ids []).
Qed.

(** Inserting keeps a list in order, as long as two texts are never each
    before the other. *)
Lemma insertSorted_ordered x :
  (forall a b, localeCompare a b < 0 -> 0 <= localeCompare b a) ->
  forall sorted,
    Sorted (inOrder localeCompare) sorted ->
    Sorted (inOrder localeCompare) (insertSorted localeCompare x sorted) /\
    forall y, HdRel (inOrder localeCompare) y sorted ->
              inOrder localeCompare y x ->
              HdRel (inOrder localeCompare) y
                (insertSorted localeCompare x sorted).
Proof.
  intros Hasym. induction sorted as [| z rest IH]; intros Hs;
    cbn [insertSorted].
  - split; [repeat constructor |]. intros y _ Hy. now constructor.
  - apply Sorted_inv in Hs as [Hs Hz].
    destruct (localeCompare x z <? 0) eqn:E.
    + apply Z.ltb_lt in E. split.
      * constructor; [now constructor |]. constructor. now apply Hasym.
      * intros y _ Hy. now constructor.
    + apply Z.ltb_ge in E. destruct (IH Hs) as [IH1 IH2]. split.
      * constructor; [exact IH1 |]. now apply IH2.
      * intros y Hy _. apply HdRel_inv in Hy. now constructor.
Qed.

Lemma Array_sort_ordered ids :
  (forall a b, localeCompare a b < 0 -> 0 <= localeCompare b a) ->
  Sorted (inOrder localeCompare) (Array_sort localeCompare ids).
Proof.
  intros Hasym. unfold Array_sort.
  assert (H : forall l acc,
            Sorted (inOrder localeCompare) acc ->
            Sorted (inOrder localeCompare)
              (fold_left (fun sorted x => insertSorted localeCompare x sorted)
                 l acc)).
  { induction l as [| x l IH]; intros acc Hacc; cbn [fold_left];
      [exact Hacc |].
    apply IH. now apply insertSorted_ordered. }
  apply H. constructor.
Qed.

Lemma listed_ids_perm wechat :
  listWeChatAccountIds wechat ≡ₚ
    match listConfiguredAccountIds wechat with
    | [] => [DEFAULT_ACCOUNT_ID]
    | ids => ids
    end.
Proof.
  unfold Accounts.listWeChatAccountIds.
  destruct (listConfiguredAccountIds wechat); [reflexivity |].
  apply Array_sort_perm.
Qed.

Lemma listed_ids_not_nil wechat : listWeChatAccountIds wechat <> [].
Proof.
  intros E. pose proof (listed_ids_perm wechat) as H. rewrite E in H.
  apply Permutation_nil_l in H.
  now destruct (listConfiguredAccountIds wechat).
Qed.

(** X14.  The account ids.  The ids listed are the non-empty property names
    of [accounts], each as often as it is one, or the default id alone
    when there is none; the list is never empty; and it is in the order of
    [localeCompare] (no id is before its predecessor), as long as
    [localeCompare] never puts two texts each before the other. *)
Theorem account_ids_are_the_configured_names wechat :
  listWeChatAccountIds wechat ≡ₚ
    match listConfiguredAccountIds wechat with
    | [] => [DEFAULT_ACCOUNT_ID]
    | ids => ids
    end /\
  listWeChatAccountIds wechat <> [] /\
  listConfiguredAccountIds wechat =
    List.filter truthy (fst <$> default [] (wechat ≫= Config.accounts)) /\
  ((forall a b, localeCompare a b < 0 -> 0 <= localeCompare b a) ->
   Sorted (inOrder localeCompare) (listWeChatAccountIds wechat)).
Proof.
  split; [apply listed_ids_perm |]. split; [apply listed_ids_not_nil |].
  split.
  - unfold listConfiguredAccountIds. now destruct (wechat ≫= Config.accounts).
  - intros Hasym. unfold Accounts.listWeChatAccountIds.
    destruct (listConfiguredAccountIds wechat);
      [repeat constructor | now apply Array_sort_ordered].
Qed.

Lemma Array_includes_elem l x : Host.Array_includes l x = true <-> x ∈ l.
Proof.
  unfold Host.Array_includes. rewrite existsb_exists. split.
  - intros (y & Hy & E). apply String.eqb_eq in E as ->.
    now apply list_elem_of_In.
  - intros H. exists x.
    split; [now apply list_elem_of_In | apply String.eqb_refl].
Qed.

(** X15.  The default account.  A [defaultAccount] that is not blank is the
    default account id, without the white space around it, whether or not
    an account of that name is configured.  Without one, or with a blank
    one, the default id is one of the listed ids: the SDK's default id
    when it is listed, else the first listed. *)
Theorem default_account_is_named_or_listed wechat :
  let ids := listWeChatAccountIds wechat in
  let r := resolveDefaultWeChatAccountId wechat in
  let fromList :=
    r ∈ ids /\ (DEFAULT_ACCOUNT_ID ∈ ids -> r = DEFAULT_ACCOUNT_ID) /\
    (DEFAULT_ACCOUNT_ID ∉ ids -> head ids = Some r) in
  match wechat ≫= Config.defaultAccount with
  | Some named =>
      (~ blank named -> stripped named r) /\ (blank named -> fromList)
  | None => fromList
  end.
Proof.
  cbn zeta. unfold Accounts.resolveDefaultWeChatAccountId. cbn zeta.
  assert (Hlist :
    let r :=
      if Host.Array_includes (listWeChatAccountIds wechat) DEFAULT_ACCOUNT_ID
      then DEFAULT_ACCOUNT_ID
      else default DEFAULT_ACCOUNT_ID (head (listWeChatAccountIds wechat)) in
    r ∈ listWeChatAccountIds wechat /\
    (DEFAULT_ACCOUNT_ID ∈ listWeChatAccountIds wechat ->
     r = DEFAULT_ACCOUNT_ID) /\
    (DEFAULT_ACCOUNT_ID ∉ listWeChatAccountIds wechat ->
     head (listWeChatAccountIds wechat) = Some r)).
  { cbn zeta.
    destruct (Host.Array_includes (listWeChatAccountIds wechat)
                DEFAULT_ACCOUNT_ID) eqn:E.
    - apply Array_includes_elem in E.
      repeat split; [exact E | contradiction].
    - pose proof (listed_ids_not_nil wechat) as Hne.
      destruct (listWeChatAccountIds wechat) as [| x l]; [contradiction |].
      cbn [head default from_option Datatypes.id].
      split; [apply elem_of_cons; now left |].
      split; [| reflexivity]. intros H. apply Array_includes_elem in H.
      congruence. }
  destruct (wechat ≫= Config.defaultAccount) as [named |];
    cbn [fmap option_fmap option_map truthy_opt default from_option
         Datatypes.id]; [| exact Hlist].
  destruct (truthy (trim named)) eqn:E.
  - apply truthy_trim in E.
    split; [intros _; apply trim_stripped | contradiction].
  - split; [| intros _; exact Hlist].
    intros Hnb. apply truthy_trim in Hnb. congruence.
Qed.

(** *** The accounts that can send *)

Lemma filter_nil_or_not {A B} (f : A -> bool) (l : list A) (x y : B) :
  match List.filter f l with [] => x | _ => y end =
  if existsb f l then y else x.
Proof.
  induction l as [| a l IH]; cbn [List.filter existsb]; [reflexivity |].
  now destruct (f a).
Qed.

Lemma existsb_filter_map {A B} (f : A -> B) (p q : B -> bool) (l : list A) :
  existsb q (List.filter p (f <$> l)) =
  existsb (fun a => p (f a) && q (f a)) l.
Proof.
  induction l as [| a l IH]; [reflexivity |].
  cbn [fmap list_fmap List.filter existsb].
  change (list_fmap A B f l) with (f <$> l).
  destruct (p (f a)); cbn [existsb andb orb]; now rewrite IH.
Qed.

Lemma existsb_same {A} (f g : A -> bool) (l : list A) :
  (forall a, f a = g a) -> existsb f l = existsb g l.
Proof.
  intros H. induction l as [| a l IH]; [reflexivity |].
  cbn [existsb]. now rewrite H, IH.
Qed.

(** X16.  The send action.  [listActions] offers the action [send], and nothing
    else, exactly when one of the listed account ids resolves to an
    account that is enabled and whose token has a source; otherwise it
    offers nothing. *)
Theorem send_is_offered_when_an_account_can_send wechat :
  Actions.listActions DEFAULT_ACCOUNT_ID normalizeAccountId readFileSync
    WECHAT_API_TOKEN localeCompare wechat =
  if existsb
       (fun accountId =>
          let account := resolveWeChatAccount wechat (Some accountId) in
          enabled account && Actions.hasToken (tokenSource account))
       (listWeChatAccountIds wechat)
  then ["send"] else [].
Proof.
  unfold Actions.listActions, Actions.listEnabledAccounts,
    listEnabledWeChatAccounts.
  rewrite filter_nil_or_not, existsb_filter_map.
  rewrite (existsb_same _
             (fun accountId =>
                let account := resolveWeChatAccount wechat (Some accountId) in
                enabled account && Actions.hasToken (tokenSource account)));
    [reflexivity |].
  intros accountId. cbn zeta. now destruct (enabled _).
Qed.

End WithSdk.

End AccountsSpec.

(** ** Sending *)

Module SendSpec.
Import JS Api Send JSProps.

Section WithSdk.

Variable DEFAULT_ACCOUNT_ID : string.
Variable normalizeAccountId : option string -> string.
Variable readFileSync : string -> option string.
Variable WECHAT_API_TOKEN : option string.

Local Abbreviation resolveSendContext :=
  (resolveSendContext DEFAULT_ACCOUNT_ID normalizeAccountId readFileSync
     WECHAT_API_TOKEN).
Local Abbreviation sendMessageWeChat :=
  (sendMessageWeChat DEFAULT_ACCOUNT_ID normalizeAccountId readFileSync
     WECHAT_API_TOKEN).

Ltac branches :=
  repeat match goal with
  | |- context [if ?b then _ else _] => destruct b eqn:?
  | |- context [match ?x with inl _ => _ | inr _ => _ end] => destruct x eqn:?
  end.

Ltac answers :=
  repeat match goal with
  | H : _ = inl _ |- _ => rewrite H
  | H : _ = inr _ |- _ => rewrite H
  end.

(** X17.  Success.  [sendMessageWeChat] reports success exactly when it made at
    least one call and every call it made (the file read, the voice or
    image message, the text message) was answered; so a failure of the
    text that follows a voice or image message is reported as a failure
    although that message was sent.  A failure always carries an error
    text, a success never does. *)
Theorem success_means_every_call_was_answered env toWxid text options :
  let r := sendMessageWeChat env toWxid text options in
  ok (snd r) =
    match fst r with
    | [] => false
    | calls => forallb (answered env) calls
    end /\
  (if ok (snd r) then error (snd r) = None
   else exists message, error (snd r) = Some message).
Proof.
  cbn zeta. unfold Send.sendMessageWeChat, thenText. cbn zeta.
  branches; cbn [fst snd ok error failed sent forallb answered negb andb] in *;
    answers; try discriminate; split; try reflexivity; eauto.
Qed.

(** X18.  The order of the calls.  The calls made are of one of seven shapes:
    none; the file read alone; the read and the voice message; these and
    the text; the image message; the image and the text; the text alone.
    A voice file takes precedence over an image: with [voiceFilePath] set
    no image is sent, and without it no file is read. *)
Theorem calls_come_in_one_of_seven_shapes env toWxid text options :
  let calls := fst (sendMessageWeChat env toWxid text options) in
  callKind <$> calls ∈
    [[]; [File]; [File; Voice]; [File; Voice; Text];
     [Image]; [Image; Text]; [Text]] /\
  (if truthy_opt (voiceFilePath options)
   then existsb isImage calls = false
   else existsb isVoice calls = false /\
        forallb isApiCall calls = true).
Proof.
  cbn zeta. unfold Send.sendMessageWeChat, thenText. cbn zeta.
  destruct (truthy_opt (voiceFilePath options)) eqn:Hv;
    branches; cbn [fst fmap list_fmap callKind existsb forallb isImage isVoice
                   isApiCall orb andb];
    (split; [apply list_elem_of_In; cbn; tauto | try split; reflexivity]).
Qed.

(** X19.  The recipient.  Every call to the backend carries the context
    resolved from the options and goes to [toWxid] without the white space
    around it; and a call is made (the file read included) only with a
    token that is not empty and a recipient that is not blank. *)
Theorem calls_go_to_the_trimmed_recipient env toWxid text options :
  let ctx := resolveSendContext options in
  let calls := fst (sendMessageWeChat env toWxid text options) in
  Forall (fun c => isApiCall c = true ->
                   (exists to, recipient c = Some to /\ stripped toWxid to) /\
                   context c = Some ctx)
    calls /\
  (calls <> [] -> ctxApiToken ctx <> "" /\ ~ blank toWxid).
Proof.
  cbn zeta. unfold Send.sendMessageWeChat, thenText. cbn zeta.
  destruct (truthy (ctxApiToken (resolveSendContext options))) eqn:Ht;
    cbn [negb]; [| split; [constructor | now intros []]].
  destruct (truthy (trim toWxid)) eqn:Hw;
    cbn [negb]; [| split; [constructor | now intros []]].
  apply truthy_true in Ht. apply truthy_trim in Hw.
  split; [| now intros _].
  pose proof (trim_stripped toWxid) as Hs.
  branches; cbn [fst]; repeat constructor; try discriminate;
    cbn [recipient]; eauto.
Qed.

End WithSdk.

End SendSpec.

(** ** The probe *)

Module ProbeSpec.
Import JS Api Probe JSProps.

(** X20.  The verdict.  The probe reports [ok] exactly when the token and the
    base URL are not blank and the backend answered code 200 with a robot
    whose status is [online]; every other outcome carries an error text; a
    blank token, and else a blank base URL, is reported as such, without a
    request and without an elapsed time. *)
Theorem probe_is_ok_only_for_an_online_robot baseUrl apiToken robotId
    timeoutMs startTime endTime answer :
  let r := probeWeChat baseUrl apiToken robotId timeoutMs startTime endTime
             answer in
  (ok r = true <->
   ~ blank apiToken /\ ~ blank baseUrl /\
   exists response state,
     answer = inr response /\ code response = 200 /\
     data response = Some state /\ status state = "online") /\
  (if ok r then error r = None /\ elapsedMs r = endTime - startTime
   else exists message, error r = Some message) /\
  (blank apiToken ->
   error r = Some "No API token provided" /\ elapsedMs r = 0) /\
  (~ blank apiToken -> blank baseUrl ->
   error r = Some "No base URL provided" /\ elapsedMs r = 0).
Proof.
  cbn zeta. unfold probeWeChat. cbn zeta.
  destruct (truthy (trim apiToken)) eqn:Ht; cbn [negb].
  2: { apply falsy_trim in Ht. cbn [ok error elapsedMs].
       split; [split; [discriminate | now intros (H & _)] |].
       split; [eauto |]. split; [now split | contradiction]. }
  destruct (truthy (trim baseUrl)) eqn:Hb; cbn [negb].
  2: { apply falsy_trim in Hb. apply truthy_trim in Ht.
       cbn [ok error elapsedMs].
       split; [split; [discriminate | now intros (_ & H & _)] |].
       split; [eauto |]. split; [contradiction | now split]. }
  apply truthy_trim in Ht, Hb.
  destruct answer as [[m | n m | t] | response]; cbn [ok error elapsedMs].
  1-3: split; [split; [discriminate | intros (_ & _ & ? & ? & [=] & _)] |];
       split; [eauto | split; intros; contradiction].
  destruct (code response =? 200) eqn:Hc.
  2: { apply Z.eqb_neq in Hc. cbn [ok error elapsedMs].
       split; [split; [discriminate
                      | intros (_ & _ & ? & ? & [= <-] & ? & _); contradiction] |].
       split; [eauto | split; intros; contradiction]. }
  apply Z.eqb_eq in Hc.
  destruct (data response) as [state |] eqn:Hd; cbn [ok error elapsedMs].
  2: { split; [split; [discriminate
                      | intros (_ & _ & ? & ? & [= <-] & _ & ? & _); congruence] |].
       split; [eauto | split; intros; contradiction]. }
  destruct (String.eqb (status state) "online") eqn:Hs; cbn [ok error elapsedMs].
  - apply String.eqb_eq in Hs.
    split; [split; [intros _; repeat split; eauto 8 | reflexivity] |].
    split; [now split | split; intros; contradiction].
  - apply String.eqb_neq in Hs.
    split; [split; [discriminate
                   | intros (_ & _ & ? & ? & [= <-] & _ & ? & ?); congruence] |].
    split; [eauto | split; intros; contradiction].
Qed.

(** X21.  The backend's refusal.  When the robot-state request is answered with
    an envelope whose code is not 200, whatever the transport status, the
    probe fails with the envelope's message, or with the text that names
    the endpoint when the envelope has none; the text "Invalid response"
    is reported only for an envelope of code 200 without data. *)
Theorem probe_reports_the_refusal_of_the_backend JSON_stringify rejection
    baseUrl apiToken robotId timeoutMs startTime endTime transport envelope :
  ~ blank apiToken -> ~ blank baseUrl ->
  let r := probeWeChat baseUrl apiToken robotId timeoutMs startTime endTime
             (getRobotState JSON_stringify rejection
                (FetchResolved transport (inr envelope))) in
  (code envelope <> 200 ->
   r = {| ok := false; robot := None;
          error := Some (default "API error: /api/v1/robot/state"
                           (message envelope));
          elapsedMs := endTime - startTime |}) /\
  (error r = Some "Invalid response from WeChat backend" ->
   message envelope = Some "Invalid response from WeChat backend" \/
   code envelope = 200 /\ data envelope = None).
Proof.
  intros Ht Hb. cbn zeta. unfold probeWeChat, getRobotState, callApi.
  cbn zeta. apply truthy_trim in Ht, Hb. rewrite Ht, Hb. cbn [negb].
  destruct (code envelope =? 200) eqn:Hc; cbn [negb caught].
  - apply Z.eqb_eq in Hc. split; [contradiction |]. rewrite Hc. cbn [Z.eqb Pos.eqb].
    destruct (data envelope) as [state |]; [| now right].
    destruct (String.eqb (status state) "online"); cbn [error];
      [discriminate |].
    destruct (String.eqb (status state) "offline"); discriminate.
  - split; [reflexivity |]. cbn [error].
    destruct (message envelope) as [m |]; cbn [default from_option Datatypes.id];
      [intros [= ->]; now left | discriminate].
Qed.

Lemma probe_reports_the_refusal_of_the_backend_witness :
  probeWeChat "http://localhost:9000" "secret" 1 None 1000 1250
    (getRobotState (fun _ => "{}") CaughtOther
       (FetchResolved 200
          (inr {| code := 401; message := Some "bad token"; data := None |})))
  = {| ok := false; robot := None; error := Some "bad token";
       elapsedMs := 250 |}.
Proof.
  apply (probe_reports_the_refusal_of_the_backend (fun _ => "{}") CaughtOther
           "http://localhost:9000" "secret" 1 None 1000 1250 200
           {| code := 401; message := Some "bad token"; data := None |});
    [now apply truthy_trim | now apply truthy_trim | cbn; lia].
Defined.

End ProbeSpec.

(** ** Status issues *)

Module StatusSpec.
Import JS StatusIssues.

(** X22.  The issues.  One issue is collected, in the order of the list, for
    each entry that is an object, is not disabled ([enabled] is anything
    but [false]), is configured ([configured] is exactly [true]) and whose
    [dmPolicy] is the string [open]; it carries the entry's account id,
    or [default] when that is neither a string nor a number.  No other
    entry and no other policy raises an issue. *)
Theorem an_issue_for_each_open_account accounts :
  collectWeChatStatusIssues accounts =
  omap (fun entry =>
          if raises entry
          then (fun account =>
                  openIssue (default "default" (asString (accountId account))))
                 <$> entry
          else None) accounts.
Proof.
  unfold collectWeChatStatusIssues.
  match goal with |- fold_left ?f _ _ = omap ?g _ =>
    enough (H : forall issues, fold_left f accounts issues
                               = issues ++ omap g accounts)
      by apply (H [])
  end.
  induction accounts as [| entry accounts IH]; intros issues;
    cbn [fold_left omap list_omap]; [now rewrite app_nil_r |].
  rewrite IH. destruct entry as [account |]; cbn [raises]; [| reflexivity].
  cbn zeta.
  destruct (isFalse (enabled account)), (isTrue (configured account)),
    (isOpen (dmPolicy account)); cbn; try reflexivity.
  now rewrite <- app_assoc.
Qed.

End StatusSpec.

(** ** The plugin: targets, directory, gateway *)

Module PluginSpec.
Import JS Host Plugin Notions JSProps.

Lemma group_target peer :
  normalizeWeChatMessagingTarget ("group:" +:+ peer) = Some (trimEnd peer).
Proof. reflexivity. Qed.

Lemma wechat_target peer :
  normalizeWeChatMessagingTarget ("wechat:" +:+ peer) = Some (trimEnd peer).
Proof. reflexivity. Qed.

(** X23.  The address of a chat.  The address the handler gives the host for a
    message ([From], [To] and [OriginatingTo] of the context, with the
    prefix [group:] or [wechat:]) is turned back by
    [normalizeWeChatMessagingTarget] into the id the handler sends its
    replies to, without the white space at its end: into that very id
    when it does not end with white space.  This holds for both versions
    of the handler. *)
Theorem address_of_a_chat_normalizes_back {Cfg E Ctx : Type}
    (toLowerCase : string -> string)
    (msg : Polling.WeChatInboundMessage)
    (deps : Inbound.WeChatInboundHandlerDeps Cfg E Ctx)
    (src : InboundSrc.WeChatInboundHandlerDeps Cfg E Ctx) (now : Z) :
  let returns (call : HostCall E Ctx) :=
    match call with
    | FinalizeInboundContext ctx =>
        (exists target,
           normalizeWeChatMessagingTarget (OriginatingTo ctx) = Some target /\
           endStripped (replyTarget msg) target /\
           ((forall w x, w ∈ whiteSpaceCharacters ->
               replyTarget msg <> x +:+ w) ->
            target = replyTarget msg)) /\
        To ctx = OriginatingTo ctx /\ From ctx = OriginatingTo ctx
    | CreateReplyDispatcherWithTyping replyTo => replyTo = replyTarget msg
    | _ => True
    end in
  Forall returns (Inbound.handleWeChatInboundMessage toLowerCase msg deps now) /\
  Forall returns
    (InboundSrc.handleWeChatInboundMessage toLowerCase msg src now).
Proof.
  cbn zeta.
  assert (Hback : forall peer,
            exists target,
              Some (trimEnd peer) = Some target /\
              endStripped peer target /\
              ((forall w x, w ∈ whiteSpaceCharacters -> peer <> x +:+ w) ->
               target = peer)).
  { intros peer. exists (trimEnd peer).
    split; [reflexivity |]. split; [apply trimEnd_endStripped |].
    apply endStripped_same, trimEnd_endStripped. }
  unfold Inbound.handleWeChatInboundMessage,
    InboundSrc.handleWeChatInboundMessage, replyTarget. cbn zeta.
  destruct (isGroup (Polling.chatType msg)); cbn [andb].
  - split; repeat match goal with
           | |- context [if ?b then _ else _] => destruct b
           | |- context [match ?x with Some _ => _ | None => _ end] => destruct x
           end; cbn [app]; repeat constructor; cbn [OriginatingTo];
      rewrite group_target; apply Hback.
  - split; repeat match goal with
           | |- context [if ?b then _ else _] => destruct b
           | |- context [match ?x with Some _ => _ | None => _ end] => destruct x
           end; cbn [app]; repeat constructor; cbn [OriginatingTo];
      rewrite wechat_target; apply Hback.
Qed.

(** *** The directory *)

Lemma List_filter_sublist {A} (f : A -> bool) (l : list A) :
  List.filter f l `sublist_of` l.
Proof.
  induction l as [| a l IH]; cbn [List.filter]; [constructor |].
  destruct (f a); now constructor.
Qed.

Lemma List_filter_all {A} (l : list A) : List.filter (fun _ => true) l = l.
Proof. induction l as [| a l IH]; [reflexivity |]. cbn. now rewrite IH. Qed.

Lemma sliceLimit_sublist {A} limit (l : list A) :
  sliceLimit limit l `sublist_of` l.
Proof.
  unfold sliceLimit. destruct limit as [n |]; [| reflexivity].
  destruct (0 <? n); [apply sublist_take | reflexivity].
Qed.

Lemma sliceLimit_length {A} n (l : list A) :
  0 < n -> (length (sliceLimit (Some n) l) <= Z.to_nat n)%nat.
Proof.
  intros H. unfold sliceLimit. rewrite (proj2 (Z.ltb_lt 0 n) H).
  rewrite length_take. lia.
Qed.

(** X24.  The directory.  [listPeers] and [listGroups] return entries made of
    contacts the backend answered, in the backend's order, and at most
    [limit] of them when the limit is positive; without a query, or with a
    query of white space only, they return the first [limit] contacts, or
    all of them when the limit is absent, zero or negative
    ([toLowerCase] maps the empty text to itself).  Without a token, or
    when the request fails, they return nothing. *)
Theorem directory_listing_is_a_bounded_selection
    (toLowerCase : string -> string) account answer query limit :
  let peers := listPeers toLowerCase account answer query limit in
  let groups := listGroups toLowerCase account answer query limit in
  peers `sublist_of` (entryOf user <$> answeredContacts answer) /\
  groups `sublist_of` (entryOf group <$> answeredContacts answer) /\
  match limit with
  | Some n =>
      if 0 <? n
      then (length peers <= Z.to_nat n)%nat /\ (length groups <= Z.to_nat n)%nat
      else True
  | None => True
  end /\
  (if truthy (Accounts.apiToken account)
   then query = None \/
        toLowerCase "" = "" /\ (exists q, query = Some q /\ blank q) ->
        peers = entryOf user <$> sliceLimit limit (answeredContacts answer) /\
        groups = entryOf group <$> sliceLimit limit (answeredContacts answer)
   else peers = [] /\ groups = []).
Proof.
  cbn zeta. unfold listPeers, listGroups, answeredContacts.
  destruct (truthy (Accounts.apiToken account)); cbn [negb].
  2: { repeat split; try apply sublist_nil_l.
       destruct limit as [n |]; [| exact I].
       destruct (0 <? n); [cbn; lia | exact I]. }
  destruct answer as [err | response].
  { split; [apply sublist_nil_l |]. split; [apply sublist_nil_l |]. split.
    - destruct limit as [n |]; [| exact I].
      destruct (0 <? n); [cbn; lia | exact I].
    - intros _. unfold sliceLimit. destruct limit as [n |]; [| now split].
      destruct (0 <? n); rewrite ?take_nil; now split. }
  split; [| split; [| split]].
  - apply fmap_sublist. etransitivity; [apply sliceLimit_sublist |].
    apply List_filter_sublist.
  - apply fmap_sublist. etransitivity; [apply sliceLimit_sublist |].
    apply List_filter_sublist.
  - destruct limit as [n |]; [| exact I].
    destruct (0 <? n) eqn:E; [| exact I]. apply Z.ltb_lt in E.
    rewrite !length_fmap. split; now apply sliceLimit_length.
  - intros Hq.
    assert (E : queryText toLowerCase query = "").
    { destruct Hq as [-> | (Hlow & q & -> & Hb)]; [reflexivity |].
      cbn [queryText]. now rewrite (proj2 (trim_blank q) Hb). }
    rewrite E. cbn [truthy negb orb]. now rewrite !List_filter_all.
Qed.

(** *** The gateway *)

(** X25.  The gateway.  [startAccount] declines to start a poller only for a
    polling configuration from which the poller would resolve no contact,
    whatever the directory answers; it throws only for an empty token or
    an unregistered runtime, and leaves the status as it was in both
    cases.  Otherwise it returns a poller created from the account's
    polling configuration and started (running unless the signal had
    fired), and marks the account running without an error. *)
Theorem gateway_declines_only_idle_configurations account runtimeSet aborted
    robotInfo now dir status nowIso :
  let pollingConfig :=
    match Accounts.polling account with
    | Some c => Some c
    | None => Config.polling (Accounts.config account)
    end in
  let r := startAccount account runtimeSet aborted robotInfo now dir status
             nowIso in
  match fst r with
  | NotPolling =>
      (forall dir', Polling.resolveContactIds pollingConfig dir' = []) /\
      snd r = status
  | Throws _ =>
      (Accounts.apiToken account = "" \/ runtimeSet = false) /\
      snd r = status
  | Started poller =>
      poller = Polling.start (Polling.createWeChatPoller pollingConfig)
                 aborted robotInfo now dir /\
      Polling.isRunning poller = negb aborted /\
      Polling.pollingConfig poller = pollingConfig /\
      running (snd r) = Some true /\ lastError (snd r) = None /\
      lastStartAt (snd r) = Some nowIso
  end.
Proof.
  cbn zeta. unfold startAccount. cbn zeta.
  set (pollingConfig := match Accounts.polling account with
                        | Some c => Some c
                        | None => Config.polling (Accounts.config account)
                        end).
  destruct (noPollingConfigured pollingConfig) eqn:Hidle; cbn [fst snd].
  { split; [| reflexivity]. intros dir'.
    unfold noPollingConfigured in Hidle. apply andb_prop in Hidle as [Hids Hall].
    apply negb_true_iff in Hids, Hall.
    unfold Polling.resolveContactIds.
    destruct pollingConfig as [c |]; [| reflexivity].
    cbn [mbind option_bind] in Hids, Hall.
    destruct (Types.pollContactIds c) as [[| x l] |]; try discriminate;
      now rewrite Hall. }
  destruct (truthy (Accounts.apiToken account)) eqn:Ht; cbn [negb fst snd].
  2: { apply truthy_false in Ht. split; [now left | reflexivity]. }
  destruct runtimeSet; cbn [negb fst snd]; [| split; [now right | reflexivity]].
  split; [reflexivity |]. cbn [running lastError lastStartAt].
  split; [| split; [| now repeat split]].
  - unfold Polling.start, Polling.createWeChatPoller.
    cbn [Polling.isRunning Polling.set_running].
    destruct aborted; [reflexivity |]. cbn [negb].
    destruct robotInfo as [[w n] |];
      now rewrite (proj1 (PollerProps.seed_fields _ _ _)).
  - unfold Polling.start, Polling.createWeChatPoller.
    cbn [Polling.isRunning Polling.set_running].
    destruct aborted; [reflexivity |].
    destruct robotInfo as [[w n] |];
      now rewrite (proj2 (proj2 (PollerProps.seed_fields _ _ _))).
Qed.

End PluginSpec.

(** ** The inbound handler: policies, trust, replies *)

Module InboundProps.
Import JS Polling Host Notions JSProps.

(** A call that is in a list of calls built with [++] and [::]. *)
Ltac served_call :=
  solve [ apply list_elem_of_here
        | apply list_elem_of_further; served_call
        | apply elem_of_app; left; served_call
        | apply elem_of_app; right; served_call ].

Ltac cases :=
  repeat match goal with
  | |- context [if ?b then _ else _] => destruct b eqn:?
  | |- context [match ?x with Some _ => _ | None => _ end] => destruct x eqn:?
  end.

(** X26.  The closed door.  Under the policy [allowlist] or [disabled], a
    message of a sender who is not on the allow-list makes the handler
    write to the console and nothing else: no pairing reply is asked for,
    nothing is sent, recorded, routed or dispatched.  This holds for both
    versions of the handler. *)
Theorem unlisted_sender_is_dropped_silently {Cfg E Ctx : Type}
    (toLowerCase : string -> string) (msg : WeChatInboundMessage)
    (deps : Inbound.WeChatInboundHandlerDeps Cfg E Ctx)
    (src : InboundSrc.WeChatInboundHandlerDeps Cfg E Ctx) (now : Z) :
  (restricted (effectivePolicy (Inbound.dmPolicy deps)
                 (Inbound.groupPolicy deps) msg) = true ->
   listed toLowerCase (Inbound.allowFrom deps) msg = false ->
   Forall (fun c => isConsoleLog c = true)
     (Inbound.handleWeChatInboundMessage toLowerCase msg deps now)) /\
  (restricted (default pairing (InboundSrc.dmPolicy src)) = true ->
   listed toLowerCase (InboundSrc.allowFrom src) msg = false ->
   Forall (fun c => isConsoleLog c = true)
     (InboundSrc.handleWeChatInboundMessage toLowerCase msg src now)).
Proof.
  unfold effectivePolicy, listed. split; intros Hpol Hout.
  - unfold Inbound.handleWeChatInboundMessage. cbn zeta. rewrite Hout.
    destruct (isGroup (chatType msg));
      destruct (default _ _); try discriminate Hpol;
      cbn [Policy_eqb orb negb andb]; cases; repeat constructor.
  - unfold InboundSrc.handleWeChatInboundMessage. cbn zeta. rewrite Hout.
    destruct (default pairing _); try discriminate Hpol;
      cbn [Policy_eqb orb negb andb]; cases; repeat constructor.
Qed.

Lemma unlisted_sender_is_dropped_silently_witness :
  Inbound.handleWeChatInboundMessage HostScenario.lowerCase
    (HostScenario.fromCarol direct false)
    (HostScenario.deps (Some "pair") (Some ["wxid_dave"]) (Some allowlist)
       None None) 5
  = [ConsoleLog (AccessCheck "wxid_carol" direct allowlist false false false)]
  /\
  Forall (fun c => isConsoleLog c = true)
    (InboundSrc.handleWeChatInboundMessage HostScenario.lowerCase
       (HostScenario.fromCarol group true)
       (HostScenario.depsSrc (Some "pair") (Some ["wxid_dave"]) (Some disabled)
          None) 5).
Proof.
  split; [reflexivity |].
  apply (unlisted_sender_is_dropped_silently HostScenario.lowerCase
           (HostScenario.fromCarol group true)
           (HostScenario.deps (Some "pair") (Some ["wxid_dave"])
              (Some allowlist) None None)
           (HostScenario.depsSrc (Some "pair") (Some ["wxid_dave"])
              (Some disabled) None) 5); reflexivity.
Defined.

(** X27.  Disabled is not off.  Under the policy [disabled] the handler makes
    the same calls, console apart, as under [allowlist]: a sender on the
    allow-list whose message passes the mention filter is recorded and
    routed, its context is handed to the host, and the reply is dispatched
    when the host returns a context, although the policy is [disabled].
    This holds for both versions of the handler. *)
Theorem disabled_policy_acts_as_allowlist {Cfg E Ctx : Type}
    (toLowerCase : string -> string) (msg : WeChatInboundMessage)
    (deps : Inbound.WeChatInboundHandlerDeps Cfg E Ctx)
    (src : InboundSrc.WeChatInboundHandlerDeps Cfg E Ctx) (now : Z) :
  let off := withPolicies deps (Some disabled) (Some disabled) in
  let offSrc := withPolicy src (Some disabled) in
  let peerKind := if isGroup (chatType msg) then peer_group else peer_dm in
  let served accountId
        (finalize : InboundContext -> option Ctx)
        (calls : list (HostCall E Ctx)) :=
    ActivityRecord accountId ∈ calls /\
    ResolveAgentRoute accountId peerKind (replyTarget msg) ∈ calls /\
    exists ctx,
      FinalizeInboundContext ctx ∈ calls /\
      match finalize ctx with
      | Some payload =>
          CreateReplyDispatcherWithTyping (replyTarget msg) ∈ calls /\
          DispatchReplyFromConfig payload ∈ calls
      | None => True
      end in
  quiet (Inbound.handleWeChatInboundMessage toLowerCase msg off now) =
    quiet (Inbound.handleWeChatInboundMessage toLowerCase msg
             (withPolicies deps (Some allowlist) (Some allowlist)) now) /\
  quiet (InboundSrc.handleWeChatInboundMessage toLowerCase msg offSrc now) =
    quiet (InboundSrc.handleWeChatInboundMessage toLowerCase msg
             (withPolicy src (Some allowlist)) now) /\
  (listed toLowerCase (Inbound.allowFrom deps) msg = true ->
   passesMention (Inbound.requireMention deps) msg = true ->
   served (Inbound.accountId deps)
     (finalizeInboundContext (Inbound.runtime deps))
     (Inbound.handleWeChatInboundMessage toLowerCase msg off now)) /\
  (listed toLowerCase (InboundSrc.allowFrom src) msg = true ->
   passesMention (InboundSrc.requireMention src) msg = true ->
   served (InboundSrc.accountId src)
     (finalizeInboundContext (InboundSrc.runtime src))
     (InboundSrc.handleWeChatInboundMessage toLowerCase msg offSrc now)).
Proof.
  cbn zeta. unfold listed, passesMention, quiet, replyTarget. split_and!.
  - unfold Inbound.handleWeChatInboundMessage, withPolicies. cbn zeta.
    cbn [Inbound.allowFrom Inbound.dmPolicy Inbound.groupPolicy
         Inbound.requireMention Inbound.commandAllowFrom Inbound.safetyPrefix
         Inbound.runtime Inbound.cfg Inbound.accountId Inbound.baseUrl
         Inbound.apiToken Inbound.robotId default from_option Datatypes.id].
    destruct (isGroup (chatType msg)); cbn [Policy_eqb orb negb andb];
      cases; reflexivity.
  - unfold InboundSrc.handleWeChatInboundMessage, withPolicy. cbn zeta.
    cbn [InboundSrc.allowFrom InboundSrc.dmPolicy InboundSrc.requireMention
         InboundSrc.runtime InboundSrc.cfg InboundSrc.accountId
         InboundSrc.baseUrl InboundSrc.apiToken InboundSrc.robotId
         default from_option Datatypes.id].
    cbn [Policy_eqb orb negb andb]. cases; reflexivity.
  - intros Hin Hpass.
    unfold Inbound.handleWeChatInboundMessage, withPolicies. cbn zeta.
    cbn [Inbound.allowFrom Inbound.dmPolicy Inbound.groupPolicy
         Inbound.requireMention Inbound.commandAllowFrom Inbound.safetyPrefix
         Inbound.runtime Inbound.cfg Inbound.accountId Inbound.baseUrl
         Inbound.apiToken Inbound.robotId].
    apply negb_true_iff in Hpass. rewrite Hpass, Hin.
    change (default open (Some disabled)) with disabled.
    change (default pairing (Some disabled)) with disabled.
    destruct (isGroup (chatType msg)); cbn [Policy_eqb orb negb andb];
      (split_and!; [served_call .. | eexists; split; [served_call |]]);
      (destruct (finalizeInboundContext _ _); [split; served_call | exact I]).
  - intros Hin Hpass.
    unfold InboundSrc.handleWeChatInboundMessage, withPolicy. cbn zeta.
    cbn [InboundSrc.allowFrom InboundSrc.dmPolicy InboundSrc.requireMention
         InboundSrc.runtime InboundSrc.cfg InboundSrc.accountId
         InboundSrc.baseUrl InboundSrc.apiToken InboundSrc.robotId].
    apply negb_true_iff in Hpass. rewrite Hpass, Hin.
    change (default pairing (Some disabled)) with disabled.
    cbn [Policy_eqb orb negb andb].
    destruct (isGroup (chatType msg));
      (split_and!; [served_call .. | eexists; split; [served_call |]]);
      (destruct (finalizeInboundContext _ _); [split; served_call | exact I]).
Qed.

(** X28.  Trust.  Whatever the policy, the handler with the two policies
    treats a dispatched sender as trusted exactly when the sender is on
    the allow-list: a trusted sender gets the four capabilities and the
    message as it is; anyone else is a guest with the capability [chat]
    and the safety prefix (the configured one, or the default notice)
    before the message.  Commands are authorized by [commandAllowFrom]
    alone when it is set, by the allow-list otherwise.  The handler with
    one policy sets no trust level, adds no prefix and authorizes commands
    for every dispatched sender. *)
Theorem trust_follows_the_allow_list {Cfg E Ctx : Type}
    (toLowerCase : string -> string) (msg : WeChatInboundMessage)
    (deps : Inbound.WeChatInboundHandlerDeps Cfg E Ctx)
    (src : InboundSrc.WeChatInboundHandlerDeps Cfg E Ctx) (now : Z) :
  let isTrusted := listed toLowerCase (Inbound.allowFrom deps) msg in
  let judged (call : HostCall E Ctx) :=
    match call with
    | FormatInboundEnvelope args =>
        envBody args =
          (if isTrusted then ""
           else default Inbound.defaultSafetyPrefix (Inbound.safetyPrefix deps))
          +:+ body msg
    | FinalizeInboundContext ctx =>
        UserTrustLevel ctx = Some (if isTrusted then trusted else guest) /\
        AllowedCapabilities ctx =
          Some (if isTrusted then [chat; tools; files; commands] else [chat]) /\
        CommandAuthorized ctx =
          Array_includes
            (normalizeEntry toLowerCase
               <$> default (default [] (Inbound.allowFrom deps))
                     (Inbound.commandAllowFrom deps))
            (toLowerCase (senderWxid msg)) /\
        RawBody ctx = body msg /\ CommandBody ctx = body msg
    | _ => True
    end in
  let plain (call : HostCall E Ctx) :=
    match call with
    | FormatInboundEnvelope args => envBody args = body msg
    | FinalizeInboundContext ctx =>
        UserTrustLevel ctx = None /\ AllowedCapabilities ctx = None /\
        CommandAuthorized ctx = true
    | _ => True
    end in
  Forall judged (Inbound.handleWeChatInboundMessage toLowerCase msg deps now) /\
  Forall plain (InboundSrc.handleWeChatInboundMessage toLowerCase msg src now).
Proof.
  cbn zeta. unfold listed. split.
  - unfold Inbound.handleWeChatInboundMessage. cbn zeta.
    destruct (Array_includes
                (normalizeEntry toLowerCase
                   <$> default [] (Inbound.allowFrom deps))
                (toLowerCase (senderWxid msg)));
      cases; cbn [app]; repeat constructor.
  - unfold InboundSrc.handleWeChatInboundMessage. cbn zeta.
    cases; cbn [app]; repeat constructor.
Qed.

(** *** From the poller to the handler *)

Lemma convert_isAtMe nick item c :
  isAtMe (convertToInboundMessage nick item c) = mentioned nick item.
Proof.
  unfold convertToInboundMessage, mentioned. cbn [isAtMe].
  assert (Hc : or_else (Types.content item) "" = Types.content item).
  { unfold or_else. now destruct (Types.content item). }
  rewrite Hc.
  destruct (Types.is_atme item),
    (includes (default "" (Types.display_full_content item)) AT_YOU_MARKER),
    nick as [n |]; cbn [negb andb orb]; try reflexivity;
    destruct (truthy n), (truthy (Types.content item)); cbn [andb];
    try reflexivity; now rewrite ?orb_false_r.
Qed.

(** X29.  Mentions.  The poller marks a message as mentioning the robot exactly
    when the backend flags it, or its rendered text holds the "mentioned
    you" hint, or its content holds [@] and the robot's nickname.  An item
    of a chat room (flagged as such, or of a contact whose id ends in
    [@chatroom]) without any of these, handed to the handler with
    "require mention" in force, is dropped at the mention filter; with one
    of them it reaches the access check. *)
Theorem group_item_needs_a_mention {Cfg E Ctx : Type}
    (toLowerCase : string -> string) nick item c
    (deps : Inbound.WeChatInboundHandlerDeps Cfg E Ctx) (now : Z) :
  Types.is_chat_room item || endsWith c "@chatroom" = true ->
  default true (Inbound.requireMention deps) = true ->
  let msg := convertToInboundMessage nick item c in
  let calls := Inbound.handleWeChatInboundMessage toLowerCase msg deps now in
  isAtMe msg = mentioned nick item /\
  chatType msg = group /\ chatId msg = c /\
  if mentioned nick item
  then existsb isAccessCheckLog calls = true
  else calls = [ConsoleLog (GroupCheck true false)].
Proof.
  intros Hroom Hreq. cbn zeta.
  split; [apply convert_isAtMe |].
  assert (Hg : chatType (convertToInboundMessage nick item c) = group).
  { unfold convertToInboundMessage. cbn [chatType]. now rewrite Hroom. }
  split; [exact Hg |]. split; [reflexivity |].
  unfold Inbound.handleWeChatInboundMessage. cbn zeta.
  rewrite Hg, Hreq, convert_isAtMe. cbn [isGroup andb].
  destruct (mentioned nick item); cbn [negb]; [| reflexivity].
  cases; reflexivity.
Qed.

Lemma group_item_needs_a_mention_witness :
  let item :=
    {| Types.msg_id := 9; Types.is_chat_room := false; Types.is_atme := false;
       Types.is_recalled := false; Types.type := 1;
       Types.content := "hello @Robo"; Types.display_full_content := None;
       Types.message_source := Some "user"; Types.sender_wxid := "wxid_carol";
       Types.to_wxid := "42@chatroom"; Types.attachment_url := None;
       Types.created_at := 100; Types.sender_nickname := None |} in
  let deps := HostScenario.deps None None None None None in
  isAtMe (convertToInboundMessage (Some "Robo") item "42@chatroom") = true /\
  Inbound.handleWeChatInboundMessage HostScenario.lowerCase
    (convertToInboundMessage None item "42@chatroom") deps 0
  = [ConsoleLog (GroupCheck true false)].
Proof.
  cbn zeta. split.
  - now rewrite (proj1 (group_item_needs_a_mention HostScenario.lowerCase
                          (Some "Robo")
                          {| Types.msg_id := 9; Types.is_chat_room := false;
                             Types.is_atme := false; Types.is_recalled := false;
                             Types.type := 1; Types.content := "hello @Robo";
                             Types.display_full_content := None;
                             Types.message_source := Some "user";
                             Types.sender_wxid := "wxid_carol";
                             Types.to_wxid := "42@chatroom";
                             Types.attachment_url := None;
                             Types.created_at := 100;
                             Types.sender_nickname := None |}
                          "42@chatroom"
                          (HostScenario.deps None None None None None) 0
                          eq_refl eq_refl)).
  - exact (proj2 (proj2 (proj2
             (group_item_needs_a_mention HostScenario.lowerCase None
                {| Types.msg_id := 9; Types.is_chat_room := false;
                   Types.is_atme := false; Types.is_recalled := false;
                   Types.type := 1; Types.content := "hello @Robo";
                   Types.display_full_content := None;
                   Types.message_source := Some "user";
                   Types.sender_wxid := "wxid_carol";
                   Types.to_wxid := "42@chatroom";
                   Types.attachment_url := None;
                   Types.created_at := 100;
                   Types.sender_nickname := None |}
                "42@chatroom"
                (HostScenario.deps None None None None None) 0
                eq_refl eq_refl)))).
Defined.

(** *** Replies *)

(** X30.  Replies.  A reply of the dispatcher reaches the backend as one text
    message to the chat the inbound message came from (its id without the
    white space around it), with the text as it is (the payload's [text],
    or its [body] when it has no [text]); a [mediaUrl] of the payload is
    never sent.  Nothing reaches the backend when the text is blank (also
    when [text] is empty and [body] is not), when the token is empty or
    the chat id is blank. *)
Theorem reply_reaches_the_backend_as_one_text (DEFAULT_ACCOUNT_ID : string)
    (normalizeAccountId : option string -> string)
    (readFileSync : string -> option string) (WECHAT_API_TOKEN : option string)
    (env : Send.SendEnv) (replyTo baseUrl apiToken : string) (robotId : Z)
    (payload : Reply.ReplyPayload) :
  let text :=
    match Reply.text payload with
    | Some t => t
    | None => default "" (Reply.body payload)
    end in
  let sent :=
    Reply.deliver replyTo baseUrl apiToken robotId payload
      ≫= Reply.performed DEFAULT_ACCOUNT_ID normalizeAccountId readFileSync
            WECHAT_API_TOKEN env in
  (~ blank text -> apiToken <> "" -> ~ blank replyTo ->
   exists to,
     stripped replyTo to /\
     sent = [Send.SendTextMessage
               {| Send.ctxBaseUrl := baseUrl; Send.ctxApiToken := apiToken;
                  Send.ctxRobotId := robotId |}
               to text None]) /\
  (blank text \/ apiToken = "" \/ blank replyTo -> sent = []).
Proof.
  cbn zeta. unfold Reply.deliver. cbn zeta.
  destruct (truthy (trim _)) eqn:Ht; cbn [negb andb].
  2: { apply falsy_trim in Ht. split; [contradiction | reflexivity]. }
  cbn [mbind list_bind Reply.performed app].
  unfold Send.sendMessageWeChat, Send.resolveSendContext.
  cbn [Send.cfg Send.apiToken Send.baseUrl Send.robotId Send.voiceFilePath
       Send.mediaUrl Send.at_ default from_option Datatypes.id
       Send.ctxApiToken truthy_opt].
  destruct (truthy apiToken) eqn:Ha; cbn [negb andb].
  2: { apply truthy_false in Ha. split; [contradiction | reflexivity]. }
  destruct (truthy (trim replyTo)) eqn:Hr; cbn [negb andb].
  2: { apply falsy_trim in Hr. split; [contradiction | reflexivity]. }
  rewrite Ht. cbn [negb].
  apply truthy_trim in Ht, Hr. apply truthy_true in Ha.
  split.
  - intros _ _ _. exists (trim replyTo). split; [apply trim_stripped |].
    now destruct (Send.sendTextMessage _ _ _ _ _).
  - intros [H | [H | H]]; contradiction.
Qed.

End InboundProps.
